(** * AI-Builder-Orchestrator: agent registry, agent selection, task
      lifecycle and task queue

    A shallow embedding of
      - [src/core/agent-manager/agent-manager.js]  (class [AgentManager]),
      - the orchestration service                  (class [OrchestrationService],
        method [executeTaskWithAgent]),
      - the task queue                             (class [TaskQueue]),
    and the properties of the specification that concern them.

    Conventions of the embedding.
      - JavaScript strings are [string]s of 8-bit characters; [toLowerCase]
        is the ASCII lower-casing, so descriptions are taken to be ASCII.
      - The counters of an agent ([currentTasks], [totalTasks], ...) are JS
        numbers that only ever hold integers: they are [Z], and [Math.max]
        is [Z.max].
      - A configured [max_concurrent_tasks] is whatever finite number the
        caller gives, negative or fractional as it may be: a rational
        ([Q]), and so is the [maxConcurrentTasks] that [registerAgent]
        copies from it.  Comparisons of a counter with it are exact.
      - [successRate] is kept as the exact quotient of the two counters
        ([Q]); the number JS stores is its binary64 rounding, which
        [JS.ofQ] computes where the score reads it.
      - The score of an agent is computed in binary64, operation by
        operation, as JS does: [JS.number] is the standard library's
        [spec_float] with a 53-bit significand.
      - [new Date()] and [uuidv4()] are arguments of the operation that
        calls them.
      - A [Map] iterates in the order of first insertion: the agent registry
        is an association list with unique keys; the maps and the set of
        the task queue, whose order no operation below depends on, are
        stdpp's [gmap] and [gset].
      - A method that can throw returns a [Result]; the state after the
        call is returned next to it, so that "nothing changed" is a theorem
        and not a convention. *)

From Stdlib Require Import ZArith QArith Qminmax Qround Lqa Ascii String List Bool Lia Permutation
  Sorted SpecFloat.
From stdpp Require Import gmap strings list fin_maps.
Import ListNotations.

Local Open Scope string_scope.
Local Open Scope list_scope.
Local Open Scope Z_scope.

(** ** JavaScript strings and arrays *)

Module JS.

(** [c.toLowerCase()] on one ASCII character. *)
Definition lower_ascii (c : ascii) : ascii :=
  let n := N_of_ascii c in
  if ((65 <=? n) && (n <=? 90))%N then ascii_of_N (n + 32) else c.

(** [s.toLowerCase()] *)
Fixpoint toLowerCase (s : string) : string :=
  match s with
  | EmptyString => EmptyString
  | String c s' => String (lower_ascii c) (toLowerCase s')
  end.

(** [s.startsWith(p)] *)
Fixpoint startsWith (s p : string) {struct p} : bool :=
  match p with
  | EmptyString => true
  | String c p' =>
      match s with
      | EmptyString => false
      | String d s' => Ascii.eqb c d && startsWith s' p'
      end
  end.

(** [s.includes(sub)]: [sub] occurs in [s] at some position. *)
Fixpoint includes (s sub : string) : bool :=
  startsWith s sub ||
  match s with
  | EmptyString => false
  | String _ s' => includes s' sub
  end.

(** [arr.includes(x)] on an array of strings. *)
Definition array_includes (arr : list string) (x : string) : bool :=
  existsb (String.eqb x) arr.

(** [arr.sort(cmp)].  ECMAScript requires the sort to be stable; with a
    consistent comparator the result is the one of a stable insertion
    sort.  [after a b] is [cmp(a, b) > 0]: [a] has to come after [b]. *)
Section Sort.
Context {A : Type} (after : A -> A -> bool).

Fixpoint sort_insert (x : A) (l : list A) : list A :=
  match l with
  | [] => [x]
  | y :: l' => if after x y then y :: sort_insert x l' else x :: l
  end.

Fixpoint sort (l : list A) : list A :=
  match l with
  | [] => []
  | x :: l' => sort_insert x (sort l')
  end.
End Sort.

(** *** Numbers

    A JS number is an IEEE 754 binary64 value.  [spec_float] is the
    standard library's executable specification of the format and of its
    correctly rounded operations (round to nearest, ties to even). *)
Definition number : Type := spec_float.

Definition prec : Z := 53.
Definition emax : Z := 1024.

(** The number an integer literal or an integer-valued counter denotes. *)
Definition ofZ (z : Z) : number := binary_normalize prec emax z 0 false.

(** The number nearest to a quotient of two integers. *)
Definition ofQ (q : Q) : number := SFdiv prec emax (ofZ (Qnum q)) (ofZ (Zpos (Qden q))).

Definition add : number -> number -> number := SFadd prec emax.
Definition sub : number -> number -> number := SFsub prec emax.
Definition mul : number -> number -> number := SFmul prec emax.
Definition div : number -> number -> number := SFdiv prec emax.

(** [x < y] and [x <= y]; both are false when an operand is [NaN]. *)
Definition ltb : number -> number -> bool := SFltb.
Definition leb : number -> number -> bool := SFleb.

(** [x] is a number of the format other than [NaN].  Every operation
    returns a canonical representation; [spec_float] has others. *)
Definition isNumber (x : number) : bool :=
  valid_binary prec emax x && match x with S754_nan => false | _ => true end.

(** [x < y] on numbers held exactly. *)
Definition Qltb (x y : Q) : bool := negb (Qle_bool y x).

End JS.

(** ** Results of methods that can throw *)

Inductive Error : Type :=
| NotFound             (* Error(`Agent ${name} not found`), Error(`... task ${id} not found`) *)
| CapacityExceeded     (* Error(`Agent ${name} is at maximum capacity`) *)
| NoAvailableAgent     (* Error('No available agents found') *)
| TypeError            (* a property of [null] is read *)
| CancellationRejected (* Error('Cannot cancel task that is currently processing') *)
| ExecutionError (msg : string)   (* what the task executor throws *)
| StoreError (msg : string).      (* what the persistent store throws *)

Inductive Result (A : Type) : Type :=
| Ok (a : A)
| Throw (e : Error).
Arguments Ok {A} a.
Arguments Throw {A} e.

(** ** The agent manager ([agent-manager.js]) *)

Module AgentManager.

Inductive Status : Type := active | inactive.

Definition Status_eqb (a b : Status) : bool :=
  match a, b with
  | active, active | inactive, inactive => true
  | _, _ => false
  end.

(** [agentData.configuration]; every field is optional. *)
Record Configuration : Type := {
  api_endpoint : option string;
  max_concurrent_tasks : option Q;
  preferred_languages : option (list string);
  specializations : option (list string)
}.

Record Performance : Type := {
  totalTasks : Z;
  completedTasks : Z;
  failedTasks : Z;
  averageExecutionTime : Z;
  successRate : Q
}.

Record Agent : Type := {
  id : string;
  name : string;
  type : string;
  status : Status;
  capabilities : list string;
  configuration : Configuration;
  currentTasks : Z;
  maxConcurrentTasks : Q;
  lastHeartbeat : nat;
  performance : Performance;
  createdAt : nat
}.

(** The argument of [registerAgent]. *)
Record AgentData : Type := {
  data_name : string;
  data_type : string;
  data_capabilities : option (list string);
  data_configuration : option Configuration
}.

(** [this.agents]: a [Map] from agent name to agent, in insertion order. *)
Definition Registry : Type := list (string * Agent).

(** [this.agents.get(name)] *)
Fixpoint get (m : Registry) (n : string) : option Agent :=
  match m with
  | [] => None
  | (k, a) :: m' => if String.eqb k n then Some a else get m' n
  end.

(** [this.agents.set(name, a)]: an existing key keeps its position. *)
Fixpoint set (m : Registry) (n : string) (a : Agent) : Registry :=
  match m with
  | [] => [(n, a)]
  | (k, b) :: m' => if String.eqb k n then (k, a) :: m' else (k, b) :: set m' n a
  end.

(** [Array.from(this.agents.values())] *)
Definition values (m : Registry) : list Agent := map snd m.

Definition emptyConfiguration : Configuration :=
  {| api_endpoint := None; max_concurrent_tasks := None;
     preferred_languages := None; specializations := None |}.

(** [agentData.configuration?.max_concurrent_tasks || 5]: an absent value
    and [0] are falsy; every other number is kept as it is. *)
Definition max_or_default (c : option Configuration) : Q :=
  match c with
  | Some cfg =>
      match max_concurrent_tasks cfg with
      | Some n => if Qeq_bool n 0 then 5%Q else n
      | None => 5%Q
      end
  | None => 5%Q
  end.

Definition registerAgent (m : Registry) (uuid : string) (now : nat) (d : AgentData)
  : Agent * Registry :=
  let agent :=
    {| id := uuid;
       name := data_name d;
       type := data_type d;
       status := active;
       capabilities := match data_capabilities d with Some c => c | None => [] end;
       configuration := match data_configuration d with
                        | Some c => c | None => emptyConfiguration end;
       currentTasks := 0;
       maxConcurrentTasks := max_or_default (data_configuration d);
       lastHeartbeat := now;
       performance := {| totalTasks := 0; completedTasks := 0; failedTasks := 0;
                         averageExecutionTime := 0; successRate := 0%Q |};
       createdAt := now |} in
  (agent, set m (name agent) agent).

Definition getAllAgents (m : Registry) : list Agent := values m.

Definition getAgentByName (m : Registry) (n : string) : option Agent := get m n.

Definition isAvailable (a : Agent) : bool :=
  Status_eqb (status a) active
  && JS.Qltb (inject_Z (currentTasks a)) (maxConcurrentTasks a).

Definition getAvailableAgents (m : Registry) : list Agent :=
  List.filter isAvailable (values m).

(** [extractRequiredCapabilities(task, projectContext)]: the array is
    built by successive [push]es. *)
Definition push_if (b : bool) (items : list string) (arr : list string) : list string :=
  if b then arr ++ items else arr.

Definition extractRequiredCapabilities (task : string) : list string :=
  let taskLower := JS.toLowerCase task in
  let inc := JS.includes taskLower in
  let capabilities := [] in
  let capabilities :=
    push_if (inc "build" || inc "compile") ["code_generation"; "testing"] capabilities in
  let capabilities :=
    push_if (inc "test" || inc "testing") ["testing"] capabilities in
  let capabilities :=
    push_if (inc "deploy" || inc "deployment") ["deployment"] capabilities in
  let capabilities :=
    push_if (inc "debug" || inc "fix") ["debugging"] capabilities in
  let capabilities :=
    push_if (inc "refactor" || inc "optimize") ["refactoring"] capabilities in
  let capabilities :=
    push_if (inc "document" || inc "readme") ["documentation"] capabilities in
  let capabilities :=
    push_if (inc "architecture" || inc "design") ["architecture_design"] capabilities in
  let capabilities :=
    push_if (inc "review" || inc "analyze") ["code_review"; "analysis"] capabilities in
  push_if (Nat.eqb (length capabilities) 0) ["code_generation"; "problem_solving"] capabilities.

(** [determineTaskType(task, projectContext)] *)
Definition determineTaskType (task : string) : string :=
  let taskLower := JS.toLowerCase task in
  let inc := JS.includes taskLower in
  if inc "web" || inc "frontend" || inc "react" || inc "vue" then "web_development"
  else if inc "api" || inc "backend" || inc "server" then "api_development"
  else if inc "microservice" || inc "service" then "microservices"
  else if inc "mobile" || inc "app" then "mobile_development"
  else if inc "data" || inc "ml" || inc "ai" then "data_science"
  else "general_development".

(** An argument of a call: left out ([undefined]), [null], or given. *)
Inductive Passed (A : Type) : Type :=
| Undefined
| Null
| Given (a : A).
Arguments Undefined {A}.
Arguments Null {A}.
Arguments Given {A} a.

(** [projectContext]; [technology_stack] may be absent. *)
Record ProjectContext : Type := {
  technology_stack : option (list string);
  priority : option string
}.

Definition emptyContext : ProjectContext :=
  {| technology_stack := None; priority := None |}.

(** [a?.includes(x)]: [undefined], which is falsy, when [a] is absent. *)
Definition opt_includes (a : option (list string)) (x : string) : bool :=
  match a with
  | Some l => JS.array_includes l x
  | None => false
  end.

(** [arr.length] as a JS number. *)
Definition len {A : Type} (l : list A) : JS.number := JS.ofZ (Z.of_nat (length l)).

(** The body of the [map] callback of [selectBestAgent]: the score of one
    agent, accumulated as the source does, every operation rounded. *)
Definition scoreAgent (task : string) (projectContext : ProjectContext) (agent : Agent)
  : JS.number :=
  let score := JS.ofZ 0 in
  let score :=
    JS.add score (JS.mul (JS.ofQ (successRate (performance agent))) (JS.ofZ 100)) in
  let requiredCapabilities := extractRequiredCapabilities task in
  let matchingCapabilities :=
    List.filter (fun cap => JS.array_includes (capabilities agent) cap) requiredCapabilities in
  let score :=
    JS.add score
      (JS.mul (JS.div (len matchingCapabilities) (len requiredCapabilities)) (JS.ofZ 50)) in
  let preferredLanguages :=
    match technology_stack projectContext with Some l => l | None => [] end in
  let matchingLanguages :=
    List.filter (fun lang => opt_includes (preferred_languages (configuration agent)) lang)
           preferredLanguages in
  let score :=
    JS.add score
      (JS.mul (JS.div (len matchingLanguages)
                      (JS.ofZ (Z.max (Z.of_nat (length preferredLanguages)) 1)))
              (JS.ofZ 30)) in
  let taskType := determineTaskType task in
  let score :=
    if opt_includes (specializations (configuration agent)) taskType
    then JS.add score (JS.ofZ 20) else score in
  let loadRatio :=
    JS.div (JS.ofZ (currentTasks agent)) (JS.ofQ (maxConcurrentTasks agent)) in
  JS.sub score (JS.mul loadRatio (JS.ofZ 20)).

(** [b.score - a.score > 0], the comparator of [scoredAgents.sort]; a
    difference that is [NaN] counts as [0]. *)
Definition score_after (a b : Agent * JS.number) : bool :=
  JS.ltb (JS.ofZ 0) (JS.sub (snd b) (snd a)).

(** The parameter [projectContext = {}] as the body sees it: the default
    replaces an argument that is left out, not one that is [null]. *)
Definition defaulted (projectContext : Passed ProjectContext) : option ProjectContext :=
  match projectContext with
  | Undefined => Some emptyContext
  | Null => None
  | Given c => Some c
  end.

(** [selectBestAgent(task, projectContext = {})]; with [null] the first
    call of the [map] callback throws at [projectContext.technology_stack]. *)
Definition selectBestAgent (m : Registry) (task : string)
    (projectContext : Passed ProjectContext) : Result Agent :=
  let availableAgents := getAvailableAgents m in
  if Nat.eqb (length availableAgents) 0 then Throw NoAvailableAgent
  else
    match defaulted projectContext with
    | None => Throw TypeError
    | Some projectContext =>
        let scoredAgents :=
          map (fun agent => (agent, scoreAgent task projectContext agent)) availableAgents in
        match JS.sort score_after scoredAgents with
        | best :: _ => Ok (fst best)
        | [] => Throw NoAvailableAgent  (* not reached: the array is not empty *)
        end
    end.

(** Field updates of the agent object. *)
Definition with_currentTasks (a : Agent) (c : Z) (now : nat) : Agent :=
  {| id := id a; name := name a; type := type a; status := status a;
     capabilities := capabilities a; configuration := configuration a;
     currentTasks := c; maxConcurrentTasks := maxConcurrentTasks a;
     lastHeartbeat := now; performance := performance a; createdAt := createdAt a |}.

Definition with_performance (a : Agent) (p : Performance) : Agent :=
  {| id := id a; name := name a; type := type a; status := status a;
     capabilities := capabilities a; configuration := configuration a;
     currentTasks := currentTasks a; maxConcurrentTasks := maxConcurrentTasks a;
     lastHeartbeat := lastHeartbeat a; performance := p; createdAt := createdAt a |}.

Definition with_status (a : Agent) (s : Status) (now : nat) : Agent :=
  {| id := id a; name := name a; type := type a; status := s;
     capabilities := capabilities a; configuration := configuration a;
     currentTasks := currentTasks a; maxConcurrentTasks := maxConcurrentTasks a;
     lastHeartbeat := now; performance := performance a; createdAt := createdAt a |}.

Definition with_configuration (a : Agent) (c : Configuration) (now : nat) : Agent :=
  {| id := id a; name := name a; type := type a; status := status a;
     capabilities := capabilities a; configuration := c;
     currentTasks := currentTasks a; maxConcurrentTasks := maxConcurrentTasks a;
     lastHeartbeat := now; performance := performance a; createdAt := createdAt a |}.

(** [assignTaskToAgent(agentName, taskId)]: the spec's [reserve]. *)
Definition assignTaskToAgent (m : Registry) (agentName taskId : string) (now : nat)
  : Result Agent * Registry :=
  match get m agentName with
  | None => (Throw NotFound, m)
  | Some agent =>
      if Qle_bool (maxConcurrentTasks agent) (inject_Z (currentTasks agent))
      then (Throw CapacityExceeded, m)
      else
        let agent := with_currentTasks agent (currentTasks agent + 1) now in
        (Ok agent, set m agentName agent)
  end.

(** The update of [agent.performance] in [releaseTaskFromAgent]. *)
Definition recordOutcome (p : Performance) (success : bool) : Performance :=
  let total := totalTasks p + 1 in
  let completed := if success then completedTasks p + 1 else completedTasks p in
  let failed := if success then failedTasks p else failedTasks p + 1 in
  {| totalTasks := total; completedTasks := completed; failedTasks := failed;
     averageExecutionTime := averageExecutionTime p;
     successRate := (inject_Z completed / inject_Z total)%Q |}.

(** [releaseTaskFromAgent(agentName, taskId, success = true)]: the spec's
    [release].  An unknown name is logged and nothing else happens. *)
Definition releaseTaskFromAgent (m : Registry) (agentName taskId : string)
    (success : bool) (now : nat) : Registry :=
  match get m agentName with
  | None => m
  | Some agent =>
      let agent := with_currentTasks agent (Z.max 0 (currentTasks agent - 1)) now in
      let agent := with_performance agent (recordOutcome (performance agent) success) in
      set m agentName agent
  end.

(** [updateAgentHeartbeat(agentName)] *)
Definition updateAgentHeartbeat (m : Registry) (agentName : string) (now : nat) : Registry :=
  match get m agentName with
  | Some agent => set m agentName (with_currentTasks agent (currentTasks agent) now)
  | None => m
  end.

(** [{ ...agent.configuration, ...newConfiguration }] *)
Definition spread {A : Type} (old new : option A) : option A :=
  match new with Some v => Some v | None => old end.

Definition mergeConfiguration (old new : Configuration) : Configuration :=
  {| api_endpoint := spread (api_endpoint old) (api_endpoint new);
     max_concurrent_tasks := spread (max_concurrent_tasks old) (max_concurrent_tasks new);
     preferred_languages := spread (preferred_languages old) (preferred_languages new);
     specializations := spread (specializations old) (specializations new) |}.

(** [updateAgentConfiguration(agentName, newConfiguration)] *)
Definition updateAgentConfiguration (m : Registry) (agentName : string)
    (newConfiguration : Configuration) (now : nat) : Result Configuration * Registry :=
  match get m agentName with
  | None => (Throw NotFound, m)
  | Some agent =>
      let c := mergeConfiguration (configuration agent) newConfiguration in
      (Ok c, set m agentName (with_configuration agent c now))
  end.

(** [deactivateAgent(agentName)] and [activateAgent(agentName)] *)
Definition setStatus (s : Status) (m : Registry) (agentName : string) (now : nat)
  : Result unit * Registry :=
  match get m agentName with
  | None => (Throw NotFound, m)
  | Some agent => (Ok tt, set m agentName (with_status agent s now))
  end.

Definition deactivateAgent := setStatus inactive.
Definition activateAgent := setStatus active.

(** One call of a method of the manager that writes the registry. *)
Inductive Op : Type :=
| OpRegister (uuid : string) (now : nat) (d : AgentData)
| OpAssign (agentName taskId : string) (now : nat)
| OpRelease (agentName taskId : string) (success : bool) (now : nat)
| OpHeartbeat (agentName : string) (now : nat)
| OpUpdateConfiguration (agentName : string) (c : Configuration) (now : nat)
| OpDeactivate (agentName : string) (now : nat)
| OpActivate (agentName : string) (now : nat).

(** The registry after one call (whether it returned or threw). *)
Definition step (m : Registry) (o : Op) : Registry :=
  match o with
  | OpRegister uuid now d => snd (registerAgent m uuid now d)
  | OpAssign n t now => snd (assignTaskToAgent m n t now)
  | OpRelease n t s now => releaseTaskFromAgent m n t s now
  | OpHeartbeat n now => updateAgentHeartbeat m n now
  | OpUpdateConfiguration n c now => snd (updateAgentConfiguration m n c now)
  | OpDeactivate n now => snd (deactivateAgent m n now)
  | OpActivate n now => snd (activateAgent m n now)
  end.

(** The registry after a sequence of calls, from the earliest on. *)
Definition run (ops : list Op) (m : Registry) : Registry := fold_left step ops m.

(** [new AgentManager()] *)
Definition newManager : Registry := [].

(** The object [formatAgentStatus(agent)] builds. *)
Record AgentStatus : Type := {
  status_name : string;
  status_type : string;
  status_status : Status;
  status_currentTasks : Z;
  status_maxConcurrentTasks : Q;
  loadPercentage : Q;
  status_capabilities : list string;
  status_performance : Performance;
  status_lastHeartbeat : nat;
  status_isAvailable : bool
}.

(** [formatAgentStatus(agent)] *)
Definition formatAgentStatus (agent : Agent) : AgentStatus :=
  {| status_name := name agent;
     status_type := type agent;
     status_status := status agent;
     status_currentTasks := currentTasks agent;
     status_maxConcurrentTasks := maxConcurrentTasks agent;
     loadPercentage :=
       (inject_Z (currentTasks agent) / maxConcurrentTasks agent * 100)%Q;
     status_capabilities := capabilities agent;
     status_performance := performance agent;
     status_lastHeartbeat := lastHeartbeat agent;
     status_isAvailable :=
       Status_eqb (status agent) active
       && JS.Qltb (inject_Z (currentTasks agent)) (maxConcurrentTasks agent) |}.

(** What [getAgentStatus] returns: one status, or [null], for a name;
    the array of all statuses without a name. *)
Inductive StatusReply : Type :=
| OneStatus (s : option AgentStatus)
| AllStatuses (l : list AgentStatus).

(** [getAgentStatus(agentName = null)]; [if (agentName)] is false for
    [null], [undefined] and the empty string. *)
Definition getAgentStatus (m : Registry) (agentName : option string) : StatusReply :=
  match agentName with
  | Some n =>
      if String.eqb n "" then AllStatuses (map formatAgentStatus (values m))
      else OneStatus (match get m n with
                      | Some agent => Some (formatAgentStatus agent)
                      | None => None
                      end)
  | None => AllStatuses (map formatAgentStatus (values m))
  end.

(** [getAgentCapabilities(agentName)] *)
Definition getAgentCapabilities (m : Registry) (agentName : string) : list string :=
  match get m agentName with
  | Some agent => capabilities agent
  | None => []
  end.

(** [getAgentConfiguration(agentName)]; [None] is [null]. *)
Definition getAgentConfiguration (m : Registry) (agentName : string) : option Configuration :=
  match get m agentName with
  | Some agent => Some (configuration agent)
  | None => None
  end.

End AgentManager.

(** ** The orchestration service: [executeTaskWithAgent] *)

Module OrchestrationService.
Import AgentManager.

(** [taskArgs]: the arguments of [delegateToAIBuilder]. *)
Record TaskArgs : Type := {
  task : string;
  project_context : Passed ProjectContext;
  preferred_agent : option string
}.

(** What an executor returns is opaque to the service. *)
Definition ExecResult : Type := string.

(** The task executors, one per agent type; each returns a result or
    throws.  They are the pluggable collaborator of the specification. *)
Record Executors : Type := {
  executeWithAIBuilder : Agent -> TaskArgs -> Result ExecResult;
  executeWithAIEditor : Agent -> TaskArgs -> Result ExecResult;
  executeWithAIAssistant : Agent -> TaskArgs -> Result ExecResult;
  executeWithAICopilot : Agent -> TaskArgs -> Result ExecResult;
  executeWithGenericAgent : Agent -> TaskArgs -> Result ExecResult
}.

(** The persistent store ([this.database]), as far as this method uses
    it: whether [updateTaskStatus(taskId, status, ...)] and
    [logTaskExecution(taskId, agentId, action, ...)] resolve ([None]) or
    reject with a message. *)
Record Database : Type := {
  updateTaskStatus : string -> string -> option string;
  logTaskExecution : string -> string -> option string
}.

(** The calls the service makes on its collaborators, in order. *)
Inductive Event : Type :=
| EvExecute (agentName : string)
| EvUpdateTaskStatus (taskId status : string) (progress : Z)
| EvRelease (agentName taskId : string) (success : bool)
| EvLogTaskExecution (taskId action : string).

Record State : Type := {
  registry : Registry;
  events : list Event
}.

(** Computations that read and write the state and may throw. *)
Definition M (A : Type) : Type := State -> Result A * State.

Definition ret {A : Type} (a : A) : M A := fun s => (Ok a, s).

Definition throw {A : Type} (e : Error) : M A := fun s => (Throw e, s).

Definition bind {A B : Type} (c : M A) (k : A -> M B) : M B :=
  fun s =>
    match c s with
    | (Ok a, s') => k a s'
    | (Throw e, s') => (Throw e, s')
    end.

(** [try { body } catch (error) { handler }]: the handler runs in the
    state the body left. *)
Definition try_catch {A : Type} (body : M A) (handler : Error -> M A) : M A :=
  fun s =>
    match body s with
    | (Ok a, s') => (Ok a, s')
    | (Throw e, s') => handler e s'
    end.

Notation "x <- c ;; k" := (bind c (fun x => k))
  (at level 100, c at next level, right associativity).
Notation "c ;;; k" := (bind c (fun _ => k))
  (at level 100, right associativity).

Definition emit (e : Event) : M unit :=
  fun s => (Ok tt, {| registry := registry s; events := events s ++ [e] |}).

Definition lift {A : Type} (r : Result A) : M A := fun s => (r, s).

Definition store_call (outcome : option string) : M unit :=
  match outcome with
  | None => ret tt
  | Some msg => throw (StoreError msg)
  end.

Definition db_updateTaskStatus (db : Database) (taskId status : string) (progress : Z)
  : M unit :=
  emit (EvUpdateTaskStatus taskId status progress) ;;;
  store_call (updateTaskStatus db taskId status).

Definition db_logTaskExecution (db : Database) (taskId action : string) : M unit :=
  emit (EvLogTaskExecution taskId action) ;;;
  store_call (logTaskExecution db taskId action).

(** [await this.agentManager.releaseTaskFromAgent(name, taskId, success)] *)
Definition release (agentName taskId : string) (success : bool) (now : nat) : M unit :=
  fun s =>
    (Ok tt,
     {| registry := releaseTaskFromAgent (registry s) agentName taskId success now;
        events := events s ++ [EvRelease agentName taskId success] |}).

(** [switch (agent.type) { ... }] *)
Definition dispatch (ex : Executors) (agent : Agent) (taskArgs : TaskArgs)
  : Result ExecResult :=
  if String.eqb (type agent) "ai_builder" then executeWithAIBuilder ex agent taskArgs
  else if String.eqb (type agent) "ai_editor" then executeWithAIEditor ex agent taskArgs
  else if String.eqb (type agent) "ai_assistant" then executeWithAIAssistant ex agent taskArgs
  else if String.eqb (type agent) "ai_copilot" then executeWithAICopilot ex agent taskArgs
  else executeWithGenericAgent ex agent taskArgs.

(** [executeTaskWithAgent(agent, taskId, taskArgs)] *)
Definition executeTaskWithAgent (ex : Executors) (db : Database)
    (agent : Agent) (taskId : string) (taskArgs : TaskArgs) (now : nat) : M ExecResult :=
  try_catch
    (emit (EvExecute (name agent)) ;;;
     result <- lift (dispatch ex agent taskArgs) ;;
     db_updateTaskStatus db taskId "completed" 100 ;;;
     release (name agent) taskId true now ;;;
     db_logTaskExecution db taskId "task_completed" ;;;
     ret result)
    (fun error =>
     db_updateTaskStatus db taskId "failed" 0 ;;;
     release (name agent) taskId false now ;;;
     db_logTaskExecution db taskId "task_failed" ;;;
     throw error).

(** The [success] flags of the releases of [agentName] for [taskId] among
    the events. *)
Fixpoint releases (agentName taskId : string) (l : list Event) : list bool :=
  match l with
  | [] => []
  | EvRelease n t b :: l' =>
      if String.eqb n agentName && String.eqb t taskId
      then b :: releases agentName taskId l'
      else releases agentName taskId l'
  | _ :: l' => releases agentName taskId l'
  end.

(** [determineTaskType(task)] of the service: the [task_type] stored with
    the task. *)
Definition determineTaskType (task : string) : string :=
  let taskLower := JS.toLowerCase task in
  let inc := JS.includes taskLower in
  if inc "build" || inc "create" then "build"
  else if inc "test" then "test"
  else if inc "deploy" then "deploy"
  else if inc "fix" || inc "debug" then "fix"
  else if inc "refactor" then "refactor"
  else "general".

(** [a || b] on strings that may be absent: [undefined] and the empty
    string are falsy. *)
Definition or_string (a : option string) (b : string) : string :=
  match a with
  | Some s => if String.eqb s "" then b else s
  | None => b
  end.

(** The argument of [handleChatbotMessage]. *)
Record MessageData : Type := {
  message : option string;
  text : option string
}.

(** What [extractTaskFromMessage] returns; the [source] field of its
    context is read nowhere and is left out. *)
Record ExtractedTask : Type := {
  extracted_id : string;
  extracted_description : string;
  extracted_context : ProjectContext
}.

(** [messageData.message || messageData.text || ''] *)
Definition messageOf (messageData : MessageData) : string :=
  or_string (message messageData) (or_string (text messageData) "").

(** [extractTaskFromMessage(messageData)]; [None] is [null]. *)
Definition extractTaskFromMessage (messageData : MessageData) (uuid : string)
  : option ExtractedTask :=
  let message := messageOf messageData in
  if JS.includes (JS.toLowerCase message) "build"
     || JS.includes (JS.toLowerCase message) "create"
  then Some {| extracted_id := uuid;
               extracted_description := message;
               extracted_context :=
                 {| technology_stack := None; priority := Some "medium" |} |}
  else None.

(** The arguments of [delegateToAIBuilder] as they arrive: each may be
    absent. *)
Record DelegateArgs : Type := {
  arg_task : option string;
  arg_project_context : Passed ProjectContext;
  arg_preferred_agent : option string
}.

(** The row [createTask] inserts. *)
Record TaskRow : Type := {
  row_task_id : string;
  row_agent_id : string;
  row_task_type : string;
  row_task_description : string;
  row_priority : string
}.

(** The store of [delegateToAIBuilder]: the calls of [Database] and
    whether [createTask] resolves or rejects. *)
Record TaskStore : Type := {
  createTask : TaskRow -> option string;
  database : Database
}.

(** The state [delegateToAIBuilder] works on: the state of the service
    and the rows of the task table. *)
Record World : Type := {
  service : State;
  taskTable : list TaskRow
}.

(** What the method can throw: its own validation error or an error of a
    collaborator. *)
Inductive Failure : Type :=
| ValidationError (msg : string)
| Thrown (e : Error).

Inductive Outcome (A : Type) : Type :=
| Returned (a : A)
| Failed (f : Failure).
Arguments Returned {A} a.
Arguments Failed {A} f.

Definition D (A : Type) : Type := World -> Outcome A * World.

Definition dret {A : Type} (a : A) : D A := fun w => (Returned a, w).

Definition dthrow {A : Type} (f : Failure) : D A := fun w => (Failed f, w).

Definition dbind {A B : Type} (c : D A) (k : A -> D B) : D B :=
  fun w =>
    match c w with
    | (Returned a, w') => k a w'
    | (Failed f, w') => (Failed f, w')
    end.

(** A computation of the service, run on the service part of the world. *)
Definition liftM {A : Type} (c : M A) : D A :=
  fun w =>
    match c (service w) with
    | (Ok a, s) => (Returned a, {| service := s; taskTable := taskTable w |})
    | (Throw e, s) => (Failed (Thrown e), {| service := s; taskTable := taskTable w |})
    end.

(** [await this.agentManager.X(...)] for a method that returns a result
    and a registry. *)
Definition onRegistry {A : Type} (f : Registry -> Result A * Registry) : D A :=
  liftM (fun s =>
           let (r, m) := f (registry s) in
           (r, {| registry := m; events := events s |})).

(** [await this.database.createTask(row)] *)
Definition db_createTask (store : TaskStore) (row : TaskRow) : D unit :=
  fun w =>
    match createTask store row with
    | None => (Returned tt, {| service := service w; taskTable := taskTable w ++ [row] |})
    | Some msg => (Failed (Thrown (StoreError msg)), w)
    end.

(** What [delegateToAIBuilder] returns: the report of the delegation, or
    the report of the error it caught. *)
Inductive Response : Type :=
| Delegated (taskId agentName agentType task priority : string)
| DelegationError (f : Failure).

(** [args.project_context?.priority || 'medium'] *)
Definition priorityOf (c : Passed ProjectContext) : string :=
  match c with
  | Given c => or_string (priority c) "medium"
  | _ => "medium"
  end.

(** [args.preferred_agent && args.preferred_agent !== 'auto'] *)
Definition prefers (p : option string) : option string :=
  match p with
  | Some n => if String.eqb n "" || String.eqb n "auto" then None else Some n
  | None => None
  end.

(** The [try] block of [delegateToAIBuilder].  [selectedAgent] is the
    object the registry holds under its name, which the reservation
    updates: the executor gets the agent the reservation returns. *)
Definition delegate_try (ex : Executors) (store : TaskStore) (uuid : string) (now : nat)
    (args : DelegateArgs) : D Response :=
  dbind (match arg_task args with
         | Some t => if String.eqb t "" then dthrow (ValidationError "Task description is required")
                     else dret t
         | None => dthrow (ValidationError "Task description is required")
         end) (fun task =>
  let taskId := uuid in
  dbind (match prefers (arg_preferred_agent args) with
         | Some n =>
             onRegistry (fun m => (match getAgentByName m n with
                                   | Some a => Ok a
                                   | None => Throw NotFound
                                   end, m))
         | None =>
             onRegistry (fun m => (selectBestAgent m task (arg_project_context args), m))
         end) (fun selectedAgent =>
  dbind (db_createTask store
           {| row_task_id := taskId;
              row_agent_id := id selectedAgent;
              row_task_type := determineTaskType task;
              row_task_description := task;
              row_priority := priorityOf (arg_project_context args) |}) (fun _ =>
  dbind (onRegistry (fun m => assignTaskToAgent m (name selectedAgent) taskId now))
        (fun selectedAgent =>
  dbind (liftM (db_updateTaskStatus (database store) taskId "in_progress" 0)) (fun _ =>
  dbind (liftM (db_logTaskExecution (database store) taskId "task_assigned")) (fun _ =>
  dbind (liftM (executeTaskWithAgent ex (database store) selectedAgent taskId
                  {| task := task;
                     project_context := arg_project_context args;
                     preferred_agent := arg_preferred_agent args |} now)) (fun _ =>
  dret (Delegated taskId (name selectedAgent) (type selectedAgent) task
                  (priorityOf (arg_project_context args)))))))))).

(** [delegateToAIBuilder(args)]: whatever the [try] block throws is
    caught and reported. *)
Definition delegateToAIBuilder (ex : Executors) (store : TaskStore) (uuid : string)
    (now : nat) (args : DelegateArgs) (w : World) : Response * World :=
  match delegate_try ex store uuid now args w with
  | (Returned r, w') => (r, w')
  | (Failed f, w') => (DelegationError f, w')
  end.



End OrchestrationService.

(** ** The task queue *)

Module TaskQueue.

Inductive Priority : Type := urgent | high | medium | low.

Inductive Status : Type := queued | processing_ | completed_ | failed_ | cancelled.

(** [taskData], the argument of [addTask]: the fields of a task that
    the caller's object may carry.  [addTask] spreads them over the id it
    draws; a [status] or [createdAt] would be overwritten. *)
Record TaskData : Type := {
  data_id : option string;
  data_type : string;
  data_description : string;
  data_priority : option Priority;
  data_startedAt : option nat;
  data_completedAt : option nat;
  data_failedAt : option nat;
  data_result : option string;
  data_error : option string;
  data_retryCount : option Z
}.

Record Task : Type := {
  id : string;
  type : string;
  description : string;
  status : Status;
  createdAt : nat;
  priority : Priority;
  startedAt : option nat;
  completedAt : option nat;
  failedAt : option nat;
  result : option string;
  error : option string;
  retryCount : option Z
}.

(** The values of [this.failed]: [{ task, error }]. *)
Record FailedEntry : Type := {
  entry_task : Task;
  entry_error : string
}.

Record Queue : Type := {
  queue : list Task;
  processing : gset string;
  completed : gmap string Task;
  failed : gmap string FailedEntry;
  isRunning : bool
}.

(** [new TaskQueue()] *)
Definition newQueue : Queue :=
  {| queue := []; processing := ∅; completed := ∅; failed := ∅; isRunning := false |}.

Definition with_queue (q : Queue) (l : list Task) : Queue :=
  {| queue := l; processing := processing q; completed := completed q;
     failed := failed q; isRunning := isRunning q |}.

Definition update (t : Task) (s : Status) (started completed failed : option nat)
    (res err : option string) (rc : option Z) : Task :=
  {| id := id t; type := type t; description := description t; status := s;
     createdAt := createdAt t; priority := priority t;
     startedAt := started; completedAt := completed; failedAt := failed;
     result := res; error := err; retryCount := rc |}.

Definition with_status (t : Task) (s : Status) : Task :=
  update t s (startedAt t) (completedAt t) (failedAt t) (result t) (error t) (retryCount t).

(** [start()] and [stop()] *)
Definition set_running (q : Queue) (b : bool) : Queue :=
  {| queue := queue q; processing := processing q; completed := completed q;
     failed := failed q; isRunning := b |}.

(** [addTask(taskData)]: [{ id: uuidv4(), ...taskData, status: 'queued',
    createdAt: new Date(), priority: taskData.priority || 'medium' }]. *)
Definition addTask (q : Queue) (uuid : string) (now : nat) (d : TaskData) : Task * Queue :=
  let task :=
    {| id := match data_id d with Some i => i | None => uuid end;
       type := data_type d; description := data_description d;
       status := queued; createdAt := now;
       priority := match data_priority d with Some p => p | None => medium end;
       startedAt := data_startedAt d; completedAt := data_completedAt d;
       failedAt := data_failedAt d;
       result := data_result d; error := data_error d;
       retryCount := data_retryCount d |} in
  (task, with_queue q (queue q ++ [task])).

(** [priorityOrder] *)
Definition priorityOrder (p : Priority) : Z :=
  match p with
  | urgent => 4
  | high => 3
  | medium => 2
  | low => 1
  end.

(** The comparator of [this.queue.sort] is positive. *)
Definition priority_after (a b : Task) : bool :=
  priorityOrder (priority b) - priorityOrder (priority a) >? 0.

(** The concurrency cap written in [processQueue]. *)
Definition maxConcurrency : nat := 10.

(** One iteration of the [while] loop of [processQueue], up to the wait:
    the task handed to [processTask], if any, and the queue state. *)
Definition processQueue_iteration (q : Queue) : option Task * Queue :=
  let sorted := JS.sort priority_after (queue q) in
  match sorted with
  | task :: rest =>
      if Nat.ltb (size (processing q)) maxConcurrency
      then (Some task,
            {| queue := rest; processing := {[ id task ]} ∪ processing q;
               completed := completed q; failed := failed q; isRunning := isRunning q |})
      else (None, with_queue q sorted)
  | [] => (None, with_queue q sorted)
  end.

(** [processTask(task)] up to its first [await]. *)
Definition processTask_start (task : Task) (now : nat) : Task :=
  update task processing_ (Some now) (completedAt task) (failedAt task)
         (result task) (error task) (retryCount task).

(** [processTask(task)] after [executeTask] resolved; [res] is the result
    the simulation stored in the task. *)
Definition processTask_resolved (q : Queue) (task : Task) (res : string) (now : nat) : Queue :=
  let task := update task completed_ (startedAt task) (Some now) (failedAt task)
                     (Some res) (error task) (retryCount task) in
  {| queue := queue q; processing := processing q ∖ {[ id task ]};
     completed := <[ id task := task ]> (completed q);
     failed := failed q; isRunning := isRunning q |}.

(** [processTask(task)] after [executeTask] rejected, followed by the
    [catch] callback of [processQueue], which records the same entry and
    deletes the same id once more. *)
Definition processTask_rejected (q : Queue) (task : Task) (msg : string) (now : nat) : Queue :=
  let task := update task failed_ (startedAt task) (completedAt task) (Some now)
                     (result task) (Some msg) (retryCount task) in
  let entry := {| entry_task := task; entry_error := msg |} in
  {| queue := queue q; processing := (processing q ∖ {[ id task ]}) ∖ {[ id task ]};
     completed := completed q;
     failed := <[ id task := entry ]> (<[ id task := entry ]> (failed q));
     isRunning := isRunning q |}.

(** [this.queue.findIndex(task => task.id === taskId)]; [None] is [-1]. *)
Fixpoint findIndex (taskId : string) (l : list Task) : option nat :=
  match l with
  | [] => None
  | t :: l' =>
      if String.eqb (id t) taskId then Some O
      else match findIndex taskId l' with
           | Some i => Some (S i)
           | None => None
           end
  end.

(** [cancelTask(taskId)]; [splice(queueIndex, 1)] is the list [delete]. *)
Definition cancelTask (q : Queue) (taskId : string) : Result Task * Queue :=
  match findIndex taskId (queue q) with
  | Some queueIndex =>
      match queue q !! queueIndex with
      | Some task =>
          (Ok (with_status task cancelled), with_queue q (delete queueIndex (queue q)))
      | None => (Throw NotFound, q)   (* not reached: the index is in range *)
      end
  | None =>
      if decide (taskId ∈ processing q) then (Throw CancellationRejected, q)
      else (Throw NotFound, q)
  end.

(** [retryTask(taskId)] *)
Definition retryTask (q : Queue) (taskId : string) : Result Task * Queue :=
  match failed q !! taskId with
  | None => (Throw NotFound, q)
  | Some failedTask =>
      let task := entry_task failedTask in
      let task :=
        update task queued (startedAt task) (completedAt task) None (result task) None
               (Some (match retryCount task with Some n => n | None => 0 end + 1)) in
      (Ok task,
       {| queue := queue q ++ [task]; processing := processing q;
          completed := completed q; failed := delete taskId (failed q);
          isRunning := isRunning q |})
  end.

(** [clearCompleted()] and [clearFailed()] *)
Definition clearCompleted (q : Queue) : nat * Queue :=
  (size (completed q),
   {| queue := queue q; processing := processing q; completed := ∅;
      failed := failed q; isRunning := isRunning q |}).

Definition clearFailed (q : Queue) : nat * Queue :=
  (size (failed q),
   {| queue := queue q; processing := processing q; completed := completed q;
      failed := ∅; isRunning := isRunning q |}).

(** One transition of the queue: a call of a method, an iteration of the
    dispatch loop, or the settlement of a running task. *)
Inductive Op : Type :=
| OpStart
| OpStop
| OpAddTask (uuid : string) (now : nat) (d : TaskData)
| OpIteration
| OpResolved (task : Task) (res : string) (now : nat)
| OpRejected (task : Task) (msg : string) (now : nat)
| OpCancelTask (taskId : string)
| OpRetryTask (taskId : string)
| OpClearCompleted
| OpClearFailed.

Definition step (q : Queue) (o : Op) : Queue :=
  match o with
  | OpStart => set_running q true
  | OpStop => set_running q false
  | OpAddTask uuid now d => snd (addTask q uuid now d)
  | OpIteration => snd (processQueue_iteration q)
  | OpResolved t res now => processTask_resolved q t res now
  | OpRejected t msg now => processTask_rejected q t msg now
  | OpCancelTask i => snd (cancelTask q i)
  | OpRetryTask i => snd (retryTask q i)
  | OpClearCompleted => snd (clearCompleted q)
  | OpClearFailed => snd (clearFailed q)
  end.

Definition run (ops : list Op) (q : Queue) : Queue := fold_left step ops q.

(** What [getTaskStatus] returns for a task it finds: the task with the
    status of the collection it is in, or, for a running task, its id and
    the status [processing] only. *)
Inductive TaskView : Type :=
| FullView (t : Task)
| RunningView (taskId : string).

(** [getTaskStatus(taskId)]; [None] is [null]. *)
Definition getTaskStatus (q : Queue) (taskId : string) : option TaskView :=
  match List.find (fun task => String.eqb (id task) taskId) (queue q) with
  | Some queuedTask => Some (FullView (with_status queuedTask queued))
  | None =>
      if decide (taskId ∈ processing q) then Some (RunningView taskId)
      else
        match completed q !! taskId with
        | Some completedTask => Some (FullView (with_status completedTask completed_))
        | None =>
            match failed q !! taskId with
            | Some failedTask => Some (FullView (with_status (entry_task failedTask) failed_))
            | None => None
            end
        end
  end.

(** What [getQueueStats] returns, without [uptime]. *)
Record QueueStats : Type := {
  queueLength : nat;
  processingCount : nat;
  completedCount : nat;
  failedCount : nat;
  stats_isRunning : bool
}.

(** [getQueueStats()] *)
Definition getQueueStats (q : Queue) : QueueStats :=
  {| queueLength := length (queue q);
     processingCount := size (processing q);
     completedCount := size (completed q);
     failedCount := size (failed q);
     stats_isRunning := isRunning q |}.

End TaskQueue.

(** * The vocabulary of the specification *)

Module Spec.
Import AgentManager.

(** ** The invariant of one agent *)

(** Capacity: [0 <= currentTasks <= maxConcurrentTasks]. *)
Definition capacity_ok (a : Agent) : Prop :=
  0 <= currentTasks a /\ (inject_Z (currentTasks a) <= maxConcurrentTasks a)%Q.

(** The capacity is a count: its value is a non-negative integer. *)
Definition capacity_is_count (a : Agent) : Prop :=
  exists n : Z, 0 <= n /\ (maxConcurrentTasks a == inject_Z n)%Q.

(** What the reservations and releases maintain whatever the capacity is:
    the load is not negative, and it is either [0] or was reached by a
    reservation made below the capacity. *)
Definition load_ok (a : Agent) : Prop :=
  0 <= currentTasks a
  /\ (currentTasks a = 0 \/ (inject_Z (currentTasks a) < maxConcurrentTasks a + 1)%Q).

(** Statistics: the counters are consistent and [successRate] is the
    quotient the last release computed, or the initial [0]. *)
Definition rate_ok (p : Performance) : Prop :=
  (totalTasks p > 0 -> successRate p = (inject_Z (completedTasks p) / inject_Z (totalTasks p))%Q)
  /\ (totalTasks p = 0 -> successRate p = 0%Q).

Definition counters_ok (p : Performance) : Prop :=
  0 <= completedTasks p /\ 0 <= failedTasks p
  /\ totalTasks p = completedTasks p + failedTasks p.

Definition agent_ok (a : Agent) : Prop :=
  load_ok a /\ counters_ok (performance a) /\ rate_ok (performance a).

(** [devin]-like registrations whose configured capacity is not a count. *)
Definition withCapacity (n : string) (c : Q) : AgentData :=
  {| data_name := n; data_type := "ai_builder"; data_capabilities := None;
     data_configuration :=
       Some {| api_endpoint := None; max_concurrent_tasks := Some c;
               preferred_languages := None; specializations := None |} |}.

(** An agent registered with capacity [-1], and one registered with
    capacity [1/2] that has taken one task. *)
Definition negativeCapacity : Registry :=
  run [OpRegister "id-1" 0%nat (withCapacity "minus" (-1))] newManager.

Definition halfCapacity : Registry :=
  run [OpRegister "id-1" 0%nat (withCapacity "half" (1 # 2));
       OpAssign "half" "t1" 1%nat] newManager.

(** The fields of an agent that a reservation does not write. *)
Definition same_but_load (a a' : Agent) : Prop :=
  id a' = id a /\ name a' = name a /\ type a' = type a /\ status a' = status a
  /\ capabilities a' = capabilities a /\ configuration a' = configuration a
  /\ maxConcurrentTasks a' = maxConcurrentTasks a
  /\ performance a' = performance a /\ createdAt a' = createdAt a.


(** ** Capability extraction, as the specification words it *)

(** The rule table: the triggers of a row and the capabilities it adds. *)
Definition rule_table : list (list string * list string) :=
  [ (["build"; "compile"], ["code_generation"; "testing"]);
    (["test"], ["testing"]);
    (["deploy"], ["deployment"]);
    (["debug"; "fix"], ["debugging"]);
    (["refactor"; "optimize"], ["refactoring"]);
    (["document"; "readme"], ["documentation"]);
    (["architecture"; "design"], ["architecture_design"]);
    (["review"; "analyze"], ["code_review"; "analysis"]) ].

(** A row matches when one of its triggers occurs in the lower-cased
    description. *)
Definition row_matches (description : string) (row : list string * list string) : bool :=
  existsb (JS.includes (JS.toLowerCase description)) (fst row).

(** The capabilities of the matching rows, row after row. *)
Definition matched_capabilities (description : string) : list string :=
  flat_map snd (List.filter (row_matches description) rule_table).

Definition default_capabilities : list string := ["code_generation"; "problem_solving"].

(** The union of the matching rows, or the default when no row matches;
    as a list it may repeat a capability. *)
Definition required_union (description : string) : list string :=
  if existsb (row_matches description) rule_table
  then matched_capabilities description
  else default_capabilities.

(** [l] is the required capability set of the specification: a set, that
    is without duplicates, whose elements are those of the union. *)
Definition is_required_set (description : string) (l : list string) : Prop :=
  NoDup l /\ forall c, In c l <-> In c (required_union description).

(** ** The score, as the specification words it *)

(** The required capability set of the specification. *)
Definition required_set (description : string) : gset string :=
  list_to_set (required_union description).

Definition as_set (l : option (list string)) : gset string :=
  match l with Some l => list_to_set l | None => ∅ end.

(** [successRate*100 + (|matching capabilities| / |required
    capabilities|)*50 + (|matching preferred languages| / max(1, |context
    tech stack|))*30 + 20 if the classified task domain is in the agent's
    specializations - (currentTasks / maxConcurrentTasks)*20], the
    capabilities being sets and the terms being added from left to right
    in JS numbers. *)
Definition spec_score (task : string) (context : ProjectContext) (a : Agent) : JS.number :=
  let required := required_set task in
  let matching := required ∩ list_to_set (capabilities a) in
  let stack := match technology_stack context with Some l => l | None => [] end in
  let languages :=
    List.filter (fun lang => bool_decide (lang ∈ as_set (preferred_languages (configuration a))))
                stack in
  let count (n : nat) := JS.ofZ (Z.of_nat n) in
  let s := JS.mul (JS.ofQ (successRate (performance a))) (JS.ofZ 100) in
  let s := JS.add s (JS.mul (JS.div (count (size matching)) (count (size required)))
                            (JS.ofZ 50)) in
  let s := JS.add s (JS.mul (JS.div (count (length languages))
                                    (JS.ofZ (Z.max 1 (Z.of_nat (length stack)))))
                            (JS.ofZ 30)) in
  let s :=
    if bool_decide (determineTaskType task ∈ as_set (specializations (configuration a)))
    then JS.add s (JS.ofZ 20) else s in
  JS.sub s (JS.mul (JS.div (JS.ofZ (currentTasks a)) (JS.ofQ (maxConcurrentTasks a)))
                   (JS.ofZ 20)).

(** The same formula in exact arithmetic. *)
Definition exact_score (task : string) (context : ProjectContext) (a : Agent) : Q :=
  let required := required_set task in
  let matching := required ∩ list_to_set (capabilities a) in
  let stack := match technology_stack context with Some l => l | None => [] end in
  let languages :=
    List.filter (fun lang => bool_decide (lang ∈ as_set (preferred_languages (configuration a))))
                stack in
  let count (n : nat) := inject_Z (Z.of_nat n) in
  (successRate (performance a) * 100
   + count (size matching) / count (size required) * 50
   + count (length languages) / inject_Z (Z.max 1 (Z.of_nat (length stack))) * 30
   + (if bool_decide (determineTaskType task ∈ as_set (specializations (configuration a)))
      then 20 else 0)
   - inject_Z (currentTasks a) / maxConcurrentTasks a * 20)%Q.

(** A number that is not negative, [-0] included among the negative. *)
Definition not_negative (x : JS.number) : Prop :=
  match x with
  | S754_zero s | S754_infinity s | S754_finite s _ _ => s = false
  | S754_nan => True
  end.

(** The context a call of [selectBestAgent] works with. *)
Definition context_of (c : Passed ProjectContext) : ProjectContext :=
  match c with Given c => c | _ => emptyContext end.

(** ** Example registries *)

Definition exampleConfiguration : Configuration :=
  {| api_endpoint := None; max_concurrent_tasks := Some 5%Q;
     preferred_languages := Some ["javascript"; "typescript"];
     specializations := Some ["web_development"] |}.

Definition exampleAgent (n : string) : AgentData :=
  {| data_name := n; data_type := "ai_assistant";
     data_capabilities := Some ["code_generation"; "testing"];
     data_configuration := Some exampleConfiguration |}.

(** [n] takes and finishes one task per element of [outcomes]. *)
Definition work (n : string) (outcomes : list bool) : list Op :=
  flat_map (fun s => [OpAssign n "task" 1%nat; OpRelease n "task" s 2%nat]) outcomes.

(** ["half"] is registered first and ends at 1/2, ["nine"] at 9/10,
    ["fifth"] at 1/5. *)
Definition threeAgents : Registry :=
  run ([OpRegister "id-1" 0%nat (exampleAgent "half");
        OpRegister "id-2" 0%nat (exampleAgent "nine");
        OpRegister "id-3" 0%nat (exampleAgent "fifth")]
       ++ work "half" [true; false]
       ++ work "nine" [true; true; true; false; true; true; true; true; true; true]
       ++ work "fifth" [false; false; true; false; false])
      newManager.

(** Two agents with equal scores: the one registered first is ["first"]. *)
Definition twoEqualAgents : Registry :=
  run [OpRegister "id-1" 0%nat (exampleAgent "first");
       OpRegister "id-2" 0%nat (exampleAgent "second")] newManager.

(** The capabilities of [exampleAgent], and no configuration. *)
Definition plainAgent (n : string) : AgentData :=
  {| data_name := n; data_type := "ai_assistant";
     data_capabilities := Some ["code_generation"; "testing"];
     data_configuration := None |}.

(** Three agents with the same capabilities: ["nine"] ends at 9/10,
    ["half"] at 1/2 and ["fifth"] at 1/5; only ["half"] has a
    configuration. *)
Definition sameSkills : Registry :=
  run ([OpRegister "id-1" 0%nat (plainAgent "nine");
        OpRegister "id-2" 0%nat (exampleAgent "half");
        OpRegister "id-3" 0%nat (plainAgent "fifth")]
       ++ work "nine" [true; true; true; false; true; true; true; true; true; true]
       ++ work "half" [true; false]
       ++ work "fifth" [false; false; true; false; false])
      newManager.

Definition webContext : ProjectContext :=
  {| technology_stack := Some ["javascript"; "typescript"]; priority := None |}.

(** Two agents without history: ["coder"] generates code, ["tester"]
    tests. *)
Definition oneSkill (n cap : string) : AgentData :=
  {| data_name := n; data_type := "ai_assistant"; data_capabilities := Some [cap];
     data_configuration := None |}.

Definition twoSkills : Registry :=
  run [OpRegister "id-1" 0%nat (oneSkill "coder" "code_generation");
       OpRegister "id-2" 0%nat (oneSkill "tester" "testing")] newManager.

(** ["third"] tests and ends at 1/3; ["sixths"] does not test and ends at
    5/6. *)
Definition roundedTie : Registry :=
  run ([OpRegister "id-1" 0%nat (oneSkill "third" "testing");
        OpRegister "id-2" 0%nat (oneSkill "sixths" "documentation")]
       ++ work "third" [true; false; false]
       ++ work "sixths" [true; true; true; true; true; false])
      newManager.

(** [devin] as [registerDefaultAgents] registers it. *)
Definition devin : AgentData :=
  {| data_name := "devin"; data_type := "ai_builder";
     data_capabilities :=
       Some ["full_stack_development"; "code_generation"; "testing"; "debugging";
             "deployment"; "documentation"; "refactoring"; "architecture_design"];
     data_configuration :=
       Some {| api_endpoint := Some "https://api.devin.ai";
               max_concurrent_tasks := Some 3%Q;
               preferred_languages :=
                 Some ["javascript"; "typescript"; "python"; "go"; "rust"];
               specializations :=
                 Some ["web_development"; "api_development"; "microservices"] |} |}.

Definition devinOnly : Registry :=
  run [OpRegister "id-devin" 0%nat devin] newManager.

(** [devin] with all three of its slots taken. *)
Definition devinFull : Registry :=
  run [OpAssign "devin" "t1" 1%nat; OpAssign "devin" "t2" 1%nat;
       OpAssign "devin" "t3" 1%nat] devinOnly.

(** ** Releases of one execution *)

Import OrchestrationService.

(** [executeTaskWithAgent] run on the registry [m], with no event yet. *)
Definition execute (ex : Executors) (db : Database) (m : Registry)
    (agent : Agent) (taskId : string) (taskArgs : TaskArgs) (now : nat)
  : Result ExecResult * State :=
  executeTaskWithAgent ex db agent taskId taskArgs now {| registry := m; events := [] |}.

(** The [success] flags of the releases the execution made for its agent
    and task, in order. *)
Definition released (ex : Executors) (db : Database) (m : Registry)
    (agent : Agent) (taskId : string) (taskArgs : TaskArgs) (now : nat) : list bool :=
  releases (name agent) taskId (events (snd (execute ex db m agent taskId taskArgs now))).

(** The executor returned a result. *)
Definition succeeded {A : Type} (r : Result A) : bool :=
  match r with Ok _ => true | Throw _ => false end.

(** The store resolves every call this method makes. *)
Definition resolves (db : Database) : Prop :=
  forall t s, updateTaskStatus db t s = None /\ logTaskExecution db t s = None.

(** Executors that all return, and executors that all throw. *)
Definition returning : Executors :=
  {| executeWithAIBuilder := fun _ _ => Ok "done";
     executeWithAIEditor := fun _ _ => Ok "done";
     executeWithAIAssistant := fun _ _ => Ok "done";
     executeWithAICopilot := fun _ _ => Ok "done";
     executeWithGenericAgent := fun _ _ => Ok "done" |}.

Definition throwing : Executors :=
  {| executeWithAIBuilder := fun _ _ => Throw (ExecutionError "boom");
     executeWithAIEditor := fun _ _ => Throw (ExecutionError "boom");
     executeWithAIAssistant := fun _ _ => Throw (ExecutionError "boom");
     executeWithAICopilot := fun _ _ => Throw (ExecutionError "boom");
     executeWithGenericAgent := fun _ _ => Throw (ExecutionError "boom") |}.

(** A store that resolves everything; one whose [logTaskExecution]
    rejects; one whose [updateTaskStatus] rejects. *)
Definition healthyStore : Database :=
  {| updateTaskStatus := fun _ _ => None; logTaskExecution := fun _ _ => None |}.

Definition logRejectingStore : Database :=
  {| updateTaskStatus := fun _ _ => None;
     logTaskExecution := fun _ _ => Some "SQLITE_BUSY" |}.

Definition statusRejectingStore : Database :=
  {| updateTaskStatus := fun _ _ => Some "no such column: updated_at";
     logTaskExecution := fun _ _ => None |}.

Definition exampleArgs : TaskArgs :=
  {| task := "build the login page"; project_context := Undefined; preferred_agent := None |}.

(** [devin] holding the reservations of two tasks, ["t1"] and ["t2"]. *)
Definition devinTwoTasks : Registry :=
  run [OpAssign "devin" "t1" 1%nat; OpAssign "devin" "t2" 1%nat] devinOnly.

Definition devinAgent : Agent :=
  match get devinTwoTasks "devin" with
  | Some a => a
  | None => fst (registerAgent newManager "id-devin" 0%nat devin)
  end.

(** [currentTasks], [totalTasks], [completedTasks] and [failedTasks] of
    the agent [n], when it is registered. *)
Definition counters (m : Registry) (n : string) : option (Z * Z * Z * Z) :=
  match get m n with
  | Some a =>
      Some (currentTasks a, totalTasks (performance a),
            completedTasks (performance a), failedTasks (performance a))
  | None => None
  end.

(** ** The dispatch loop, as the specification words it *)

Definition rank (t : TaskQueue.Task) : Z := TaskQueue.priorityOrder (TaskQueue.priority t).

Definition has_priority (p : TaskQueue.Priority) (t : TaskQueue.Task) : bool :=
  match p, TaskQueue.priority t with
  | TaskQueue.urgent, TaskQueue.urgent
  | TaskQueue.high, TaskQueue.high
  | TaskQueue.medium, TaskQueue.medium
  | TaskQueue.low, TaskQueue.low => true
  | _, _ => false
  end.

(** Where a loop "while running < maxConcurrency and the queue is not
    empty" stops: the queue is drained or the cap is reached. *)
Definition drained_or_full (q : TaskQueue.Queue) : Prop :=
  TaskQueue.queue q = []
  \/ (TaskQueue.maxConcurrency <= size (TaskQueue.processing q))%nat.

(** The fields of the queue object other than [queue]. *)
Definition same_but_queue (q q' : TaskQueue.Queue) : Prop :=
  TaskQueue.processing q' = TaskQueue.processing q
  /\ TaskQueue.completed q' = TaskQueue.completed q
  /\ TaskQueue.failed q' = TaskQueue.failed q
  /\ TaskQueue.isRunning q' = TaskQueue.isRunning q.

(** The fields of a task that neither a cancellation nor a retry writes. *)
Definition same_task_but_state (t t' : TaskQueue.Task) : Prop :=
  TaskQueue.id t' = TaskQueue.id t
  /\ TaskQueue.type t' = TaskQueue.type t
  /\ TaskQueue.description t' = TaskQueue.description t
  /\ TaskQueue.createdAt t' = TaskQueue.createdAt t
  /\ TaskQueue.priority t' = TaskQueue.priority t
  /\ TaskQueue.startedAt t' = TaskQueue.startedAt t
  /\ TaskQueue.completedAt t' = TaskQueue.completedAt t
  /\ TaskQueue.result t' = TaskQueue.result t.

(** [task.retryCount || 0] *)
Definition retries (t : TaskQueue.Task) : Z :=
  match TaskQueue.retryCount t with Some n => n | None => 0 end.

(** ** Example queues *)

Definition taskData (p : option TaskQueue.Priority) : TaskQueue.TaskData :=
  {| TaskQueue.data_id := None;
     TaskQueue.data_type := "build"; TaskQueue.data_description := "build the login page";
     TaskQueue.data_priority := p;
     TaskQueue.data_startedAt := None; TaskQueue.data_completedAt := None;
     TaskQueue.data_failedAt := None; TaskQueue.data_result := None;
     TaskQueue.data_error := None; TaskQueue.data_retryCount := None |}.

(** A [medium] task ["m"], then an [urgent] task ["u"]. *)
Definition mediumThenUrgent : TaskQueue.Queue :=
  TaskQueue.run [TaskQueue.OpStart;
                 TaskQueue.OpAddTask "m" 1%nat (taskData None);
                 TaskQueue.OpAddTask "u" 2%nat (taskData (Some TaskQueue.urgent))]
                TaskQueue.newQueue.

(** ["m"] was dispatched and is running; ["u"] is still queued. *)
Definition oneRunning : TaskQueue.Queue :=
  TaskQueue.run [TaskQueue.OpStart;
                 TaskQueue.OpAddTask "m" 1%nat (taskData None);
                 TaskQueue.OpIteration;
                 TaskQueue.OpAddTask "u" 2%nat (taskData (Some TaskQueue.urgent))]
                TaskQueue.newQueue.

(** ["m"] was dispatched and its execution was rejected. *)
Definition oneFailed : TaskQueue.Queue :=
  match TaskQueue.processQueue_iteration
          (TaskQueue.run [TaskQueue.OpStart;
                          TaskQueue.OpAddTask "m" 1%nat (taskData (Some TaskQueue.high))]
                         TaskQueue.newQueue) with
  | (Some t, q) =>
      TaskQueue.processTask_rejected q (TaskQueue.processTask_start t 2%nat) "boom" 3%nat
  | (None, q) => q
  end.

(** The entry of ["m"] in the failed map of [oneFailed]. *)
Definition failedEntry : TaskQueue.FailedEntry :=
  {| TaskQueue.entry_task :=
       {| TaskQueue.id := "m"; TaskQueue.type := "build";
          TaskQueue.description := "build the login page";
          TaskQueue.status := TaskQueue.failed_; TaskQueue.createdAt := 1%nat;
          TaskQueue.priority := TaskQueue.high;
          TaskQueue.startedAt := Some 2%nat; TaskQueue.completedAt := None;
          TaskQueue.failedAt := Some 3%nat; TaskQueue.result := None;
          TaskQueue.error := Some "boom"; TaskQueue.retryCount := None |};
     TaskQueue.entry_error := "boom" |}.

(** ** More vocabulary for the registry *)

(** The keys of the registry are distinct and each is the name of its
    agent. *)
Definition keyed (m : Registry) : Prop :=
  NoDup (map fst m) /\ Forall (fun e : string * Agent => name (snd e) = fst e) m.

(** [k] calls of [assignTaskToAgent] for the agent [n], one after the
    other: how many returned, and the registry after the last. *)
Fixpoint reserve_n (k : nat) (m : Registry) (n : string) (now : nat) : nat * Registry :=
  match k with
  | O => (O, m)
  | S k' =>
      match assignTaskToAgent m n "task" now with
      | (Ok _, m') => let (c, m'') := reserve_n k' m' n now in (S c, m'')
      | (Throw _, m') => reserve_n k' m' n now
      end
  end.

(** The [max_concurrent_tasks] a registration configures. *)
Definition configured_capacity (d : AgentData) : option Q :=
  match data_configuration d with
  | Some c => max_concurrent_tasks c
  | None => None
  end.

(** The number of tasks an agent can still take: of integers [j >= 0] with
    [currentTasks + j < maxConcurrentTasks]. *)
Definition free_slots (a : Agent) : Z :=
  Z.max 0 (Qceiling (maxConcurrentTasks a - inject_Z (currentTasks a))).

(** The counters of a fresh registration. *)
Definition noHistory : Performance :=
  {| totalTasks := 0; completedTasks := 0; failedTasks := 0;
     averageExecutionTime := 0; successRate := 0%Q |}.

(** Everything [selectBestAgent] reads of an agent is the same in [a] and
    [b]; [id], [type], [lastHeartbeat] and [createdAt] may differ. *)
Definition same_for_selection (a b : Agent) : Prop :=
  name b = name a /\ status b = status a /\ capabilities b = capabilities a
  /\ configuration b = configuration a /\ currentTasks b = currentTasks a
  /\ maxConcurrentTasks b = maxConcurrentTasks a /\ performance b = performance a.

(** Two outcomes of a selection that agree up to [same_for_selection]. *)
Definition same_selection (r r' : Result Agent) : Prop :=
  match r, r' with
  | Ok a, Ok b => same_for_selection a b
  | Throw e, Throw e' => e = e'
  | _, _ => False
  end.

(** The domain table of [determineTaskType]: triggers and domain, in the
    order they are tried. *)
Definition domain_table : list (list string * string) :=
  [ (["web"; "frontend"; "react"; "vue"], "web_development");
    (["api"; "backend"; "server"], "api_development");
    (["microservice"; "service"], "microservices");
    (["mobile"; "app"], "mobile_development");
    (["data"; "ml"; "ai"], "data_science") ].

(** The domain of the first row of [table] one of whose triggers occurs in
    the lower-cased description. *)
Fixpoint first_domain (description : string) (table : list (list string * string))
  : option string :=
  match table with
  | [] => None
  | (triggers, domain) :: table' =>
      if existsb (JS.includes (JS.toLowerCase description)) triggers then Some domain
      else first_domain description table'
  end.

(** A new configuration that raises [max_concurrent_tasks] to 10. *)
Definition raiseCap : Configuration :=
  {| api_endpoint := None; max_concurrent_tasks := Some 10%Q;
     preferred_languages := None; specializations := None |}.

(** [devin] as registered, idle; and with its three slots taken, as it is
    in [devinFull]. *)
Definition devinIdle : Agent := fst (registerAgent newManager "id-devin" 0%nat devin).

Definition devinBusy : Agent :=
  match get devinFull "devin" with
  | Some a => a
  | None => devinIdle
  end.

(** ** More vocabulary for the orchestration service *)

(** The agent [delegateToAIBuilder] works with: the preferred agent when
    one is named, the selected agent otherwise. *)
Definition chosen (args : DelegateArgs) (m : Registry) (t : string) : Result Agent :=
  match prefers (arg_preferred_agent args) with
  | Some n =>
      match getAgentByName m n with
      | Some a => Ok a
      | None => Throw NotFound
      end
  | None => selectBestAgent m t (arg_project_context args)
  end.

(** The row the method inserts for the task [t] given to the agent [a]. *)
Definition rowOf (uuid : string) (args : DelegateArgs) (t : string) (a : Agent) : TaskRow :=
  {| row_task_id := uuid;
     row_agent_id := id a;
     row_task_type := OrchestrationService.determineTaskType t;
     row_task_description := t;
     row_priority := priorityOf (arg_project_context args) |}.

(** The arguments as the executor gets them. *)
Definition argsOf (args : DelegateArgs) (t : string) : TaskArgs :=
  {| task := t;
     project_context := arg_project_context args;
     preferred_agent := arg_preferred_agent args |}.

(** Every call on the store resolves. *)
Definition store_resolves (store : TaskStore) : Prop :=
  (forall row, createTask store row = None) /\ resolves (database store).

(** A world whose registry is [m], with the events [ev] and the task rows
    [rows]. *)
Definition worldOf (m : Registry) (ev : list Event) (rows : list TaskRow) : World :=
  {| service := {| registry := m; events := ev |}; taskTable := rows |}.

(** A store that resolves every call, and one whose [updateTaskStatus]
    rejects the status [in_progress] only. *)
Definition healthyTaskStore : TaskStore :=
  {| createTask := fun _ => None; database := healthyStore |}.

Definition inProgressRejectingStore : TaskStore :=
  {| createTask := fun _ => None;
     database :=
       {| updateTaskStatus :=
            fun _ s => if String.eqb s "in_progress" then Some "SQLITE_BUSY" else None;
          logTaskExecution := fun _ _ => None |} |}.

(** A request for any agent, and one for [devin] by name. *)
Definition autoRequest : DelegateArgs :=
  {| arg_task := Some "build the login page"; arg_project_context := Undefined;
     arg_preferred_agent := None |}.

Definition devinRequest : DelegateArgs :=
  {| arg_task := Some "build the login page"; arg_project_context := Undefined;
     arg_preferred_agent := Some "devin" |}.

(** The operations that built [devinTwoTasks], [devinFull] and
    [devinOnly]. *)
Definition devinOnlyOps : list Op := [OpRegister "id-devin" 0%nat devin].

Definition devinTwoTasksOps : list Op :=
  devinOnlyOps ++ [OpAssign "devin" "t1" 1%nat; OpAssign "devin" "t2" 1%nat].

Definition devinFullOps : list Op :=
  devinOnlyOps ++ [OpAssign "devin" "t1" 1%nat; OpAssign "devin" "t2" 1%nat;
                   OpAssign "devin" "t3" 1%nat].


Definition idleMessage : MessageData :=
  {| message := None; text := Some "hello there" |}.

(** ** More vocabulary for the task queue *)

(** The id is the id of a task the queue object holds, in the queue, in
    the running set or in one of the two maps. *)
Definition tracked (q : TaskQueue.Queue) (i : string) : Prop :=
  In i (map TaskQueue.id (TaskQueue.queue q))
  \/ i ∈ TaskQueue.processing q
  \/ is_Some (TaskQueue.completed q !! i)
  \/ is_Some (TaskQueue.failed q !! i).

(** A transition the program can make in the state [q]: the id a new
    task gets, the one its [taskData] carries or else the one [uuidv4]
    draws, is not in use, and only a task that is running settles. *)
Definition admissible (q : TaskQueue.Queue) (o : TaskQueue.Op) : Prop :=
  match o with
  | TaskQueue.OpAddTask uuid now d =>
      ~ tracked q (TaskQueue.id (fst (TaskQueue.addTask q uuid now d)))
  | TaskQueue.OpResolved t _ _ => TaskQueue.id t ∈ TaskQueue.processing q
  | TaskQueue.OpRejected t _ _ => TaskQueue.id t ∈ TaskQueue.processing q
  | _ => True
  end.

(** Every transition of the sequence is admissible where it is made. *)
Fixpoint admissible_run (ops : list TaskQueue.Op) (q : TaskQueue.Queue) : Prop :=
  match ops with
  | [] => True
  | o :: ops' => admissible q o /\ admissible_run ops' (TaskQueue.step q o)
  end.

(** Each task is in one place: the ids of the queue are distinct, no id
    is in two of the four collections, and the maps are keyed by the id of
    the task they hold. *)
Definition tracked_once (q : TaskQueue.Queue) : Prop :=
  NoDup (map TaskQueue.id (TaskQueue.queue q))
  /\ (forall t, In t (TaskQueue.queue q) ->
        (TaskQueue.id t ∉ TaskQueue.processing q)
        /\ TaskQueue.completed q !! TaskQueue.id t = None
        /\ TaskQueue.failed q !! TaskQueue.id t = None)
  /\ (forall i, i ∈ TaskQueue.processing q ->
        TaskQueue.completed q !! i = None /\ TaskQueue.failed q !! i = None)
  /\ (forall i, is_Some (TaskQueue.completed q !! i) -> TaskQueue.failed q !! i = None)
  /\ (forall i e, TaskQueue.failed q !! i = Some e ->
        TaskQueue.id (TaskQueue.entry_task e) = i).

(** [k] iterations of the dispatch loop, nothing else happening in
    between: the tasks started, in order, and the queue object after. *)
Fixpoint dispatch_n (k : nat) (q : TaskQueue.Queue) : list TaskQueue.Task * TaskQueue.Queue :=
  match k with
  | O => ([], q)
  | S k' =>
      match TaskQueue.processQueue_iteration q with
      | (Some t, q') => let (ts, q'') := dispatch_n k' q' in (t :: ts, q'')
      | (None, q') => dispatch_n k' q'
      end
  end.

(** The status a view shows. *)
Definition view_status (v : TaskQueue.TaskView) : TaskQueue.Status :=
  match v with
  | TaskQueue.FullView t => TaskQueue.status t
  | TaskQueue.RunningView _ => TaskQueue.processing_
  end.

(** A low, an urgent, a medium and a second urgent task, added in this
    order. *)
Definition fourQueued : TaskQueue.Queue :=
  TaskQueue.run [TaskQueue.OpStart;
                 TaskQueue.OpAddTask "l" 1%nat (taskData (Some TaskQueue.low));
                 TaskQueue.OpAddTask "u1" 2%nat (taskData (Some TaskQueue.urgent));
                 TaskQueue.OpAddTask "m" 3%nat (taskData None);
                 TaskQueue.OpAddTask "u2" 4%nat (taskData (Some TaskQueue.urgent))]
                TaskQueue.newQueue.

(** The transitions that built [oneRunning]. *)
Definition oneRunningOps : list TaskQueue.Op :=
  [TaskQueue.OpStart;
   TaskQueue.OpAddTask "m" 1%nat (taskData None);
   TaskQueue.OpIteration;
   TaskQueue.OpAddTask "u" 2%nat (taskData (Some TaskQueue.urgent))].

(** The task ["m"] of [oneRunning], as [processTask] has started it. *)
Definition runningM : TaskQueue.Task :=
  TaskQueue.processTask_start
    (fst (TaskQueue.addTask TaskQueue.newQueue "m" 1%nat (taskData None))) 2%nat.

(** The transitions of [oneRunning], then ["m"] completes. *)
Definition oneCompletedOps : list TaskQueue.Op :=
  oneRunningOps ++ [TaskQueue.OpResolved runningM "done" 3%nat].

(** Ten tasks added and started, then a low and an urgent task added. *)
Definition tenRunningOps : list TaskQueue.Op :=
  TaskQueue.OpStart
  :: flat_map (fun i => [TaskQueue.OpAddTask i 1%nat (taskData None); TaskQueue.OpIteration])
       ["a"; "b"; "c"; "d"; "e"; "f"; "g"; "h"; "i"; "j"]
  ++ [TaskQueue.OpAddTask "l" 2%nat (taskData (Some TaskQueue.low));
      TaskQueue.OpAddTask "u" 3%nat (taskData (Some TaskQueue.urgent))].

(** A [taskData] that carries an id and a retry count of its own. *)
Definition ownTask : TaskQueue.TaskData :=
  {| TaskQueue.data_id := Some "mine";
     TaskQueue.data_type := "build"; TaskQueue.data_description := "build the login page";
     TaskQueue.data_priority := None;
     TaskQueue.data_startedAt := None; TaskQueue.data_completedAt := None;
     TaskQueue.data_failedAt := None; TaskQueue.data_result := None;
     TaskQueue.data_error := None; TaskQueue.data_retryCount := Some 7 |}.

End Spec.


(** * Properties of the stable sort *)

Module SortProps.

Section StableSort.
Context {A : Type} (after : A -> A -> bool).

(** The comparator is consistent: "has to come after" is a strict weak
    order. *)
Hypothesis after_irrefl : forall x, after x x = false.
Hypothesis after_trans :
  forall x y z, after x y = true -> after y z = true -> after x z = true.
Hypothesis after_cotrans :
  forall x y z, after x z = true -> after x y = true \/ after y z = true.

Lemma after_asym (x y : A) : after x y = true -> after y x = false.
Proof.
  intros H. destruct (after y x) eqn:E; [|reflexivity].
  rewrite <- (after_irrefl x). symmetry. eapply after_trans; eassumption.
Qed.

Lemma in_order_trans (x y z : A) :
  after x y = false -> after y z = false -> after x z = false.
Proof.
  cbn. intros Hxy Hyz.
  destruct (after x z) eqn:E; [|reflexivity].
  destruct (after_cotrans x y z E); congruence.
Qed.

Lemma sort_insert_perm (x : A) (l : list A) :
  Permutation (JS.sort_insert after x l) (x :: l).
Proof.
  induction l as [|y l IH]; cbn; [reflexivity|].
  destruct (after x y); [|reflexivity].
  rewrite IH. apply perm_swap.
Qed.

Lemma sort_perm (l : list A) : Permutation (JS.sort after l) l.
Proof.
  induction l as [|x l IH]; cbn; [reflexivity|].
  rewrite sort_insert_perm. now constructor.
Qed.

Lemma sort_insert_sorted (x : A) (l : list A) :
  StronglySorted (fun a b => after a b = false) l -> StronglySorted (fun a b => after a b = false) (JS.sort_insert after x l).
Proof.
  induction 1 as [|y l Hs IH Hy]; cbn.
  - constructor; constructor.
  - destruct (after x y) eqn:E.
    + constructor; [exact IH|].
      eapply Permutation_Forall; [symmetry; apply sort_insert_perm|].
      constructor; [apply after_asym, E | exact Hy].
    + constructor; [constructor; assumption|].
      constructor; [exact E|].
      eapply List.Forall_impl; [|exact Hy].
      intros b Hb. eapply in_order_trans; eassumption.
Qed.

Lemma sort_sorted (l : list A) : StronglySorted (fun a b => after a b = false) (JS.sort after l).
Proof.
  induction l as [|x l IH]; cbn; [constructor | now apply sort_insert_sorted].
Qed.

(** Stability: elements none of which has to come after another keep
    their order. *)
Lemma sort_insert_stable (P : A -> bool) (x : A) (l : list A) :
  (forall a b, P a = true -> P b = true -> after a b = false) ->
  List.filter P (JS.sort_insert after x l) = List.filter P (x :: l).
Proof.
  intros HP. induction l as [|y l IH]; [reflexivity|].
  cbn [JS.sort_insert]. destruct (after x y) eqn:E; [|reflexivity].
  cbn [List.filter] in *. rewrite IH.
  destruct (P x) eqn:Px, (P y) eqn:Py; try reflexivity.
  rewrite (HP x y Px Py) in E. discriminate.
Qed.

Lemma sort_stable (P : A -> bool) (l : list A) :
  (forall a b, P a = true -> P b = true -> after a b = false) ->
  List.filter P (JS.sort after l) = List.filter P l.
Proof.
  intros HP. induction l as [|x l IH]; [reflexivity|].
  cbn [JS.sort]. rewrite sort_insert_stable by exact HP.
  cbn [List.filter]. now rewrite IH.
Qed.

(** The head of the sorted array: the first element that no element has
    to come before. *)
Lemma sort_head (l : list A) :
  l <> [] ->
  exists before best rest_before rest,
    l = before ++ best :: rest_before
    /\ JS.sort after l = best :: rest
    /\ Forall (fun b => after b best = true) before
    /\ Forall (fun b => after best b = false) rest_before.
Proof.
  induction l as [|x l IH]; [congruence|]. intros _.
  destruct l as [|y l].
  - exists [], x, [], []. cbn. repeat split; constructor.
  - destruct IH as (before & best & after' & rest & Hl & Hs & Hb & Ha); [discriminate|].
    cbn [JS.sort] in *. rewrite Hs. cbn [JS.sort_insert].
    destruct (after x best) eqn:E.
    + exists (x :: before), best, after', (JS.sort_insert after x rest).
      rewrite Hl. repeat split; [constructor|]; assumption.
    + exists [], x, (y :: l), (best :: rest).
      repeat split; [constructor|].
      rewrite Hl. apply Forall_app. split; [|constructor].
      * eapply List.Forall_impl; [|exact Hb]. intros b Hlt. cbn in Hlt.
        destruct (after x b) eqn:E'; [|reflexivity].
        rewrite (after_trans x b best E' Hlt) in E. discriminate.
      * exact E.
      * eapply List.Forall_impl; [|exact Ha]. intros b Hb'. cbn in Hb'.
        eapply in_order_trans; eassumption.
Qed.
End StableSort.

End SortProps.

(** * Properties of JavaScript numbers *)

Module NumberProps.
Import Spec.

(** ** Digits and shifts *)

Lemma digits2_pos_bounds (m : positive) :
  2 ^ (Zpos (digits2_pos m) - 1) <= Zpos m < 2 ^ Zpos (digits2_pos m).
Proof.
  induction m as [m IH|m IH|]; cbn [digits2_pos].
  - rewrite Pos2Z.inj_succ. change (Zpos m~1) with (2 * Zpos m + 1).
    replace (Z.succ (Zpos (digits2_pos m)) - 1) with (Z.succ (Zpos (digits2_pos m) - 1)) by lia.
    rewrite !Z.pow_succ_r by lia.
    revert IH. generalize (2 ^ (Zpos (digits2_pos m) - 1)), (2 ^ Zpos (digits2_pos m)). intros; lia.
  - rewrite Pos2Z.inj_succ. change (Zpos m~0) with (2 * Zpos m).
    replace (Z.succ (Zpos (digits2_pos m)) - 1) with (Z.succ (Zpos (digits2_pos m) - 1)) by lia.
    rewrite !Z.pow_succ_r by lia.
    revert IH. generalize (2 ^ (Zpos (digits2_pos m) - 1)), (2 ^ Zpos (digits2_pos m)). intros; lia.
  - cbn. lia.
Qed.

Lemma iter_xO (m d : positive) : Zpos (Pos.iter xO m d) = Zpos m * 2 ^ Zpos d.
Proof.
  induction d as [|d IH] using Pos.peano_ind.
  - cbn. lia.
  - rewrite Pos.iter_succ, (Pos2Z.inj_xO (Pos.iter xO m d)), IH, Pos2Z.inj_succ,
      Z.pow_succ_r by lia. lia.
Qed.

Lemma shl_align_value (m : positive) (e e' : Z) :
  e' <= e -> Zpos (fst (shl_align m e e')) = Zpos m * 2 ^ (e - e').
Proof.
  intros Hle. unfold shl_align.
  destruct (e' - e) as [|d|d] eqn:E; cbn [fst].
  - replace (e - e') with 0 by lia. cbn. lia.
  - lia.
  - rewrite iter_xO. f_equal. f_equal. lia.
Qed.

Lemma shl_align_exponent (m : positive) (e e' : Z) :
  snd (shl_align m e e') = Z.min e e'.
Proof.
  unfold shl_align. destruct (e' - e) as [|d|d] eqn:E; cbn [snd]; lia.
Qed.

Lemma shr_1_m (mrs : shr_record) :
  0 <= shr_m mrs -> shr_m (shr_1 mrs) = shr_m mrs / 2.
Proof.
  destruct mrs as [m r s]. cbn [shr_m]. intros Hm.
  rewrite <- Z.div2_div.
  destruct m as [|[p|p|]|p]; cbn; try reflexivity; lia.
Qed.

Lemma iter_shr_1_m (p : positive) (mrs : shr_record) :
  0 <= shr_m mrs -> shr_m (SpecFloat.iter_pos shr_1 p mrs) = shr_m mrs / 2 ^ Zpos p.
Proof.
  revert mrs. induction p as [p IH|p IH|]; intros mrs Hm; cbn [SpecFloat.iter_pos].
  - assert (0 <= shr_m (shr_1 mrs)) as H1
      by (rewrite shr_1_m by assumption; apply Z.div_pos; lia).
    assert (0 <= shr_m (SpecFloat.iter_pos shr_1 p (shr_1 mrs))) as H2
      by (rewrite IH by assumption; apply Z.div_pos; [assumption | apply Z.pow_pos_nonneg; lia]).
    rewrite IH, IH, shr_1_m by assumption.
    rewrite !Z.div_div by (try apply Z.pow_pos_nonneg; lia).
    f_equal. change (Zpos p~1) with (2 * Zpos p + 1).
    replace (2 * Zpos p + 1) with (Z.succ (Zpos p + Zpos p)) by lia.
    rewrite Z.pow_succ_r, Z.pow_add_r by lia. lia.
  - assert (0 <= shr_m (SpecFloat.iter_pos shr_1 p mrs)) as H2
      by (rewrite IH by assumption; apply Z.div_pos; [assumption | apply Z.pow_pos_nonneg; lia]).
    rewrite IH, IH by assumption.
    rewrite !Z.div_div by (try apply Z.pow_pos_nonneg; lia).
    f_equal. change (Zpos p~0) with (2 * Zpos p).
    replace (2 * Zpos p) with (Zpos p + Zpos p) by lia.
    rewrite Z.pow_add_r by lia. lia.
  - rewrite shr_1_m by assumption. reflexivity.
Qed.

(** ** Rounding keeps the sign *)

Lemma shr_fexp_pos (m e : Z) (l : location) :
  0 < m -> -1074 <= e ->
  0 < shr_m (fst (shr_fexp JS.prec JS.emax m e l))
  /\ -1074 <= snd (shr_fexp JS.prec JS.emax m e l).
Proof.
  intros Hm He. unfold shr_fexp, shr.
  assert (shr_m (shr_record_of_loc m l) = m) as Hrec by (destruct l as [|[]]; reflexivity).
  destruct m as [|q|q]; try lia. cbn [Zdigits2].
  pose proof (digits2_pos_bounds q) as Hd.
  destruct (fexp JS.prec JS.emax (Zpos (digits2_pos q) + e) - e) as [|p|p] eqn:E;
    cbn [fst snd]; try (rewrite Hrec; lia).
  rewrite iter_shr_1_m by (rewrite Hrec; lia). rewrite Hrec.
  unfold fexp, emin, JS.prec, JS.emax in E.
  assert (Zpos p <= Zpos (digits2_pos q) - 1) as Hp by lia.
  split; [|lia].
  apply Z.div_str_pos. split; [apply Z.pow_pos_nonneg; lia|].
  apply Z.le_trans with (2 ^ (Zpos (digits2_pos q) - 1)); [|lia].
  apply Z.pow_le_mono_r; lia.
Qed.

Lemma round_nearest_even_pos (m : Z) (l : location) :
  0 < m -> 0 < round_nearest_even m l.
Proof. intros Hm. destruct l as [|[]]; cbn; try destruct (Z.even m); lia. Qed.

(** Rounding a non-zero significand at an exponent that is not below the
    least exponent of the format gives a non-zero number of the same
    sign: no difference of two numbers underflows to zero. *)
Lemma binary_round_aux_sign (s : bool) (m e : Z) (l : location) :
  0 < m -> -1074 <= e ->
  match binary_round_aux JS.prec JS.emax s m e l with
  | S754_finite s' _ _ | S754_infinity s' => s' = s
  | _ => False
  end.
Proof.
  intros Hm He. unfold binary_round_aux.
  destruct (shr_fexp_pos m e l Hm He) as [H1 H1e].
  destruct (shr_fexp JS.prec JS.emax m e l) as [mrs' e'].
  cbn [fst snd] in H1, H1e.
  pose proof (round_nearest_even_pos _ (loc_of_shr_record mrs') H1) as Hr.
  destruct (shr_fexp_pos _ e' loc_Exact Hr H1e) as [H2 _].
  destruct (shr_fexp JS.prec JS.emax _ e' loc_Exact) as [mrs'' e''].
  cbn [fst] in H2.
  destruct (shr_m mrs''); try lia.
  destruct (e'' <=? JS.emax - JS.prec); reflexivity.
Qed.

Lemma binary_round_sign (s : bool) (m : positive) (e : Z) :
  -1074 <= e ->
  match binary_round JS.prec JS.emax s m e with
  | S754_finite s' _ _ | S754_infinity s' => s' = s
  | _ => False
  end.
Proof.
  intros He. unfold binary_round.
  pose proof (shl_align_exponent m e (fexp JS.prec JS.emax (Zpos (digits2_pos m) + e))) as Hs.
  destruct (shl_align m e (fexp JS.prec JS.emax (Zpos (digits2_pos m) + e))) as [mz ez].
  cbn [snd] in Hs. apply binary_round_aux_sign; [lia|].
  unfold fexp, emin, JS.prec, JS.emax in Hs. lia.
Qed.

(** ** Comparison *)

Lemma bounded_exponent (m : positive) (e : Z) :
  bounded JS.prec JS.emax m e = true ->
  -1074 <= e /\ Zpos (digits2_pos m) <= 53
  /\ (-1074 < e -> Zpos (digits2_pos m) = 53).
Proof.
  unfold bounded, canonical_mantissa, fexp, emin, JS.prec, JS.emax.
  intros H. apply andb_true_iff in H. destruct H as [H _].
  apply Z.eqb_eq in H. lia.
Qed.

Lemma canonical_lt (mx my : positive) (ex ey : Z) :
  bounded JS.prec JS.emax mx ex = true -> bounded JS.prec JS.emax my ey = true ->
  ex < ey -> Zpos mx < Zpos my * 2 ^ (ey - ex).
Proof.
  intros Hx Hy Hlt.
  destruct (bounded_exponent _ _ Hx) as (Hex & Hdx & _).
  destruct (bounded_exponent _ _ Hy) as (_ & _ & Hdy).
  specialize (Hdy ltac:(lia)).
  pose proof (digits2_pos_bounds mx) as [_ Hmx].
  pose proof (digits2_pos_bounds my) as [Hmy _].
  rewrite Hdy in Hmy.
  assert (2 ^ Zpos (digits2_pos mx) <= 2 ^ 53) as H1 by (apply Z.pow_le_mono_r; lia).
  assert (2 ^ 1 <= 2 ^ (ey - ex)) as H2 by (apply Z.pow_le_mono_r; lia).
  change (2 ^ 1) with 2 in H2. change (2 ^ (53 - 1)) with 4503599627370496 in Hmy.
  change (2 ^ 53) with 9007199254740992 in H1.
  revert H2. generalize (2 ^ (ey - ex)). intros k Hk. nia.
Qed.

(** On the numbers of the format, [SFcompare] is the comparison of the
    significands aligned at the smaller exponent. *)
Lemma finite_compare (sx sy : bool) (mx my : positive) (ex ey : Z) :
  bounded JS.prec JS.emax mx ex = true -> bounded JS.prec JS.emax my ey = true ->
  SFcompare (S754_finite sx mx ex) (S754_finite sy my ey)
  = Some (cond_Zopp sx (Zpos (fst (shl_align mx ex (Z.min ex ey))))
          ?= cond_Zopp sy (Zpos (fst (shl_align my ey (Z.min ex ey))))).
Proof.
  intros Hx Hy. rewrite !shl_align_value by lia.
  cbn [SFcompare]. destruct (Z.compare_spec ex ey) as [E|E|E].
  - subst ey. rewrite Z.min_id, Z.sub_diag. cbn [Z.pow]. rewrite !Z.mul_1_r.
    destruct sx, sy; reflexivity.
  - pose proof (canonical_lt _ _ _ _ Hx Hy E) as Hlt.
    rewrite Z.min_l by lia. rewrite Z.sub_diag. cbn [Z.pow]. rewrite Z.mul_1_r.
    revert Hlt. generalize (Zpos my * 2 ^ (ey - ex)). intros k Hk.
    destruct sx, sy; cbn [cond_Zopp]; f_equal; symmetry.
    + apply Z.compare_gt_iff. lia.
    + apply Z.compare_lt_iff. lia.
    + apply Z.compare_gt_iff. lia.
    + apply Z.compare_lt_iff. lia.
  - pose proof (canonical_lt _ _ _ _ Hy Hx E) as Hlt.
    rewrite Z.min_r by lia. rewrite Z.sub_diag. cbn [Z.pow]. rewrite Z.mul_1_r.
    revert Hlt. generalize (Zpos mx * 2 ^ (ex - ey)). intros k Hk.
    destruct sx, sy; cbn [cond_Zopp]; f_equal; symmetry.
    + apply Z.compare_lt_iff. lia.
    + apply Z.compare_lt_iff. lia.
    + apply Z.compare_gt_iff. lia.
    + apply Z.compare_gt_iff. lia.
Qed.

(** [b - a > 0] is [a < b]: the comparator of a descending sort by score
    orders two numbers as their values do. *)
Lemma sub_pos_ltb (x y : JS.number) :
  JS.isNumber x = true -> JS.isNumber y = true ->
  JS.ltb (JS.ofZ 0) (JS.sub y x) = JS.ltb x y.
Proof.
  unfold JS.isNumber, JS.ltb, JS.sub, JS.ofZ. cbn [binary_normalize].
  intros Hx Hy. apply andb_true_iff in Hx, Hy. destruct Hx as [Hx Hx'], Hy as [Hy Hy'].
  destruct x as [sx|sx| |sx mx ex]; try discriminate;
    destruct y as [sy|sy| |sy my ey]; try discriminate;
    try (destruct sx, sy; reflexivity); try (destruct sx; reflexivity);
    try (destruct sy; reflexivity).
  cbn [valid_binary] in Hx, Hy.
  unfold SFltb at 2. rewrite (finite_compare _ _ _ _ _ _ Hx Hy).
  cbn [SFsub]. rewrite (Z.min_comm ey ex).
  destruct (bounded_exponent _ _ Hx) as (Hex & _).
  destruct (bounded_exponent _ _ Hy) as (Hey & _).
  generalize (cond_Zopp sx (Zpos (fst (shl_align mx ex (Z.min ex ey))))).
  generalize (cond_Zopp sy (Zpos (fst (shl_align my ey (Z.min ex ey))))).
  intros Y X. unfold binary_normalize.
  destruct (Y - X) as [|d|d] eqn:E.
  - replace X with Y by lia. now rewrite Z.compare_refl.
  - pose proof (binary_round_sign false d (Z.min ex ey) ltac:(lia)) as Hr.
    assert ((X ?= Y) = Lt) as -> by (apply Z.compare_lt_iff; lia).
    destruct (binary_round JS.prec JS.emax false d (Z.min ex ey)) as [s|s| |s m e];
      try contradiction; subst s; reflexivity.
  - pose proof (binary_round_sign true d (Z.min ex ey) ltac:(lia)) as Hr.
    assert ((X ?= Y) = Gt) as -> by (apply Z.compare_gt_iff; lia).
    destruct (binary_round JS.prec JS.emax true d (Z.min ex ey)) as [s|s| |s m e];
      try contradiction; subst s; reflexivity.
Qed.

(** ** The order of numbers *)

Ltac compare_cases :=
  repeat match goal with
    | |- context [Z.compare ?a ?b] => destruct (Z.compare_spec a b)
    | |- context [Pos.compare_cont Eq ?a ?b] =>
        change (Pos.compare_cont Eq a b) with (Pos.compare a b);
        destruct (Pos.compare_spec a b)
    end.

Lemma ltb_false_leb (x y : JS.number) :
  x <> S754_nan -> y <> S754_nan -> JS.ltb x y = false -> JS.leb y x = true.
Proof.
  unfold JS.ltb, JS.leb, SFltb, SFleb.
  destruct x as [sx|sx| |sx mx ex], y as [sy|sy| |sy my ey]; try congruence;
    try destruct sx; try destruct sy; cbn; try congruence;
    compare_cases; cbn; intros; subst; try congruence; lia.
Qed.

Lemma ltb_leb (x y : JS.number) : JS.ltb x y = true -> JS.leb x y = true.
Proof.
  unfold JS.ltb, JS.leb, SFltb, SFleb.
  destruct (SFcompare x y) as [[]|]; congruence.
Qed.

Lemma leb_trans (x y z : JS.number) :
  JS.leb x y = true -> JS.leb y z = true -> JS.leb x z = true.
Proof.
  unfold JS.leb, SFleb.
  destruct x as [sx|sx| |sx mx ex], y as [sy|sy| |sy my ey], z as [sz|sz| |sz mz ez];
    try destruct sx; try destruct sy; try destruct sz; cbn; try congruence;
    compare_cases; cbn; intros; subst; try congruence; lia.
Qed.

Lemma ltb_leb_trans (x y z : JS.number) :
  JS.ltb x y = true -> JS.leb y z = true -> JS.ltb x z = true.
Proof.
  unfold JS.ltb, JS.leb, SFltb, SFleb.
  destruct x as [sx|sx| |sx mx ex], y as [sy|sy| |sy my ey], z as [sz|sz| |sz mz ez];
    try destruct sx; try destruct sy; try destruct sz; cbn; try congruence;
    compare_cases; cbn; intros; subst; try congruence; lia.
Qed.

(** ** Signs *)

Lemma binary_round_aux_shape (s : bool) (m e : Z) (l : location) :
  match binary_round_aux JS.prec JS.emax s m e l with
  | S754_zero s' | S754_infinity s' | S754_finite s' _ _ => s' = s
  | S754_nan => True
  end.
Proof.
  unfold binary_round_aux.
  destruct (shr_fexp JS.prec JS.emax m e l) as [mrs' e'].
  destruct (shr_fexp JS.prec JS.emax _ e' loc_Exact) as [mrs'' e''].
  destruct (shr_m mrs''); [reflexivity| |exact I].
  destruct (e'' <=? JS.emax - JS.prec); reflexivity.
Qed.

Lemma ofZ_not_negative (z : Z) : 0 <= z -> not_negative (JS.ofZ z).
Proof.
  intros Hz. unfold JS.ofZ, binary_normalize.
  destruct z as [|p|p]; [reflexivity| |lia].
  unfold binary_round.
  destruct (shl_align p 0 (fexp JS.prec JS.emax (Zpos (digits2_pos p) + 0))) as [mz ez].
  apply binary_round_aux_shape.
Qed.

Lemma div_not_negative (x y : JS.number) :
  not_negative x -> not_negative y -> not_negative (JS.div x y).
Proof.
  destruct x as [sx|sx| |sx mx ex], y as [sy|sy| |sy my ey]; cbn;
    try (intros -> ->; reflexivity); try (intros; exact I).
  intros -> ->.
  destruct (SFdiv_core_binary JS.prec JS.emax (Zpos mx) ex (Zpos my) ey) as [[mz ez] lz].
  apply binary_round_aux_shape.
Qed.

Lemma mul_not_negative (x y : JS.number) :
  not_negative x -> not_negative y -> not_negative (JS.mul x y).
Proof.
  destruct x as [sx|sx| |sx mx ex], y as [sy|sy| |sy my ey]; cbn;
    try (intros -> ->; reflexivity); try (intros; exact I).
  intros -> ->. apply binary_round_aux_shape.
Qed.

Lemma ofQ_not_negative (q : Q) : (0 <= q)%Q -> not_negative (JS.ofQ q).
Proof.
  intros Hq. unfold JS.ofQ. apply div_not_negative; apply ofZ_not_negative; [|lia].
  unfold Qle in Hq. cbn in Hq. lia.
Qed.

(** [0 + x] is [x], unless [x] is [-0]. *)
Lemma add_zero_l (x : JS.number) : not_negative x -> JS.add (JS.ofZ 0) x = x.
Proof. destruct x as [s|s| |s m e]; cbn; try reflexivity; intros ->; reflexivity. Qed.

End NumberProps.
(** * Properties of the agent registry *)

Module AgentRegistryProps.
Import AgentManager Spec.

(** ** The registry as a map *)

Lemma get_set_same (m : Registry) (n : string) (a : Agent) :
  get (set m n a) n = Some a.
Proof.
  induction m as [|[k b] m IH]; cbn.
  - now rewrite String.eqb_refl.
  - destruct (String.eqb k n) eqn:E; cbn; rewrite E; [reflexivity | exact IH].
Qed.

Lemma get_set_other (m : Registry) (n n' : string) (a : Agent) :
  n <> n' -> get (set m n a) n' = get m n'.
Proof.
  intros Hne. induction m as [|[k b] m IH]; cbn.
  - destruct (String.eqb n n') eqn:E; [|reflexivity].
    apply String.eqb_eq in E. contradiction.
  - destruct (String.eqb k n) eqn:E; cbn.
    + apply String.eqb_eq in E. subst k.
      destruct (String.eqb n n') eqn:E'; [|reflexivity].
      apply String.eqb_eq in E'. contradiction.
    + now rewrite IH.
Qed.

(** A new name goes to the end of the iteration order, a known name
    keeps its place. *)
Lemma set_keys (m : Registry) (n : string) (a : Agent) :
  map fst (set m n a)
  = if existsb (String.eqb n) (map fst m) then map fst m else map fst m ++ [n].
Proof.
  induction m as [|[k b] m IH]; cbn; [reflexivity|].
  rewrite (String.eqb_sym n k).
  destruct (String.eqb k n); cbn; [reflexivity|].
  rewrite IH. now destruct (existsb (String.eqb n) (map fst m)).
Qed.

Lemma get_values (P : Agent -> Prop) (m : Registry) (n : string) (a : Agent) :
  Forall P (values m) -> get m n = Some a -> P a.
Proof.
  induction m as [|[k b] m IH]; cbn; [discriminate|].
  intros HF Hg. inversion HF; subst.
  destruct (String.eqb k n); [injection Hg as <-; assumption | auto].
Qed.

Lemma set_values (P : Agent -> Prop) (m : Registry) (n : string) (a : Agent) :
  Forall P (values m) -> P a -> Forall P (values (set m n a)).
Proof.
  induction m as [|[k b] m IH]; cbn; intros HF Ha.
  - constructor; [assumption | constructor].
  - inversion HF; subst.
    destruct (String.eqb k n); cbn; constructor; auto.
Qed.

(** The two outcomes of [x <= y] on exact numbers. *)
Lemma Qle_bool_cases (x y : Q) :
  (Qle_bool x y = true /\ (x <= y)%Q) \/ (Qle_bool x y = false /\ (y < x)%Q).
Proof.
  destruct (Qle_bool x y) eqn:E.
  - left. split; [reflexivity | now apply Qle_bool_iff].
  - right. split; [reflexivity|]. apply Qnot_le_lt. intros H.
    apply Qle_bool_iff in H. congruence.
Qed.

Lemma Qltb_lt (x y : Q) : JS.Qltb x y = true <-> (x < y)%Q.
Proof.
  unfold JS.Qltb. destruct (Qle_bool_cases y x) as [[-> H]|[-> H]]; cbn.
  - split; [discriminate|]. intros Hlt. exfalso. eapply Qlt_irrefl, Qlt_le_trans; eassumption.
  - split; [intros _; exact H | reflexivity].
Qed.

Lemma inject_Z_succ (z : Z) : (inject_Z (z + 1) == inject_Z z + 1)%Q.
Proof. rewrite inject_Z_plus. reflexivity. Qed.

Lemma recordOutcome_ok (p : Performance) (success : bool) :
  counters_ok p -> counters_ok (recordOutcome p success) /\ rate_ok (recordOutcome p success).
Proof.
  intros (Hc & Hf & Ht). unfold counters_ok, rate_ok, recordOutcome; cbn.
  destruct success; repeat split; try lia; intros; try reflexivity; lia.
Qed.

Lemma step_ok (m : Registry) (o : Op) :
  Forall agent_ok (values m) -> Forall agent_ok (values (step m o)).
Proof.
  intros HF. destruct o as [uuid now d|n t now|n t s now|n now|n c now|n now|n now]; cbn.
  - apply set_values; [assumption|].
    unfold agent_ok, load_ok, counters_ok, rate_ok; cbn.
    repeat split; try lia; intros; try reflexivity; lia.
  - unfold assignTaskToAgent.
    destruct (get m n) as [a|] eqn:Hg; [|assumption].
    destruct (Qle_bool_cases (maxConcurrentTasks a) (inject_Z (currentTasks a)))
      as [[-> Hge]|[-> Hlt]]; [assumption|].
    cbn. apply set_values; [assumption|].
    destruct (get_values _ _ _ _ HF Hg) as ((Hpos & Hload) & Hcnt & Hrate).
    split; [|cbn; auto]. split; cbn; [lia|]. right.
    rewrite inject_Z_succ. lra.
  - unfold releaseTaskFromAgent.
    destruct (get m n) as [a|] eqn:Hg; [|assumption].
    apply set_values; [assumption|].
    destruct (get_values _ _ _ _ HF Hg) as ((Hpos & Hload) & Hcnt & Hrate).
    destruct (recordOutcome_ok (performance a) s Hcnt) as [Hc' Hr'].
    split; [|cbn; auto]. split; cbn; [lia|].
    destruct (Z.max_spec 0 (currentTasks a - 1)) as [[Hlt ->]|[Hge ->]]; [|now left].
    right. destruct Hload as [E|Hload]; [lia|].
    assert (inject_Z (currentTasks a - 1) <= inject_Z (currentTasks a))%Q as Hle
      by (rewrite <- Zle_Qle; lia).
    lra.
  - unfold updateAgentHeartbeat.
    destruct (get m n) as [a|] eqn:Hg; [|assumption].
    apply set_values; [assumption|]. exact (get_values _ _ _ _ HF Hg).
  - unfold updateAgentConfiguration.
    destruct (get m n) as [a|] eqn:Hg; [|assumption].
    cbn. apply set_values; [assumption|]. exact (get_values _ _ _ _ HF Hg).
  - unfold deactivateAgent, setStatus.
    destruct (get m n) as [a|] eqn:Hg; [|assumption].
    cbn. apply set_values; [assumption|]. exact (get_values _ _ _ _ HF Hg).
  - unfold activateAgent, setStatus.
    destruct (get m n) as [a|] eqn:Hg; [|assumption].
    cbn. apply set_values; [assumption|]. exact (get_values _ _ _ _ HF Hg).
Qed.

Lemma run_ok (ops : list Op) (m : Registry) :
  Forall agent_ok (values m) -> Forall agent_ok (values (run ops m)).
Proof.
  revert m. induction ops as [|o ops IH]; intros m HF; cbn; [assumption|].
  apply IH, step_ok, HF.
Qed.

Lemma reachable_ok (ops : list Op) : Forall agent_ok (values (run ops newManager)).
Proof. apply run_ok. constructor. Qed.

(** ** Capacity *)

(** A load that was reached below the capacity is within a capacity
    that is a count. *)
Lemma load_within_count (a : Agent) : load_ok a -> capacity_is_count a -> capacity_ok a.
Proof.
  intros (Hpos & Hload) (k & Hk & Hcap). split; [assumption|].
  rewrite Hcap. rewrite <- Zle_Qle.
  destruct Hload as [E|Hlt]; [lia|].
  rewrite Hcap, <- inject_Z_succ, <- Zlt_Qlt in Hlt. lia.
Qed.

(** C1, as the specification states it, fails: [registerAgent] takes
    the configured [max_concurrent_tasks] as it is given.  An agent
    registered with [-1] has [currentTasks = 0 > maxConcurrentTasks] from
    its registration on (and can never be reserved); an agent registered
    with [1/2] is reserved once, which takes [currentTasks] to [1 >
    maxConcurrentTasks]. *)
Lemma currentTasks_above_a_capacity_that_is_no_count :
  match get negativeCapacity "minus" with
  | Some a => currentTasks a = 0 /\ (maxConcurrentTasks a == -1)%Q /\ ~ capacity_ok a
  | None => False
  end
  /\ match get halfCapacity "half" with
     | Some a => currentTasks a = 1 /\ (maxConcurrentTasks a == 1 # 2)%Q /\ ~ capacity_ok a
     | None => False
     end.
Proof.
  split; cbn; (split; [reflexivity|]); (split; [reflexivity|]);
    intros [_ H]; vm_compute in H; apply H; reflexivity.
Qed.

(** C1, amended.  From an empty registry, after any sequence of calls of
    the manager (registrations, reservations [assignTaskToAgent], releases
    [releaseTaskFromAgent], heartbeats, configuration updates,
    deactivations and activations), every agent whose [maxConcurrentTasks]
    is a count, a non-negative integer, has [0 <= currentTasks <=
    maxConcurrentTasks]; as the sequence is arbitrary this holds after
    every prefix of it.  Whatever the capacity is, [currentTasks] is never
    negative and is either [0] or below [maxConcurrentTasks + 1].
    Moreover, in any registry whatsoever, a reservation adds [1] to
    [currentTasks] only when it is below [maxConcurrentTasks] and otherwise
    leaves it, and after a release [currentTasks] is at least [0], however
    often the release is repeated. *)
Theorem currentTasks_within_capacity :
  (forall (ops : list Op) (a : Agent),
      In a (values (run ops newManager)) -> capacity_is_count a -> capacity_ok a)
  /\ (forall ops : list Op, Forall load_ok (values (run ops newManager)))
  /\ (forall (m : Registry) (n t : string) (now : nat),
        match get m n, get (snd (assignTaskToAgent m n t now)) n with
        | Some a, Some a' =>
            maxConcurrentTasks a' = maxConcurrentTasks a
            /\ (currentTasks a' = currentTasks a
                \/ (currentTasks a' = currentTasks a + 1
                    /\ (inject_Z (currentTasks a) < maxConcurrentTasks a)%Q))
        | _, _ => True
        end)
  /\ (forall (m : Registry) (n t : string) (s : bool) (now : nat),
        match get (releaseTaskFromAgent m n t s now) n with
        | Some a' => 0 <= currentTasks a'
        | None => True
        end).
Proof.
  assert (forall ops : list Op, Forall load_ok (values (run ops newManager))) as Hload.
  { intros ops. pose proof (reachable_ok ops) as H.
    induction H as [|a l Ha _ IH]; constructor; [apply Ha | exact IH]. }
  split; [|split; [exact Hload|split]].
  - intros ops a Hin Hcount. apply load_within_count; [|assumption].
    specialize (Hload ops). rewrite List.Forall_forall in Hload. now apply Hload.
  - intros m n t now. unfold assignTaskToAgent.
    destruct (get m n) as [a|] eqn:Hg; [|exact I].
    destruct (Qle_bool_cases (maxConcurrentTasks a) (inject_Z (currentTasks a)))
      as [[-> Hge]|[-> Hlt]]; cbn.
    + rewrite Hg. split; [reflexivity | now left].
    + rewrite get_set_same. cbn. split; [reflexivity|]. right. now split.
  - intros m n t s now. unfold releaseTaskFromAgent.
    destruct (get m n) as [a|] eqn:Hg.
    + rewrite get_set_same. cbn. lia.
    + rewrite Hg. exact I.
Qed.

(** ** Statistics *)

(** C2.  From an empty registry, after any sequence of calls of the
    manager, every agent has [successRate = completedTasks / totalTasks]
    when [totalTasks > 0] and [successRate = 0] when [totalTasks = 0]; and
    one release of a registered agent adds 1 to [totalTasks], adds 1 to
    [completedTasks] when [success] is true and to [failedTasks] when it is
    false, leaves the other of the two alone, and stores the new quotient. *)
Theorem successRate_is_completed_over_total :
  (forall ops : list Op,
      Forall (fun a => rate_ok (performance a)) (values (run ops newManager)))
  /\ (forall (m : Registry) (n t : string) (s : bool) (now : nat) (a : Agent),
        get m n = Some a ->
        exists a',
          get (releaseTaskFromAgent m n t s now) n = Some a'
          /\ totalTasks (performance a') = totalTasks (performance a) + 1
          /\ completedTasks (performance a')
             = completedTasks (performance a) + (if s then 1 else 0)
          /\ failedTasks (performance a')
             = failedTasks (performance a) + (if s then 0 else 1)
          /\ successRate (performance a')
             = (inject_Z (completedTasks (performance a'))
                / inject_Z (totalTasks (performance a')))%Q).
Proof.
  split.
  - intros ops. pose proof (reachable_ok ops) as H.
    induction H as [|a l Ha _ IH]; constructor; [apply Ha | exact IH].
  - intros m n t s now a Hg. unfold releaseTaskFromAgent. rewrite Hg.
    eexists. split; [apply get_set_same|]. cbn.
    destruct s; repeat split; lia.
Qed.

(** ** Reservation *)

(** C5.  [assignTaskToAgent] throws [NotFound] exactly when the name is
    not in the registry, throws [CapacityExceeded] exactly when the name is
    registered with [currentTasks >= maxConcurrentTasks], and leaves the
    registry as it was whenever it throws; otherwise it returns the agent
    with [currentTasks] one higher, its other counters and statistics
    unchanged, and no other agent touched. *)
Theorem assignTaskToAgent_outcomes :
  forall (m : Registry) (n t : string) (now : nat),
    (fst (assignTaskToAgent m n t now) = Throw NotFound <-> get m n = None)
    /\ (fst (assignTaskToAgent m n t now) = Throw CapacityExceeded
        <-> exists a, get m n = Some a
                      /\ (maxConcurrentTasks a <= inject_Z (currentTasks a))%Q)
    /\ (forall e, fst (assignTaskToAgent m n t now) = Throw e ->
                  snd (assignTaskToAgent m n t now) = m)
    /\ (forall a, get m n = Some a ->
          (inject_Z (currentTasks a) < maxConcurrentTasks a)%Q ->
          exists a',
            fst (assignTaskToAgent m n t now) = Ok a'
            /\ get (snd (assignTaskToAgent m n t now)) n = Some a'
            /\ currentTasks a' = currentTasks a + 1
            /\ same_but_load a a'
            /\ forall n', n <> n' ->
                 get (snd (assignTaskToAgent m n t now)) n' = get m n').
Proof.
  intros m n t now. unfold assignTaskToAgent.
  destruct (get m n) as [a|] eqn:Hg.
  - destruct (Qle_bool_cases (maxConcurrentTasks a) (inject_Z (currentTasks a)))
      as [[-> Hge]|[-> Hlt]]; cbn.
    + repeat split; try discriminate; try reflexivity.
      * intros _. exists a. split; [reflexivity | assumption].
      * intros a0 [= <-] Hlt. exfalso. eapply Qlt_irrefl, Qlt_le_trans; eassumption.
    + repeat split; try discriminate.
      * intros (a0 & [= <-] & Hge). exfalso. eapply Qlt_irrefl, Qlt_le_trans; eassumption.
      * intros a0 [= <-] _. eexists. split; [reflexivity|].
        split; [apply get_set_same|]. cbn.
        split; [reflexivity|]. split; [repeat split|].
        intros n' Hne. now apply get_set_other.
  - cbn. repeat split; try discriminate; try reflexivity.
    intros (a0 & Habs & _). discriminate.
Qed.

(** ** Release of an unknown agent *)

(** C10.  [releaseTaskFromAgent] with a name that is not in the registry
    returns normally (it has no throwing path) and returns the registry it
    was given: no agent's [currentTasks], statistics or status change. *)
Theorem releaseTaskFromAgent_unknown_name :
  forall (m : Registry) (n t : string) (s : bool) (now : nat),
    get m n = None -> releaseTaskFromAgent m n t s now = m.
Proof.
  intros m n t s now Hg. unfold releaseTaskFromAgent. now rewrite Hg.
Qed.

(** ** The theorems at concrete registries *)

(** [devin] has three slots and holds two tasks. *)
Lemma currentTasks_within_capacity_witness :
  In devinAgent (values (run devinTwoTasksOps newManager))
  /\ capacity_is_count devinAgent
  /\ capacity_ok devinAgent.
Proof.
  assert (In devinAgent (values (run devinTwoTasksOps newManager))) as Hin
    by (vm_compute; left; reflexivity).
  assert (capacity_is_count devinAgent) as Hcount
    by (exists 3; split; [lia | reflexivity]).
  split; [exact Hin|]. split; [exact Hcount|].
  exact (proj1 currentTasks_within_capacity devinTwoTasksOps devinAgent Hin Hcount).
Defined.

(** [devin] holds two tasks and releases one with success. *)
Lemma successRate_is_completed_over_total_witness :
  get devinTwoTasks "devin" = Some devinAgent
  /\ exists a',
       get (releaseTaskFromAgent devinTwoTasks "devin" "t1" true 9%nat) "devin" = Some a'
       /\ totalTasks (performance a') = totalTasks (performance devinAgent) + 1
       /\ completedTasks (performance a') = completedTasks (performance devinAgent) + 1
       /\ failedTasks (performance a') = failedTasks (performance devinAgent) + 0
       /\ successRate (performance a')
          = (inject_Z (completedTasks (performance a'))
             / inject_Z (totalTasks (performance a')))%Q.
Proof.
  split; [reflexivity|].
  apply (proj2 successRate_is_completed_over_total devinTwoTasks "devin" "t1" true 9%nat
               devinAgent).
  reflexivity.
Defined.

(** [devin] has three slots: with two taken a third reservation succeeds,
    with three taken a fourth throws and changes nothing. *)
Lemma assignTaskToAgent_outcomes_witness :
  (exists a',
      fst (assignTaskToAgent devinTwoTasks "devin" "t3" 9%nat) = Ok a'
      /\ get (snd (assignTaskToAgent devinTwoTasks "devin" "t3" 9%nat)) "devin" = Some a'
      /\ currentTasks a' = currentTasks devinAgent + 1
      /\ same_but_load devinAgent a'
      /\ forall n', "devin" <> n' ->
           get (snd (assignTaskToAgent devinTwoTasks "devin" "t3" 9%nat)) n'
           = get devinTwoTasks n')
  /\ snd (assignTaskToAgent devinFull "devin" "t4" 9%nat) = devinFull.
Proof.
  split.
  - apply (proj2 (proj2 (proj2 (assignTaskToAgent_outcomes devinTwoTasks "devin" "t3" 9%nat)))
                 devinAgent); reflexivity.
  - apply (proj1 (proj2 (proj2 (assignTaskToAgent_outcomes devinFull "devin" "t4" 9%nat)))
                 CapacityExceeded).
    reflexivity.
Defined.

(** No agent is called ["ghost"]. *)
Lemma releaseTaskFromAgent_unknown_name_witness :
  get devinTwoTasks "ghost" = None
  /\ releaseTaskFromAgent devinTwoTasks "ghost" "t1" false 9%nat = devinTwoTasks.
Proof.
  split; [reflexivity|].
  apply releaseTaskFromAgent_unknown_name. reflexivity.
Defined.

End AgentRegistryProps.

(** * Properties of the agent selector *)

Module AgentSelectorProps.
Import AgentManager Spec.

(** ** Substrings *)

Lemma startsWith_app (s p q : string) :
  JS.startsWith s (p +:+ q) = true -> JS.startsWith s p = true.
Proof.
  revert s. induction p as [|c p IH]; intros s H; [reflexivity|].
  change (String c p +:+ q) with (String c (p +:+ q)) in H.
  cbn [JS.startsWith] in *.
  destruct s as [|d s]; [discriminate|].
  destruct (Ascii.eqb c d); cbn [andb] in *; [apply IH, H | discriminate].
Qed.

Lemma includes_app (s p q : string) :
  JS.includes s (p +:+ q) = true -> JS.includes s p = true.
Proof.
  induction s as [|d s IH]; cbn -[JS.startsWith].
  - rewrite !orb_false_r. apply startsWith_app.
  - intros H. apply orb_true_iff in H. apply orb_true_iff.
    destruct H as [H|H]; [left; eapply startsWith_app; exact H | right; auto].
Qed.

Lemma includes_longer_absorbed (s p q : string) :
  JS.includes s p || JS.includes s (p +:+ q) = JS.includes s p.
Proof.
  destruct (JS.includes s p) eqn:E; [reflexivity|]. cbn.
  destruct (JS.includes s (p +:+ q)) eqn:E'; [|reflexivity].
  apply includes_app in E'. congruence.
Qed.

(** The second disjuncts of the [test] and [deploy] conditions of the
    source add nothing. *)
Lemma test_absorbed (s : string) :
  JS.includes s "test" || JS.includes s "testing" = JS.includes s "test".
Proof. exact (includes_longer_absorbed s "test" "ing"). Qed.

Lemma deploy_absorbed (s : string) :
  JS.includes s "deploy" || JS.includes s "deployment" = JS.includes s "deploy".
Proof. exact (includes_longer_absorbed s "deploy" "ment"). Qed.

(** ** Capability extraction *)

(** Name the eight row conditions of the lower-cased description [L]. *)
Ltac abstract_triggers L :=
  rewrite ?orb_false_r;
  generalize (JS.includes L "build" || JS.includes L "compile");
  generalize (JS.includes L "test");
  generalize (JS.includes L "deploy");
  generalize (JS.includes L "debug" || JS.includes L "fix");
  generalize (JS.includes L "refactor" || JS.includes L "optimize");
  generalize (JS.includes L "document" || JS.includes L "readme");
  generalize (JS.includes L "architecture" || JS.includes L "design");
  generalize (JS.includes L "review" || JS.includes L "analyze").

Lemma extract_is_union (task : string) :
  extractRequiredCapabilities task = required_union task.
Proof.
  unfold extractRequiredCapabilities, required_union, matched_capabilities, row_matches,
    rule_table.
  cbv zeta. rewrite test_absorbed, deploy_absorbed.
  cbn [existsb List.filter flat_map fst snd].
  abstract_triggers (JS.toLowerCase task).
  intros b8 b7 b6 b5 b4 b3 b2 b1.
  destruct b1, b2, b3, b4, b5, b6, b7, b8; reflexivity.
Qed.

Lemma extract_NoDup (task : string) :
  NoDup (extractRequiredCapabilities task)
  <-> row_matches task (["build"; "compile"], ["code_generation"; "testing"])
      && row_matches task (["test"], ["testing"]) = false.
Proof.
  unfold extractRequiredCapabilities, row_matches.
  cbv zeta. rewrite test_absorbed, deploy_absorbed.
  cbn [existsb fst snd].
  abstract_triggers (JS.toLowerCase task).
  intros b8 b7 b6 b5 b4 b3 b2 b1.
  destruct b1, b2, b3, b4, b5, b6, b7, b8; cbn;
    (split; [intros H; try reflexivity | intros H; try discriminate]).
  all: try (apply (bool_decide_unpack _); vm_compute; exact I).
  all: apply (bool_decide_pack _) in H; vm_compute in H; destruct H.
Qed.

Lemma extract_nonempty (task : string) :
  (0 < length (extractRequiredCapabilities task))%nat.
Proof.
  unfold extractRequiredCapabilities. cbv zeta.
  match goal with
  | |- (0 < length (push_if (Nat.eqb (length ?l) 0) _ _))%nat => destruct l as [|c l']
  end; cbn; lia.
Qed.

(** C4, as the specification states it, fails: for a description that
    mentions both a build and a test the array lists [testing] twice, so it
    is not a duplicate-free set. *)
Lemma extractRequiredCapabilities_repeats_testing :
  extractRequiredCapabilities "Build the app and test it"
  = ["code_generation"; "testing"; "testing"]
  /\ ~ is_required_set "Build the app and test it"
         (extractRequiredCapabilities "Build the app and test it").
Proof.
  split; [vm_compute; reflexivity|].
  intros [Hnd _]. apply extract_NoDup in Hnd. vm_compute in Hnd. discriminate.
Qed.

(** C4, amended.  For every description the array returned by
    [extractRequiredCapabilities] is the concatenation, in the order of the
    rule table, of the capability lists of all rows one of whose triggers
    occurs in the lower-cased description, and [code_generation,
    problem_solving] when no row matches; so its elements are exactly those
    of the union of the matching rows.  The array repeats a capability
    exactly when the build/compile row and the test row both match (it then
    lists [testing] twice). *)
Theorem extractRequiredCapabilities_rule_table :
  forall task : string,
    extractRequiredCapabilities task = required_union task
    /\ (forall c, In c (extractRequiredCapabilities task) <-> In c (required_union task))
    /\ (existsb (row_matches task) rule_table = false ->
        extractRequiredCapabilities task = ["code_generation"; "problem_solving"])
    /\ (NoDup (extractRequiredCapabilities task)
        <-> row_matches task (["build"; "compile"], ["code_generation"; "testing"])
            && row_matches task (["test"], ["testing"]) = false).
Proof.
  intros task. split; [apply extract_is_union|].
  split; [rewrite extract_is_union; reflexivity|].
  split; [|apply extract_NoDup].
  intros H. rewrite extract_is_union. unfold required_union. now rewrite H.
Qed.

(** ** Selection *)

Lemma isAvailable_spec (a : Agent) :
  isAvailable a = true
  <-> status a = active /\ (inject_Z (currentTasks a) < maxConcurrentTasks a)%Q.
Proof.
  unfold isAvailable. rewrite andb_true_iff, AgentRegistryProps.Qltb_lt.
  destruct (status a); cbn; intuition discriminate.
Qed.

Lemma isNumber_not_nan (x : JS.number) : JS.isNumber x = true -> x <> S754_nan.
Proof. intros H ->. discriminate. Qed.

Lemma forallb_Forall {A : Type} (f : A -> bool) (l : list A) :
  forallb f l = true -> Forall (fun a => f a = true) l.
Proof.
  induction l as [|x l IH]; cbn; [constructor|].
  intros H. apply andb_true_iff in H. destruct H. constructor; auto.
Qed.

(** The sorted array holds the agents that were scored. *)
Lemma sorted_scored (sc : Agent -> JS.number) (l : list Agent) :
  Permutation (map fst (JS.sort score_after (map (fun a => (a, sc a)) l))) l.
Proof.
  rewrite (SortProps.sort_perm score_after), map_map. cbn. now rewrite map_id.
Qed.

Lemma selectBestAgent_throws (m : Registry) (task : string) (c : Passed ProjectContext) :
  getAvailableAgents m = [] <-> selectBestAgent m task c = Throw NoAvailableAgent.
Proof.
  unfold selectBestAgent.
  destruct (getAvailableAgents m) as [|x l] eqn:Hav; [split; reflexivity|].
  cbn [length Nat.eqb].
  destruct (defaulted c) as [ctx|]; [|split; discriminate].
  pose proof (sorted_scored (scoreAgent task ctx) (x :: l)) as Hperm.
  destruct (JS.sort score_after _) as [|best rest].
  - apply Permutation_length in Hperm. discriminate.
  - split; discriminate.
Qed.

Lemma selectBestAgent_in_available (m : Registry) (task : string)
    (c : Passed ProjectContext) (a : Agent) :
  selectBestAgent m task c = Ok a -> In a (getAvailableAgents m).
Proof.
  unfold selectBestAgent.
  destruct (Nat.eqb (length (getAvailableAgents m)) 0); [discriminate|].
  destruct (defaulted c) as [ctx|]; [|discriminate].
  pose proof (sorted_scored (scoreAgent task ctx) (getAvailableAgents m)) as Hperm.
  destruct (JS.sort score_after _) as [|best rest]; [discriminate|].
  intros [= <-]. eapply Permutation_in; [exact Hperm | left; reflexivity].
Qed.

(** With [null] for a context the call throws, one error or the other. *)
Lemma selectBestAgent_null (m : Registry) (task : string) :
  getAvailableAgents m <> [] -> selectBestAgent m task Null = Throw TypeError.
Proof.
  intros Hne. unfold selectBestAgent.
  destruct (getAvailableAgents m); [contradiction | reflexivity].
Qed.


(** The head of the sorted array of scored agents is the first agent of
    the array whose score no other agent exceeds. *)
Lemma sort_head_scored (sc : Agent -> JS.number) (l : list Agent) :
  l <> [] ->
  Forall (fun a => JS.isNumber (sc a) = true) l ->
  exists before best after rest,
    l = before ++ best :: after
    /\ JS.sort score_after (map (fun a => (a, sc a)) l) = (best, sc best) :: rest
    /\ Forall (fun b => JS.ltb (sc b) (sc best) = true) before
    /\ Forall (fun b => JS.leb (sc b) (sc best) = true) after.
Proof.
  induction l as [|x l IH]; [congruence|]. intros _ Hnum.
  apply List.Forall_cons_iff in Hnum. destruct Hnum as [Hx Hnum].
  destruct l as [|y l].
  - exists [], x, [], []. cbn. repeat split; constructor.
  - destruct IH as (before & best & after & rest & Hl & Hs & Hb & Ha);
      [discriminate | assumption |].
    assert (JS.isNumber (sc best) = true) as Hbest.
    { rewrite List.Forall_forall in Hnum. apply Hnum. rewrite Hl.
      apply in_or_app. right. left. reflexivity. }
    cbn [map JS.sort] in *. rewrite Hs. cbn [JS.sort_insert].
    unfold score_after at 1. cbn [snd].
    rewrite (NumberProps.sub_pos_ltb (sc x) (sc best) Hx Hbest).
    destruct (JS.ltb (sc x) (sc best)) eqn:E.
    + exists (x :: before), best, after, (JS.sort_insert score_after (x, sc x) rest).
      rewrite Hl. repeat split; [constructor|]; assumption.
    + assert (Hle : JS.leb (sc best) (sc x) = true)
        by (apply NumberProps.ltb_false_leb; auto using isNumber_not_nan).
      exists [], x, (y :: l), ((best, sc best) :: rest).
      repeat split; [constructor|].
      rewrite Hl. apply Forall_app. split; [|constructor].
      * eapply List.Forall_impl; [|exact Hb]. intros b Hlt. cbn in Hlt.
        apply NumberProps.ltb_leb. eapply NumberProps.ltb_leb_trans; eassumption.
      * assumption.
      * eapply List.Forall_impl; [|exact Ha]. intros b Hb'. cbn in Hb'.
        eapply NumberProps.leb_trans; eassumption.
Qed.

(** ** The score and the formula of the specification *)

Lemma array_includes_elem_of (l : list string) (x : string) :
  JS.array_includes l x = true <-> x ∈ (list_to_set l : gset string).
Proof.
  unfold JS.array_includes. rewrite existsb_exists, elem_of_list_to_set, list_elem_of_In.
  split.
  - intros (y & Hin & E). apply String.eqb_eq in E. now subst.
  - intros Hin. exists x. split; [assumption | apply String.eqb_refl].
Qed.

Lemma opt_includes_decide (l : option (list string)) (x : string) :
  opt_includes l x = bool_decide (x ∈ as_set l).
Proof.
  destruct l as [l|]; cbn [opt_includes as_set].
  - destruct (JS.array_includes l x) eqn:E.
    + symmetry. apply bool_decide_eq_true. now apply array_includes_elem_of.
    + symmetry. apply bool_decide_eq_false. intros H.
      apply array_includes_elem_of in H. congruence.
  - symmetry. apply bool_decide_eq_false. set_solver.
Qed.

(** In an array without duplicates, the entries that pass a membership
    test are counted by the intersection of the two sets. *)
Lemma filter_length_size (p : string -> bool) (S : gset string) (l : list string) :
  (forall x, p x = true <-> x ∈ S) ->
  NoDup l ->
  length (List.filter p l) = size (list_to_set l ∩ S).
Proof.
  intros Hp Hnd. induction Hnd as [|x l Hx Hnd IH]; cbn [List.filter list_to_set].
  - rewrite intersection_empty_l_L. now rewrite size_empty.
  - destruct (p x) eqn:E.
    + apply Hp in E.
      replace (({[x]} ∪ list_to_set l) ∩ S) with ({[x]} ∪ (list_to_set l ∩ S))
        by set_solver.
      rewrite size_union by set_solver. rewrite size_singleton. cbn. now rewrite IH.
    + assert (x ∉ S) as Hn by (intros H; apply Hp in H; congruence).
      replace (({[x]} ∪ list_to_set l) ∩ S) with (list_to_set l ∩ S : gset string)
        by set_solver.
      exact IH.
Qed.

Local Opaque JS.add JS.sub JS.mul JS.div JS.ofZ JS.ofQ.

(** Where the required capabilities hold no duplicate and the success
    rate is not negative, the score the code accumulates is the formula of
    the specification. *)
Lemma scoreAgent_is_spec_score (task : string) (c : ProjectContext) (a : Agent) :
  NoDup (extractRequiredCapabilities task) ->
  (0 <= successRate (performance a))%Q ->
  scoreAgent task c a = spec_score task c a.
Proof.
  intros Hnd Hrate. unfold scoreAgent, spec_score, required_set, len. cbv zeta.
  rewrite NumberProps.add_zero_l
    by (apply NumberProps.mul_not_negative;
        [now apply NumberProps.ofQ_not_negative | now apply NumberProps.ofZ_not_negative]).
  rewrite <- extract_is_union.
  rewrite (filter_length_size (fun cap => JS.array_includes (capabilities a) cap)
             (list_to_set (capabilities a)) _
             (array_includes_elem_of (capabilities a)) Hnd).
  rewrite (size_list_to_set (extractRequiredCapabilities task) Hnd).
  rewrite (List.filter_ext _ _ (opt_includes_decide (preferred_languages (configuration a)))).
  rewrite (opt_includes_decide (specializations (configuration a))).
  rewrite (Z.max_comm 1). reflexivity.
Qed.

Local Transparent JS.add JS.sub JS.mul JS.div JS.ofZ JS.ofQ.

(** C3, as the specification states it, fails in three ways.  Its
    example: of three available agents with the same capabilities and the
    success rates 9/10, 1/2 and 1/5, the agent at 1/2 is returned when its
    configuration earns it the language and specialization bonuses.  Its
    formula: for a description that mentions a build and a test the code
    counts [testing] twice among the required capabilities, so of two
    agents to which the formula over the capability set gives the same
    score, 25, the code returns the one registered second.  Its ties: the
    code compares the scores it has computed in binary64, so of two agents
    for which the formula has the same value, 250/3, it returns the one
    registered second, whose computed score is the larger. *)
Lemma selectBestAgent_not_the_claimed_agent :
  (map (fun a => (name a, capabilities a, successRate (performance a)))
       (getAvailableAgents sameSkills)
   = [("nine", ["code_generation"; "testing"], 9 # 10);
      ("half", ["code_generation"; "testing"], 1 # 2);
      ("fifth", ["code_generation"; "testing"], 1 # 5)]
   /\ match selectBestAgent sameSkills "build the web login page" (Given webContext) with
      | Ok a => name a = "half"
      | Throw _ => False
      end)
  /\ (map name (getAvailableAgents twoSkills) = ["coder"; "tester"]
      /\ map (spec_score "build it and test it" emptyContext) (getAvailableAgents twoSkills)
         = [JS.ofZ 25; JS.ofZ 25]
      /\ match selectBestAgent twoSkills "build it and test it" Undefined with
         | Ok a => name a = "tester"
         | Throw _ => False
         end)
  /\ (map name (getAvailableAgents roundedTie) = ["third"; "sixths"]
      /\ map (fun a => Qred (exact_score "test it" emptyContext a))
             (getAvailableAgents roundedTie)
         = [250 # 3; 250 # 3]
      /\ match selectBestAgent roundedTie "test it" Undefined with
         | Ok a => name a = "sixths"
         | Throw _ => False
         end).
Proof.
  split; [split; vm_compute; reflexivity|].
  split; (split; [vm_compute; reflexivity|]); split; vm_compute; reflexivity.
Qed.

(** C3, amended.  [selectBestAgent] works on the available agents, the
    agents of the registry that are [active] with [currentTasks <
    maxConcurrentTasks], in the iteration order of the registry.  It
    throws [NoAvailableAgent] exactly when there is none.  Otherwise it
    throws a [TypeError] when the context is [null], and else,
    every score being a number, it returns an available agent [best] such
    that every available agent before it has a strictly smaller score and
    every available agent after it a score at most as large: the score of
    [best] is maximal, and among agents of maximal score [best] is the first
    in registry order.  The score is the binary64 number the code
    accumulates, and it is the scores so computed that are compared; it
    is the formula of the specification, [successRate*100
    + (|matching capabilities| / |required capabilities|)*50 + (|matching
    languages| / max(1, |technology stack|))*30 + (20 if the task domain
    is a specialization) - (currentTasks / maxConcurrentTasks)*20] over
    the required capability set, the terms added from left to right, when
    the array of required capabilities holds no duplicate and the success
    rate is not negative; the array is never empty.  The iteration order
    of the registry is the order of first registration: registering a new
    name appends it, registering a known name keeps its place.  Of the
    three available agents of [threeAgents], which have the same
    capabilities, configuration, load and capacity and the success rates
    1/2, 9/10 and 1/5, the one at 9/10 is returned, and of two agents with
    equal scores the one registered first. *)
Theorem selectBestAgent_maximal_first :
  (forall (m : Registry) (task : string) (projectContext : Passed ProjectContext),
      let available := getAvailableAgents m in
      let score := scoreAgent task (context_of projectContext) in
      (forall a, In a available
                 <-> In a (values m) /\ status a = active
                     /\ (inject_Z (currentTasks a) < maxConcurrentTasks a)%Q)
      /\ (available = [] <-> selectBestAgent m task projectContext = Throw NoAvailableAgent)
      /\ (available <> [] -> selectBestAgent m task Null = Throw TypeError)
      /\ (available <> [] -> projectContext <> Null ->
          Forall (fun a => JS.isNumber (score a) = true) available ->
          exists before best after,
            selectBestAgent m task projectContext = Ok best
            /\ available = before ++ best :: after
            /\ Forall (fun b => JS.ltb (score b) (score best) = true) before
            /\ Forall (fun b => JS.leb (score b) (score best) = true) after)
      /\ (forall a, NoDup (extractRequiredCapabilities task) ->
                    (0 <= successRate (performance a))%Q ->
                    score a = spec_score task (context_of projectContext) a)
      /\ (0 < length (extractRequiredCapabilities task))%nat)
  /\ (forall (m : Registry) (uuid : string) (now : nat) (d : AgentData),
        map fst (snd (registerAgent m uuid now d))
        = if existsb (String.eqb (data_name d)) (map fst m)
          then map fst m else map fst m ++ [data_name d])
  /\ (map (fun a => (name a, successRate (performance a))) (getAvailableAgents threeAgents)
      = [("half", 1 # 2); ("nine", 9 # 10); ("fifth", 1 # 5)]
      /\ map (fun a => (capabilities a, configuration a, currentTasks a,
                        maxConcurrentTasks a))
             (getAvailableAgents threeAgents)
         = repeat (["code_generation"; "testing"], exampleConfiguration, 0, 5%Q) 3
      /\ match selectBestAgent threeAgents "build the login page" Undefined with
         | Ok a => name a = "nine"
         | Throw _ => False
         end)
  /\ match selectBestAgent twoEqualAgents "build the login page" Undefined with
     | Ok a => name a = "first"
     | Throw _ => False
     end.
Proof.
  split; [|split; [|split; [split; [vm_compute; reflexivity
                                   |split; vm_compute; reflexivity]
                           | vm_compute; reflexivity]]].
  2: { intros m uuid now d. cbn. apply AgentRegistryProps.set_keys. }
  intros m task projectContext available score.
  split; [|split; [|split; [|split; [|split]]]].
  - intros a. unfold available, getAvailableAgents.
    rewrite filter_In, isAvailable_spec. reflexivity.
  - apply selectBestAgent_throws.
  - apply selectBestAgent_null.
  - intros Hne Hnull Hnum. unfold selectBestAgent. fold available.
    assert (defaulted projectContext = Some (context_of projectContext)) as ->
      by (destruct projectContext; [reflexivity | contradiction | reflexivity]).
    destruct (sort_head_scored (scoreAgent task (context_of projectContext)) available
                Hne Hnum)
      as (before & best & after & rest & Hl & Hs & Hb & Ha).
    exists before, best, after. rewrite Hs.
    destruct available as [|x l]; [congruence|]. cbn [length Nat.eqb fst].
    repeat split; assumption.
  - intros a. apply scoreAgent_is_spec_score.
  - apply extract_nonempty.
Qed.

(** ** The theorems at concrete inputs *)

(** No trigger occurs in ["Say hello"]. *)
Lemma extractRequiredCapabilities_rule_table_witness :
  existsb (row_matches "Say hello") rule_table = false
  /\ extractRequiredCapabilities "Say hello" = ["code_generation"; "problem_solving"].
Proof.
  split; [reflexivity|].
  apply (proj1 (proj2 (proj2 (extractRequiredCapabilities_rule_table "Say hello")))).
  reflexivity.
Defined.

(** The three agents are available and their scores are numbers. *)
Lemma selectBestAgent_maximal_first_witness :
  exists before best after,
    selectBestAgent threeAgents "build the login page" Undefined = Ok best
    /\ getAvailableAgents threeAgents = before ++ best :: after
    /\ Forall (fun b => JS.ltb (scoreAgent "build the login page" emptyContext b)
                               (scoreAgent "build the login page" emptyContext best) = true)
              before
    /\ Forall (fun b => JS.leb (scoreAgent "build the login page" emptyContext b)
                               (scoreAgent "build the login page" emptyContext best) = true)
              after.
Proof.
  destruct (proj1 selectBestAgent_maximal_first threeAgents "build the login page" Undefined)
    as (_ & _ & _ & H & _).
  apply H.
  - vm_compute. discriminate.
  - discriminate.
  - apply (forallb_Forall
             (fun a => JS.isNumber (scoreAgent "build the login page" emptyContext a))).
    vm_compute. reflexivity.
Defined.

End AgentSelectorProps.

(** * Properties of the task lifecycle *)

Module TaskLifecycleProps.
Import AgentManager OrchestrationService Spec.

(** When the store resolves every call, the execution releases its agent
    exactly once, with [success] telling whether the executor returned. *)
Lemma released_once_when_store_resolves
    (ex : Executors) (db : Database) (m : Registry) (agent : Agent)
    (taskId : string) (taskArgs : TaskArgs) (now : nat) :
  resolves db ->
  released ex db m agent taskId taskArgs now = [succeeded (dispatch ex agent taskArgs)]
  /\ registry (snd (execute ex db m agent taskId taskArgs now))
     = releaseTaskFromAgent m (name agent) taskId
         (succeeded (dispatch ex agent taskArgs)) now.
Proof.
  intros Hdb. unfold released, execute, executeTaskWithAgent, try_catch, bind,
    db_updateTaskStatus, db_logTaskExecution, store_call, lift, emit, release, bind,
    ret, throw.
  cbn. destruct (dispatch ex agent taskArgs) as [r|e]; cbn.
  - destruct (Hdb taskId "completed") as [-> _].
    destruct (Hdb taskId "task_completed") as [_ ->]. cbn.
    now rewrite !String.eqb_refl.
  - destruct (Hdb taskId "failed") as [-> _].
    destruct (Hdb taskId "task_failed") as [_ ->]. cbn.
    now rewrite !String.eqb_refl.
Qed.

(** With a store that resolves every call: one release, [true] when the
    executor returns and [false] when it throws. *)
Lemma released_once_with_healthy_store :
  released returning healthyStore devinTwoTasks devinAgent "t1" exampleArgs 9%nat = [true]
  /\ released throwing healthyStore devinTwoTasks devinAgent "t1" exampleArgs 9%nat = [false].
Proof.
  assert (resolves healthyStore) as H by (intros t s; split; reflexivity).
  split.
  - apply (released_once_when_store_resolves returning healthyStore devinTwoTasks
             devinAgent "t1" exampleArgs 9%nat H).
  - apply (released_once_when_store_resolves throwing healthyStore devinTwoTasks
             devinAgent "t1" exampleArgs 9%nat H).
Qed.

(** C6 fails on the code.  The executor returns; the store records the
    completion and the agent is released with [success = true]; then
    [logTaskExecution] rejects inside the [try] block, the [catch] block
    runs and releases the same agent for the same task a second time, with
    [success = false]: one task frees two slots of [devin] and counts as
    two tasks in its statistics.  And when [updateTaskStatus] rejects, in
    the [try] block and again in the [catch] block, the agent is never
    released: the reservation stays, whether the executor returned or
    threw. *)
Theorem executeTaskWithAgent_release_not_exactly_once :
  (released returning logRejectingStore devinTwoTasks devinAgent "t1" exampleArgs 9%nat
   = [true; false]
   /\ counters devinTwoTasks "devin" = Some (2, 0, 0, 0)
   /\ counters
        (registry (snd (execute returning logRejectingStore devinTwoTasks devinAgent
                                "t1" exampleArgs 9%nat))) "devin"
      = Some (0, 2, 1, 1))
  /\ (released returning statusRejectingStore devinTwoTasks devinAgent "t1" exampleArgs 9%nat
      = []
      /\ released throwing statusRejectingStore devinTwoTasks devinAgent "t1" exampleArgs 9%nat
         = []
      /\ counters
           (registry (snd (execute returning statusRejectingStore devinTwoTasks devinAgent
                                   "t1" exampleArgs 9%nat))) "devin"
         = Some (2, 0, 0, 0)).
Proof. repeat split; vm_compute; reflexivity. Qed.

End TaskLifecycleProps.

(** * Properties of the task queue *)

Module SchedulerProps.
Import TaskQueue Spec.

(** ** The comparator of the queue *)

Lemma priority_after_lt (a b : Task) : priority_after a b = true <-> rank a < rank b.
Proof. unfold priority_after, rank. rewrite Z.gtb_gt. lia. Qed.

Lemma priority_after_ge (a b : Task) : priority_after a b = false <-> rank b <= rank a.
Proof.
  unfold priority_after, rank.
  destruct (Z.gtb_spec (priorityOrder (priority b) - priorityOrder (priority a)) 0);
    split; intros; try discriminate; try reflexivity; lia.
Qed.

Lemma priority_after_irrefl (x : Task) : priority_after x x = false.
Proof. apply priority_after_ge. lia. Qed.

Lemma priority_after_trans (x y z : Task) :
  priority_after x y = true -> priority_after y z = true -> priority_after x z = true.
Proof. rewrite !priority_after_lt. lia. Qed.

Lemma priority_after_cotrans (x y z : Task) :
  priority_after x z = true -> priority_after x y = true \/ priority_after y z = true.
Proof. rewrite !priority_after_lt. lia. Qed.

Lemma has_priority_same (p : Priority) (a b : Task) :
  has_priority p a = true -> has_priority p b = true -> priority_after a b = false.
Proof.
  unfold has_priority. intros Ha Hb. apply priority_after_ge. unfold rank.
  destruct p, (priority a), (priority b); try discriminate; cbn; lia.
Qed.

(** ** The sorted queue *)

Lemma queue_sort_spec (l : list Task) :
  Permutation (JS.sort priority_after l) l
  /\ StronglySorted (fun a b => rank b <= rank a) (JS.sort priority_after l)
  /\ forall p, List.filter (has_priority p) (JS.sort priority_after l)
               = List.filter (has_priority p) l.
Proof.
  split; [apply SortProps.sort_perm|]. split.
  - pose proof (SortProps.sort_sorted priority_after priority_after_irrefl
                  priority_after_trans priority_after_cotrans l) as H.
    induction H as [|a s Hs IH Ha]; constructor; [exact IH|].
    eapply List.Forall_impl; [|exact Ha]. intros b Hb. now apply priority_after_ge.
  - intros p. apply SortProps.sort_stable. apply has_priority_same.
Qed.

Lemma queue_sort_head (l : list Task) :
  l <> [] ->
  exists before best after rest,
    l = before ++ best :: after
    /\ JS.sort priority_after l = best :: rest
    /\ Forall (fun b => rank b < rank best) before
    /\ Forall (fun b => rank b <= rank best) after.
Proof.
  intros Hne.
  destruct (SortProps.sort_head priority_after priority_after_trans
              priority_after_cotrans l Hne)
    as (before & best & after & rest & Hl & Hs & Hb & Ha).
  exists before, best, after, rest. repeat split; try assumption.
  - eapply List.Forall_impl; [|exact Hb]. intros b. apply priority_after_lt.
  - eapply List.Forall_impl; [|exact Ha]. intros b. apply priority_after_ge.
Qed.

(** ** The concurrency cap *)

Lemma step_cap (q : Queue) (o : Op) :
  (size (processing q) <= maxConcurrency)%nat ->
  (size (processing (step q o)) <= maxConcurrency)%nat.
Proof.
  intros H. destruct o; cbn; try assumption.
  - unfold processQueue_iteration.
    destruct (JS.sort priority_after (queue q)) as [|t rest]; [assumption|].
    destruct (Nat.ltb_spec (size (processing q)) maxConcurrency) as [Hlt|Hge]; cbn;
      [|assumption].
    rewrite size_union_alt, size_singleton.
    pose proof (subseteq_size (processing q ∖ {[id t]}) (processing q)
                  (subseteq_difference_l _ _ _ (reflexivity _))) as Hs.
    unfold maxConcurrency in *. lia.
  - etransitivity; [apply subseteq_size, subseteq_difference_l; reflexivity | exact H].
  - etransitivity;
      [apply subseteq_size; do 2 apply subseteq_difference_l; reflexivity | exact H].
  - unfold cancelTask. destruct (findIndex taskId (queue q)) as [i|].
    + destruct (queue q !! i); assumption.
    + destruct (decide (taskId ∈ processing q)); assumption.
  - unfold retryTask. destruct (failed q !! taskId); assumption.
Qed.

Lemma run_cap (ops : list Op) (q : Queue) :
  (size (processing q) <= maxConcurrency)%nat ->
  (size (processing (run ops q)) <= maxConcurrency)%nat.
Proof.
  revert q. induction ops as [|o ops IH]; intros q H; cbn; [assumption|].
  apply IH, step_cap, H.
Qed.

(** ** One iteration of the dispatch loop *)

(** C7, as the specification states it, fails: with two tasks queued and
    nothing running, one iteration starts one task and then waits, although
    a task is still queued and one task only is running. *)
Lemma processQueue_iteration_leaves_capacity_unused :
  map id (queue (snd (processQueue_iteration mediumThenUrgent))) = ["m"]
  /\ size (processing (snd (processQueue_iteration mediumThenUrgent))) = 1%nat
  /\ ~ drained_or_full (snd (processQueue_iteration mediumThenUrgent)).
Proof.
  split; [vm_compute; reflexivity|]. split; [vm_compute; reflexivity|].
  intros [H|H]; vm_compute in H; [discriminate | lia].
Qed.

(** C7, amended.  An iteration of the dispatch loop first sorts the queue:
    the sorted queue is a permutation of the queue, in descending rank
    [urgent(4) > high(3) > medium(2) > low(1)], and for each priority the
    tasks of that priority are in the order they had.  Then, if the queue
    is not empty and fewer than [maxConcurrency = 10] tasks are running, it
    removes the head of the sorted queue, and that task only, and starts
    it; otherwise it starts nothing.  The task started has the highest rank
    in the queue and is the first queued task of that rank.  From a new
    queue, whatever the calls and iterations, at most [maxConcurrency]
    tasks are running.  An [urgent] task added after a [medium] task is
    started by the next iteration, the [medium] task stays queued. *)
Theorem processQueue_iteration_dispatches_one :
  (forall q : Queue,
      let sorted := JS.sort priority_after (queue q) in
      Permutation sorted (queue q)
      /\ StronglySorted (fun a b => rank b <= rank a) sorted
      /\ (forall p, List.filter (has_priority p) sorted
                    = List.filter (has_priority p) (queue q))
      /\ (forall t q', processQueue_iteration q = (Some t, q') ->
            (size (processing q) < maxConcurrency)%nat
            /\ sorted = t :: queue q'
            /\ processing q' = {[ id t ]} ∪ processing q
            /\ (size (processing q') <= maxConcurrency)%nat
            /\ completed q' = completed q /\ failed q' = failed q
            /\ exists before after,
                 queue q = before ++ t :: after
                 /\ Forall (fun b => rank b < rank t) before
                 /\ Forall (fun b => rank b <= rank t) after)
      /\ (forall q', processQueue_iteration q = (None, q') ->
            (queue q = [] \/ (maxConcurrency <= size (processing q))%nat)
            /\ q' = with_queue q sorted)
      /\ (queue q <> [] -> (size (processing q) < maxConcurrency)%nat ->
          exists t q', processQueue_iteration q = (Some t, q')))
  /\ (forall ops, (size (processing (run ops newQueue)) <= maxConcurrency)%nat)
  /\ maxConcurrency = 10%nat
  /\ (map id (queue mediumThenUrgent) = ["m"; "u"]
      /\ option_map id (fst (processQueue_iteration mediumThenUrgent)) = Some "u"
      /\ map id (queue (snd (processQueue_iteration mediumThenUrgent))) = ["m"]).
Proof.
  split; [|split; [|split; [reflexivity | repeat split; vm_compute; reflexivity]]].
  - intros q sorted. subst sorted.
    destruct (queue_sort_spec (queue q)) as (Hperm & Hsorted & Hstable).
    split; [exact Hperm|]. split; [exact Hsorted|]. split; [exact Hstable|].
    unfold processQueue_iteration.
    destruct (JS.sort priority_after (queue q)) as [|t0 rest] eqn:Hs.
    + split; [discriminate|]. split.
      * intros q' [= <-]. split; [|reflexivity]. left.
        apply Permutation_nil in Hperm. exact Hperm.
      * intros Hne _. exfalso. apply Hne.
        apply Permutation_nil in Hperm. exact Hperm.
    + destruct (Nat.ltb_spec (size (processing q)) maxConcurrency) as [Hlt|Hge].
      * split; [|split; [discriminate|]].
        -- intros t q' [= <- <-]. cbn.
           repeat split; try assumption.
           ++ rewrite size_union_alt, size_singleton.
              pose proof (subseteq_size (processing q ∖ {[id t0]}) (processing q)
                            (subseteq_difference_l _ _ _ (reflexivity _))) as Hsub.
              unfold maxConcurrency in *. lia.
           ++ assert (queue q <> []) as Hne.
              { intros E. rewrite E in Hs. discriminate. }
              destruct (queue_sort_head (queue q) Hne)
                as (before & best & after & rest' & Hl & Hs' & Hb & Ha).
              rewrite Hs' in Hs. injection Hs as -> ->.
              exists before, after. repeat split; assumption.
        -- intros _ _. eexists _, _. reflexivity.
      * split; [discriminate|]. split.
        -- intros q' [= <-]. split; [right; exact Hge | reflexivity].
        -- intros _ Hlt. lia.
  - intros ops. apply run_cap. cbn. rewrite size_empty. lia.
Qed.

(** ** Cancellation *)

Lemma findIndex_Some (taskId : string) (l : list Task) (i : nat) :
  findIndex taskId l = Some i ->
  exists before task after,
    l = before ++ task :: after /\ length before = i /\ id task = taskId
    /\ Forall (fun t => id t <> taskId) before.
Proof.
  revert i. induction l as [|t l IH]; intros i; cbn; [discriminate|].
  destruct (String.eqb (id t) taskId) eqn:E.
  - intros [= <-]. apply String.eqb_eq in E.
    exists [], t, l. repeat split; [assumption | constructor].
  - apply String.eqb_neq in E.
    destruct (findIndex taskId l) as [j|]; [|discriminate].
    intros [= <-].
    destruct (IH j eq_refl) as (before & task & after & -> & Hlen & Hid & Hb).
    exists (t :: before), task, after. cbn.
    repeat split; [congruence | assumption | constructor; assumption].
Qed.

Lemma findIndex_None (taskId : string) (l : list Task) :
  findIndex taskId l = None <-> Forall (fun t => id t <> taskId) l.
Proof.
  induction l as [|t l IH]; cbn; [split; [constructor | reflexivity]|].
  destruct (String.eqb (id t) taskId) eqn:E.
  - apply String.eqb_eq in E. split; [discriminate|].
    intros H. inversion H; subst. contradiction.
  - apply String.eqb_neq in E.
    destruct (findIndex taskId l) as [j|]; split; try discriminate; try reflexivity.
    + intros H. inversion H as [|? ? _ Hl]; subst. apply IH in Hl. discriminate.
    + intros _. constructor; [assumption | now apply IH].
Qed.

(** C8.  When some queued task has the id, [cancelTask] removes the first
    such task from the queue and returns it with status [cancelled] and
    its other fields as they were; the tasks before it and after it stay,
    in their order (and when ids in the queue are distinct, no task with
    that id is queued any more); the running set and the completed and
    failed maps are not touched.  When no queued task has the id and the id
    is in the running set, [cancelTask] throws [CancellationRejected] and
    the queue object is as it was. *)
Theorem cancelTask_queued_or_processing :
  forall (q : Queue) (taskId : string),
    (Exists (fun t => id t = taskId) (queue q) ->
     exists before task after task' q',
       queue q = before ++ task :: after
       /\ id task = taskId
       /\ Forall (fun t => id t <> taskId) before
       /\ cancelTask q taskId = (Ok task', q')
       /\ task' = with_status task cancelled
       /\ status task' = cancelled
       /\ same_task_but_state task task'
       /\ queue q' = before ++ after
       /\ same_but_queue q q'
       /\ (NoDup (map id (queue q)) -> Forall (fun t => id t <> taskId) (queue q')))
    /\ (Forall (fun t => id t <> taskId) (queue q) -> taskId ∈ processing q ->
        cancelTask q taskId = (Throw CancellationRejected, q)).
Proof.
  intros q taskId. split.
  - intros Hex. unfold cancelTask.
    destruct (findIndex taskId (queue q)) as [i|] eqn:Hfi.
    + destruct (findIndex_Some _ _ _ Hfi) as (before & task & after & Hq & Hlen & Hid & Hb).
      exists before, task, after, (with_status task cancelled),
        (with_queue q (before ++ after)).
      rewrite Hq. subst i.
      rewrite list_lookup_middle by reflexivity. rewrite delete_middle.
      repeat split; try assumption.
      intros Hnd. cbn. apply Forall_app. split; [assumption|].
      rewrite map_app in Hnd. cbn in Hnd. apply NoDup_app in Hnd.
      destruct Hnd as (_ & _ & Hnd). apply NoDup_cons in Hnd. destruct Hnd as [Hnin _].
      apply Forall_forall. intros t Ht Heq. apply Hnin.
      rewrite Hid, <- Heq. apply list_elem_of_In, in_map, list_elem_of_In, Ht.
    + apply findIndex_None in Hfi. exfalso.
      apply Exists_exists in Hex. destruct Hex as (t & Hin & Heq).
      rewrite Forall_forall in Hfi. exact (Hfi t Hin Heq).
  - intros Hall Hproc. unfold cancelTask.
    apply findIndex_None in Hall. rewrite Hall.
    destruct (decide (taskId ∈ processing q)); [reflexivity | contradiction].
Qed.

(** ** Retry *)

(** C9.  When the id is a key of the failed map, [retryTask] returns the
    task of that entry with status [queued], [retryCount] one more than
    before (an absent count reads as 0), [error] and [failedAt] cleared,
    and its priority and other fields as they were; the task is appended
    at the tail of the queue and the id is no longer in the failed map.
    When the id is not a key of the failed map, [retryTask] throws
    [NotFound] and the queue object is as it was. *)
Theorem retryTask_requeues_failed :
  forall (q : Queue) (taskId : string),
    (forall entry, failed q !! taskId = Some entry ->
       exists task q',
         retryTask q taskId = (Ok task, q')
         /\ status task = queued
         /\ retryCount task = Some (retries (entry_task entry) + 1)
         /\ error task = None /\ failedAt task = None
         /\ priority task = priority (entry_task entry)
         /\ same_task_but_state (entry_task entry) task
         /\ queue q' = queue q ++ [task]
         /\ failed q' = delete taskId (failed q)
         /\ failed q' !! taskId = None
         /\ processing q' = processing q /\ completed q' = completed q)
    /\ (failed q !! taskId = None -> retryTask q taskId = (Throw NotFound, q)).
Proof.
  intros q taskId. unfold retryTask. split.
  - intros entry He. rewrite He. eexists _, _. split; [reflexivity|]. cbn.
    repeat split. apply lookup_delete_eq.
  - intros He. now rewrite He.
Qed.

(** ** The theorems at concrete queues *)

(** Two tasks are queued and nothing is running. *)
Lemma processQueue_iteration_dispatches_one_witness :
  exists t q', processQueue_iteration mediumThenUrgent = (Some t, q').
Proof.
  destruct (proj1 processQueue_iteration_dispatches_one mediumThenUrgent)
    as (_ & _ & _ & _ & _ & H).
  apply H; [vm_compute; discriminate | vm_compute; lia].
Defined.

(** ["u"] is queued and ["m"] is running. *)
Lemma cancelTask_queued_or_processing_witness :
  (exists before task after task' q',
      queue oneRunning = before ++ task :: after
      /\ id task = "u"
      /\ Forall (fun t => id t <> "u") before
      /\ cancelTask oneRunning "u" = (Ok task', q')
      /\ task' = with_status task cancelled
      /\ status task' = cancelled
      /\ same_task_but_state task task'
      /\ queue q' = before ++ after
      /\ same_but_queue oneRunning q'
      /\ (NoDup (map id (queue oneRunning)) -> Forall (fun t => id t <> "u") (queue q')))
  /\ cancelTask oneRunning "m" = (Throw CancellationRejected, oneRunning).
Proof.
  split.
  - apply (proj1 (cancelTask_queued_or_processing oneRunning "u")).
    vm_compute. apply Exists_cons_hd. reflexivity.
  - apply (proj2 (cancelTask_queued_or_processing oneRunning "m")).
    + vm_compute. repeat constructor; discriminate.
    + apply (bool_decide_unpack _). vm_compute. exact I.
Defined.

(** ["m"] failed once; no task ["z"] ever did. *)
Lemma retryTask_requeues_failed_witness :
  (exists task q',
      retryTask oneFailed "m" = (Ok task, q')
      /\ status task = queued
      /\ retryCount task = Some (retries (entry_task failedEntry) + 1)
      /\ error task = None /\ failedAt task = None
      /\ priority task = priority (entry_task failedEntry)
      /\ same_task_but_state (entry_task failedEntry) task
      /\ queue q' = queue oneFailed ++ [task]
      /\ failed q' = delete "m" (failed oneFailed)
      /\ failed q' !! "m" = None
      /\ processing q' = processing oneFailed /\ completed q' = completed oneFailed)
  /\ retryTask oneFailed "z" = (Throw NotFound, oneFailed).
Proof.
  split.
  - apply (proj1 (retryTask_requeues_failed oneFailed "m") failedEntry).
    vm_compute. reflexivity.
  - apply (proj2 (retryTask_requeues_failed oneFailed "z")).
    vm_compute. reflexivity.
Defined.

End SchedulerProps.

(** * More properties of the agent registry *)

Module RegistryMoreProps.
Import AgentManager Spec.

(** ** The registry as a map, continued *)

Lemma set_set (m : Registry) (n : string) (a b : Agent) :
  set (set m n a) n b = set m n b.
Proof.
  induction m as [|[k c] m IH]; cbn.
  - now rewrite String.eqb_refl.
  - destruct (String.eqb k n) eqn:E; cbn; rewrite E; [reflexivity | now rewrite IH].
Qed.

Lemma get_In (m : Registry) (n : string) (a : Agent) :
  get m n = Some a -> In (n, a) m.
Proof.
  induction m as [|[k b] m IH]; cbn; [discriminate|].
  destruct (String.eqb k n) eqn:E.
  - apply String.eqb_eq in E. intros [= <-]. left. now subst.
  - intros H. right. auto.
Qed.

Lemma get_None_keys (m : Registry) (n : string) :
  get m n = None <-> ~ In n (map fst m).
Proof.
  induction m as [|[k b] m IH]; cbn; [tauto|].
  destruct (String.eqb k n) eqn:E.
  - apply String.eqb_eq in E. split; [discriminate | intros H; exfalso; auto].
  - apply String.eqb_neq in E. rewrite IH. tauto.
Qed.

Lemma existsb_keys (m : Registry) (n : string) :
  existsb (String.eqb n) (map fst m) = true <-> In n (map fst m).
Proof.
  rewrite existsb_exists. split.
  - intros (k & Hin & E). apply String.eqb_eq in E. now subst.
  - intros Hin. exists n. split; [assumption | apply String.eqb_refl].
Qed.

Lemma set_In (m : Registry) (n : string) (a : Agent) (e : string * Agent) :
  In e (set m n a) -> e = (n, a) \/ In e m.
Proof.
  induction m as [|[k b] m IH]; cbn.
  - intros [<-|[]]. now left.
  - destruct (String.eqb k n) eqn:E; cbn.
    + apply String.eqb_eq in E. subst k. intros [<-|H]; auto.
    + intros [<-|H]; [auto|]. destruct (IH H); auto.
Qed.

(** ** Keys are names *)

Lemma keyed_set (m : Registry) (n : string) (a : Agent) :
  keyed m -> name a = n -> keyed (set m n a).
Proof.
  intros [Hnd Hall] Hname. split.
  - rewrite AgentRegistryProps.set_keys.
    destruct (existsb (String.eqb n) (map fst m)) eqn:E; [assumption|].
    apply NoDup_app. split; [assumption|]. split; [|apply NoDup_singleton].
    intros k Hk Hin. apply list_elem_of_In in Hk, Hin. destruct Hin as [<-|[]].
    assert (existsb (String.eqb n) (map fst m) = true) by now apply existsb_keys.
    congruence.
  - apply List.Forall_forall. intros e He.
    destruct (set_In _ _ _ _ He) as [->|Hin]; [exact Hname|].
    rewrite List.Forall_forall in Hall. now apply Hall.
Qed.

Lemma keyed_get_name (m : Registry) (n : string) (a : Agent) :
  keyed m -> get m n = Some a -> name a = n.
Proof.
  intros [_ Hall] Hg. apply get_In in Hg.
  rewrite List.Forall_forall in Hall. exact (Hall _ Hg).
Qed.

Lemma keyed_lookup (m : Registry) (a : Agent) :
  keyed m -> In a (values m) -> get m (name a) = Some a.
Proof.
  intros [Hnd Hall]. induction m as [|[k b] m IH]; cbn; [intros []|].
  inversion Hnd as [|? ? Hnin Hnd']; subst.
  inversion Hall as [|? ? Hk Hall']; subst. cbn in Hk.
  intros [->|Hin].
  - now rewrite Hk, String.eqb_refl.
  - destruct (String.eqb k (name a)) eqn:E; [|auto].
    apply String.eqb_eq in E. exfalso. apply Hnin. subst k.
    specialize (IH Hnd' Hall' Hin). apply get_In in IH.
    apply list_elem_of_In. rewrite E. exact (in_map fst m (name a, a) IH).
Qed.

Lemma step_keyed (m : Registry) (o : Op) : keyed m -> keyed (step m o).
Proof.
  intros Hk.
  destruct o as [uuid now d|n t now|n t s now|n now|n c now|n now|n now]; cbn.
  - now apply keyed_set.
  - unfold assignTaskToAgent. destruct (get m n) as [a|] eqn:Hg; [|assumption].
    destruct (Qle_bool (maxConcurrentTasks a) (inject_Z (currentTasks a))); [assumption|].
    cbn.
    apply keyed_set; [assumption|]. cbn. eapply keyed_get_name; eassumption.
  - unfold releaseTaskFromAgent. destruct (get m n) as [a|] eqn:Hg; [|assumption].
    apply keyed_set; [assumption|]. cbn. eapply keyed_get_name; eassumption.
  - unfold updateAgentHeartbeat. destruct (get m n) as [a|] eqn:Hg; [|assumption].
    apply keyed_set; [assumption|]. cbn. eapply keyed_get_name; eassumption.
  - unfold updateAgentConfiguration. destruct (get m n) as [a|] eqn:Hg; [|assumption].
    cbn. apply keyed_set; [assumption|]. cbn. eapply keyed_get_name; eassumption.
  - unfold deactivateAgent, setStatus. destruct (get m n) as [a|] eqn:Hg; [|assumption].
    cbn. apply keyed_set; [assumption|]. cbn. eapply keyed_get_name; eassumption.
  - unfold activateAgent, setStatus. destruct (get m n) as [a|] eqn:Hg; [|assumption].
    cbn. apply keyed_set; [assumption|]. cbn. eapply keyed_get_name; eassumption.
Qed.

Lemma run_keyed (ops : list Op) (m : Registry) : keyed m -> keyed (run ops m).
Proof.
  revert m. induction ops as [|o ops IH]; intros m H; cbn; [assumption|].
  apply IH, step_keyed, H.
Qed.

Lemma reachable_keyed (ops : list Op) : keyed (run ops newManager).
Proof. apply run_keyed. split; constructor. Qed.

(** ** Registration *)

(** X1.  [registerAgent] is an upsert by name: whatever agent the name
    had, with whatever reservations and statistics, the agent stored under
    the name afterwards is the fresh one the call returns, [active], with
    no current task and no history; its capacity is the configured
    [max_concurrent_tasks] as it is given, and 5 when none or 0 is
    configured; it is available at once exactly when that capacity is
    positive; every other name keeps its agent. *)
Theorem registerAgent_replaces_history :
  forall (m : Registry) (uuid : string) (now : nat) (d : AgentData),
    let a := fst (registerAgent m uuid now d) in
    let m' := snd (registerAgent m uuid now d) in
    getAgentByName m' (data_name d) = Some a
    /\ currentTasks a = 0 /\ performance a = noHistory /\ status a = active
    /\ (forall c, configured_capacity d = Some c -> ~ (c == 0)%Q ->
                  maxConcurrentTasks a = c)
    /\ (configured_capacity d = None
        \/ (exists c, configured_capacity d = Some c /\ (c == 0)%Q) ->
        maxConcurrentTasks a = 5%Q)
    /\ (In a (getAvailableAgents m') <-> (0 < maxConcurrentTasks a)%Q)
    /\ (forall n', data_name d <> n' -> getAgentByName m' n' = getAgentByName m n').
Proof.
  intros m uuid now d a m'. subst a m'. cbn [fst snd registerAgent].
  unfold getAgentByName. cbn [name].
  split; [apply AgentRegistryProps.get_set_same|].
  split; [reflexivity|]. split; [reflexivity|]. split; [reflexivity|].
  cbn [maxConcurrentTasks]. unfold configured_capacity, max_or_default.
  split; [|split; [|split]].
  - intros c Hc Hnz. destruct (data_configuration d) as [cfg|]; [|discriminate].
    rewrite Hc. destruct (Qeq_bool c 0) eqn:E; [|reflexivity].
    apply Qeq_bool_iff in E. contradiction.
  - intros [Hnone|(c & Hc & Hz)].
    + destruct (data_configuration d) as [cfg|]; [|reflexivity]. now rewrite Hnone.
    + destruct (data_configuration d) as [cfg|]; [|reflexivity]. rewrite Hc.
      apply Qeq_bool_iff in Hz. now rewrite Hz.
  - unfold getAvailableAgents. rewrite filter_In, AgentSelectorProps.isAvailable_spec.
    cbn [status currentTasks maxConcurrentTasks]. split.
    + intros (_ & _ & H). exact H.
    + intros H. split; [|split; [reflexivity | exact H]].
      unfold values.
      match goal with
      | |- In ?a (map snd (set m ?n ?a)) =>
          exact (in_map snd _ (n, a) (get_In _ _ _ (AgentRegistryProps.get_set_same m n a)))
      end.
  - intros n' Hne. now apply AgentRegistryProps.get_set_other.
Qed.

(** X2.  In every registry the manager can build, the keys are distinct
    and each is the name of the agent stored under it; so looking up the
    name of any listed agent returns that agent. *)
Theorem registry_keys_are_names :
  forall ops : list Op,
    keyed (run ops newManager)
    /\ forall a, In a (getAllAgents (run ops newManager)) ->
                 getAgentByName (run ops newManager) (name a) = Some a.
Proof.
  intros ops. split; [apply reachable_keyed|].
  intros a Hin. apply keyed_lookup; [apply reachable_keyed | exact Hin].
Qed.

(** ** Selection and reservation together *)

Lemma selected_is_available (m : Registry) (task : string) (c : Passed ProjectContext)
    (a : Agent) :
  selectBestAgent m task c = Ok a -> In a (getAvailableAgents m).
Proof. apply AgentSelectorProps.selectBestAgent_in_available. Qed.

(** X3.  In a registry the manager built, the agent [selectBestAgent]
    returns can be reserved: [assignTaskToAgent] with its name returns the
    agent with one task more.  Its load is then below its capacity plus
    one, and within its capacity when that is a count. *)
Theorem selected_agent_can_be_reserved :
  forall (ops : list Op) (task t : string) (c : Passed ProjectContext) (now : nat)
         (a : Agent),
    selectBestAgent (run ops newManager) task c = Ok a ->
    exists a',
      fst (assignTaskToAgent (run ops newManager) (name a) t now) = Ok a'
      /\ getAgentByName (snd (assignTaskToAgent (run ops newManager) (name a) t now)) (name a)
         = Some a'
      /\ currentTasks a' = currentTasks a + 1
      /\ (inject_Z (currentTasks a') < maxConcurrentTasks a' + 1)%Q
      /\ (capacity_is_count a -> capacity_ok a').
Proof.
  intros ops task t c now a Hsel.
  apply selected_is_available in Hsel. unfold getAvailableAgents in Hsel.
  apply filter_In in Hsel. destruct Hsel as [Hin Hav].
  apply AgentSelectorProps.isAvailable_spec in Hav. destruct Hav as [_ Hlt].
  pose proof (keyed_lookup _ _ (reachable_keyed ops) Hin) as Hg.
  pose proof (AgentRegistryProps.reachable_ok ops) as Hok.
  rewrite List.Forall_forall in Hok. destruct (Hok a Hin) as ((Hpos & _) & _).
  unfold assignTaskToAgent, getAgentByName. rewrite Hg.
  destruct (AgentRegistryProps.Qle_bool_cases (maxConcurrentTasks a)
              (inject_Z (currentTasks a))) as [[-> Hge]|[-> _]];
    [exfalso; eapply Qlt_irrefl, Qlt_le_trans; eassumption|].
  eexists. split; [reflexivity|]. cbn [snd].
  split; [apply AgentRegistryProps.get_set_same|]. cbn.
  split; [reflexivity|].
  assert (inject_Z (currentTasks a + 1) < maxConcurrentTasks a + 1)%Q as Hnext
    by (rewrite AgentRegistryProps.inject_Z_succ; lra).
  split; [exact Hnext|].
  intros Hcount. apply AgentRegistryProps.load_within_count; [|exact Hcount].
  split; cbn; [lia | right; exact Hnext].
Qed.

(** The ceiling of [x] is the integer [c] with [c - 1 < x <= c]. *)
Lemma Qceiling_unique (x : Q) (c : Z) :
  (inject_Z (c - 1) < x)%Q -> (x <= inject_Z c)%Q -> Qceiling x = c.
Proof.
  intros Hlo Hhi.
  pose proof (Qle_ceiling x) as H1. pose proof (Qceiling_lt x) as H2.
  assert (inject_Z (c - 1) < inject_Z (Qceiling x))%Q as A by lra.
  assert (inject_Z (Qceiling x - 1) < inject_Z c)%Q as B by lra.
  rewrite <- Zlt_Qlt in A, B. lia.
Qed.

Lemma Qceiling_nonpos (x : Q) : (x <= 0)%Q -> Qceiling x <= 0.
Proof.
  intros Hx. pose proof (Qceiling_lt x) as H.
  assert (inject_Z (Qceiling x - 1) < inject_Z 0)%Q as A
    by (change (inject_Z 0) with 0%Q; lra).
  rewrite <- Zlt_Qlt in A. lia.
Qed.

Lemma Qceiling_pos (x : Q) : (0 < x)%Q -> 1 <= Qceiling x.
Proof.
  intros Hx. pose proof (Qle_ceiling x) as H.
  assert (inject_Z 0 < inject_Z (Qceiling x))%Q as A
    by (change (inject_Z 0) with 0%Q; lra).
  rewrite <- Zlt_Qlt in A. lia.
Qed.

Lemma Qceiling_pred (x : Q) : Qceiling (x - 1) = Qceiling x - 1.
Proof.
  assert (forall z, (inject_Z (z - 1) == inject_Z z - 1)%Q) as Hm
    by (intros z; unfold Z.sub; rewrite inject_Z_plus; reflexivity).
  pose proof (Qle_ceiling x) as H1. pose proof (Qceiling_lt x) as H2.
  pose proof (Qle_ceiling (x - 1)) as H3. pose proof (Qceiling_lt (x - 1)) as H4.
  rewrite Hm in H2, H4.
  assert (inject_Z (Qceiling (x - 1)) < inject_Z (Qceiling x))%Q as A by lra.
  assert (inject_Z (Qceiling x) - 1 < inject_Z (Qceiling (x - 1)) + 1)%Q as B by lra.
  rewrite <- Hm, <- (AgentRegistryProps.inject_Z_succ (Qceiling (x - 1))) in B.
  rewrite <- Zlt_Qlt in A, B. lia.
Qed.

(** X4.  An agent accepts exactly as many further reservations as there
    are tasks it can take below its capacity, [free_slots]: the ceiling of
    [maxConcurrentTasks - currentTasks], or none when that is not positive.
    Of [k] consecutive calls of [assignTaskToAgent] that many return (all
    [k] when [k] is smaller), the others throw, and the load ends that
    many higher. *)
Theorem reservations_fill_the_capacity :
  forall (k : nat) (m : Registry) (n : string) (now : nat) (a : Agent),
    get m n = Some a ->
    Z.of_nat (fst (reserve_n k m n now)) = Z.min (Z.of_nat k) (free_slots a)
    /\ exists a',
         get (snd (reserve_n k m n now)) n = Some a'
         /\ currentTasks a' = currentTasks a + Z.min (Z.of_nat k) (free_slots a)
         /\ maxConcurrentTasks a' = maxConcurrentTasks a.
Proof.
  induction k as [|k IH]; intros m n now a Hg.
  - cbn [reserve_n fst snd]. unfold free_slots.
    split; [lia|]. exists a. repeat split; [assumption | lia].
  - cbn [reserve_n]. unfold assignTaskToAgent. rewrite Hg.
    destruct (AgentRegistryProps.Qle_bool_cases (maxConcurrentTasks a)
                (inject_Z (currentTasks a))) as [[-> Hge]|[-> Hlt]].
    + destruct (IH m n now a Hg) as (Hc & a' & Hg' & Hcur & Hmax).
      assert (free_slots a = 0) as Hfree.
      { unfold free_slots.
        pose proof (Qceiling_nonpos (maxConcurrentTasks a - inject_Z (currentTasks a))
                      ltac:(lra)). lia. }
      rewrite Hfree in *.
      split; [lia|]. exists a'. repeat split; [assumption | lia | assumption].
    + set (a1 := with_currentTasks a (currentTasks a + 1) now).
      assert (get (set m n a1) n = Some a1) as Hg1
          by apply AgentRegistryProps.get_set_same.
      destruct (IH (set m n a1) n now a1 Hg1) as (Hc & a' & Hg' & Hcur & Hmax).
      assert (free_slots a1 = free_slots a - 1 /\ 1 <= free_slots a) as [Hfree Hone].
      { unfold free_slots. cbn [a1 with_currentTasks currentTasks maxConcurrentTasks].
        pose proof (Qceiling_pos (maxConcurrentTasks a - inject_Z (currentTasks a))
                      ltac:(lra)) as Hp.
        assert (Qceiling (maxConcurrentTasks a - inject_Z (currentTasks a + 1))
                = Qceiling (maxConcurrentTasks a - inject_Z (currentTasks a)) - 1) as ->.
        { rewrite <- Qceiling_pred. apply Qceiling_comp.
          rewrite AgentRegistryProps.inject_Z_succ. ring. }
        lia. }
      destruct (reserve_n k (set m n a1) n now) as [c m''] eqn:E.
      cbn [fst snd] in *. cbn [a1 with_currentTasks currentTasks maxConcurrentTasks] in Hcur, Hmax.
      rewrite Hfree in *.
      split; [lia|]. exists a'. repeat split; [assumption | lia | assumption].
Qed.

(** X5.  A release after a successful reservation brings the load back to
    what it was and counts one task.  A release of an idle agent, which
    has no reservation to give back, leaves the load at 0 and counts a task
    all the same. *)
Theorem release_gives_the_reservation_back :
  forall (m : Registry) (n t : string) (s : bool) (now1 now2 : nat) (a : Agent),
    get m n = Some a ->
    (0 <= currentTasks a /\ (inject_Z (currentTasks a) < maxConcurrentTasks a)%Q ->
     exists a',
       get (releaseTaskFromAgent (snd (assignTaskToAgent m n t now1)) n t s now2) n = Some a'
       /\ currentTasks a' = currentTasks a
       /\ totalTasks (performance a') = totalTasks (performance a) + 1)
    /\ (currentTasks a = 0 ->
        exists a',
          get (releaseTaskFromAgent m n t s now2) n = Some a'
          /\ currentTasks a' = 0
          /\ totalTasks (performance a') = totalTasks (performance a) + 1).
Proof.
  intros m n t s now1 now2 a Hg. split.
  - intros [Hpos Hlt]. unfold assignTaskToAgent. rewrite Hg.
    destruct (AgentRegistryProps.Qle_bool_cases (maxConcurrentTasks a)
                (inject_Z (currentTasks a))) as [[-> Hge]|[-> _]];
      [exfalso; eapply Qlt_irrefl, Qlt_le_trans; eassumption|].
    cbn [snd]. unfold releaseTaskFromAgent. rewrite AgentRegistryProps.get_set_same.
    eexists. split; [apply AgentRegistryProps.get_set_same|]. cbn. split; lia.
  - intros H0. unfold releaseTaskFromAgent. rewrite Hg.
    eexists. split; [apply AgentRegistryProps.get_set_same|]. cbn. split; lia.
Qed.

(** ** Activation *)

Lemma available_is_active (m : Registry) (a : Agent) :
  In a (getAvailableAgents m) -> status a = active.
Proof.
  unfold getAvailableAgents. intros H. apply filter_In in H. destruct H as [_ H].
  now apply AgentSelectorProps.isAvailable_spec in H.
Qed.

(** X6.  [deactivateAgent] of a registered agent sets its status to
    [inactive] and keeps its load, capacity and statistics; the agent is
    then not among the available agents and no selection returns it.  A
    reservation does not look at the status: [assignTaskToAgent] still
    reserves the inactive agent while it has capacity.  For an unknown name
    [deactivateAgent] throws [NotFound] and changes nothing. *)
Theorem deactivated_agent_is_not_selected :
  forall (m : Registry) (n : string) (now : nat),
    (forall a, get m n = Some a ->
       exists a',
         deactivateAgent m n now = (Ok tt, set m n a')
         /\ get (snd (deactivateAgent m n now)) n = Some a'
         /\ status a' = inactive
         /\ currentTasks a' = currentTasks a
         /\ maxConcurrentTasks a' = maxConcurrentTasks a
         /\ performance a' = performance a
         /\ ~ In a' (getAvailableAgents (snd (deactivateAgent m n now)))
         /\ (forall task c, selectBestAgent (snd (deactivateAgent m n now)) task c <> Ok a')
         /\ ((inject_Z (currentTasks a) < maxConcurrentTasks a)%Q ->
             forall t now',
             exists a'',
               fst (assignTaskToAgent (snd (deactivateAgent m n now)) n t now') = Ok a''
               /\ status a'' = inactive
               /\ currentTasks a'' = currentTasks a + 1))
    /\ (get m n = None -> deactivateAgent m n now = (Throw NotFound, m)).
Proof.
  intros m n now. unfold deactivateAgent, setStatus. split.
  - intros a Hg. rewrite Hg. cbn [fst snd].
    exists (with_status a inactive now).
    split; [reflexivity|]. split; [apply AgentRegistryProps.get_set_same|].
    repeat split.
    + intros Hin. apply available_is_active in Hin. discriminate.
    + intros task c Hsel. apply selected_is_available, available_is_active in Hsel.
      discriminate.
    + intros Hlt t now'. unfold assignTaskToAgent.
      rewrite AgentRegistryProps.get_set_same.
      cbn [with_status currentTasks maxConcurrentTasks].
      destruct (AgentRegistryProps.Qle_bool_cases (maxConcurrentTasks a)
                  (inject_Z (currentTasks a))) as [[-> Hge]|[-> _]];
        [exfalso; eapply Qlt_irrefl, Qlt_le_trans; eassumption|].
      eexists. cbn. repeat split.
  - intros Hg. now rewrite Hg.
Qed.

(** X7.  Deactivating an active agent and activating it again amounts to
    one heartbeat: the registry is the one [updateAgentHeartbeat] gives at
    the time of the activation, so load, capacity, statistics and
    availability are what they were. *)
Theorem activate_after_deactivate_is_a_heartbeat :
  forall (m : Registry) (n : string) (now1 now2 : nat) (a : Agent),
    get m n = Some a ->
    status a = active ->
    snd (activateAgent (snd (deactivateAgent m n now1)) n now2)
    = updateAgentHeartbeat m n now2.
Proof.
  intros m n now1 now2 a Hg Hact.
  unfold activateAgent, deactivateAgent, setStatus, updateAgentHeartbeat.
  rewrite Hg. cbn [snd]. rewrite AgentRegistryProps.get_set_same. cbn [snd].
  rewrite set_set. f_equal.
  destruct a. cbn in *. subst. reflexivity.
Qed.

(** ** Configuration *)

(** X8.  [updateAgentConfiguration] of a registered agent stores and
    returns the old configuration overridden by the fields the new one
    has (applying the same update twice changes nothing more), and
    [getAgentConfiguration] then returns it; but the capacity
    [maxConcurrentTasks] the reservations use is not touched: after an
    update that sets [max_concurrent_tasks] the configuration shows the
    new value and the capacity is the old one.  Load, statistics and
    availability stay.  For an unknown name it throws [NotFound] and
    changes nothing. *)
Theorem configuration_update_keeps_capacity :
  forall (m : Registry) (n : string) (c : Configuration) (now : nat),
    (forall a, get m n = Some a ->
       exists a',
         updateAgentConfiguration m n c now
         = (Ok (mergeConfiguration (configuration a) c), set m n a')
         /\ getAgentConfiguration (snd (updateAgentConfiguration m n c now)) n
            = Some (mergeConfiguration (configuration a) c)
         /\ get (snd (updateAgentConfiguration m n c now)) n = Some a'
         /\ maxConcurrentTasks a' = maxConcurrentTasks a
         /\ currentTasks a' = currentTasks a
         /\ performance a' = performance a
         /\ isAvailable a' = isAvailable a
         /\ (forall v, max_concurrent_tasks c = Some v ->
                       max_concurrent_tasks (configuration a') = Some v)
         /\ (max_concurrent_tasks c = None ->
             max_concurrent_tasks (configuration a') = max_concurrent_tasks (configuration a))
         /\ mergeConfiguration (configuration a') c = configuration a')
    /\ (get m n = None -> updateAgentConfiguration m n c now = (Throw NotFound, m)).
Proof.
  intros m n c now. unfold updateAgentConfiguration, getAgentConfiguration. split.
  - intros a Hg. rewrite Hg. cbn [snd].
    exists (with_configuration a (mergeConfiguration (configuration a) c) now).
    rewrite AgentRegistryProps.get_set_same. cbn.
    repeat split.
    + intros v Hv. now rewrite Hv.
    + intros Hv. now rewrite Hv.
    + unfold mergeConfiguration, spread. cbn.
      destruct c as [e mx pl sp]. cbn. now destruct e, mx, pl, sp.
  - intros Hg. now rewrite Hg.
Qed.

(** ** Ratios of counters *)

Lemma ratio_bounds (c m : Z) :
  0 <= c <= m -> 1 <= m -> (0 <= inject_Z c / inject_Z m <= 1)%Q.
Proof.
  intros Hc Hm.
  assert (0 < inject_Z m)%Q as Hpos
      by (change 0%Q with (inject_Z 0); rewrite <- Zlt_Qlt; lia).
  split.
  - apply Qle_shift_div_l; [assumption|]. rewrite Qmult_0_l.
    change 0%Q with (inject_Z 0). rewrite <- Zle_Qle. lia.
  - apply Qle_shift_div_r; [assumption|]. rewrite Qmult_1_l.
    rewrite <- Zle_Qle. lia.
Qed.

Lemma load_ratio_bounds (c : Z) (m : Q) :
  0 <= c -> (inject_Z c < m)%Q -> (0 <= inject_Z c / m < 1)%Q.
Proof.
  intros Hc Hlt.
  assert (0 <= inject_Z c)%Q as Hpos
      by (change 0%Q with (inject_Z 0); rewrite <- Zle_Qle; lia).
  assert (0 < m)%Q as Hm by lra.
  split.
  - apply Qle_shift_div_l; [assumption|]. lra.
  - apply Qlt_shift_div_r; [assumption|]. lra.
Qed.

(** ** The status report *)

(** X9.  In the report [formatAgentStatus] builds, [isAvailable] is true
    exactly for the agents [getAvailableAgents] lists; in a registry the
    manager built, the [loadPercentage] of an available agent is at least
    0 and below 100, whatever its capacity.  [getAgentStatus] answers
    [null] for a name that is not registered, and the reports of all
    agents, in registry order, when it is given no name or the empty
    name. *)
Theorem agent_status_report :
  (forall (m : Registry) (a : Agent),
      In a (values m) ->
      (status_isAvailable (formatAgentStatus a) = true <-> In a (getAvailableAgents m)))
  /\ (forall ops : list Op,
        Forall (fun a =>
                  status_isAvailable (formatAgentStatus a) = true ->
                  (0 <= loadPercentage (formatAgentStatus a) < 100)%Q)
               (values (run ops newManager)))
  /\ (forall (m : Registry) (n : string),
        n <> "" -> get m n = None -> getAgentStatus m (Some n) = OneStatus None)
  /\ (forall m : Registry,
        getAgentStatus m (Some "") = getAgentStatus m None
        /\ exists l, getAgentStatus m None = AllStatuses l
                     /\ map status_name l = map name (values m)).
Proof.
  split; [|split; [|split]].
  - intros m a Hin. cbn [status_isAvailable formatAgentStatus].
    unfold getAvailableAgents. rewrite filter_In. unfold isAvailable. tauto.
  - intros ops. pose proof (AgentRegistryProps.reachable_ok ops) as H.
    induction H as [|a l Ha _ IH]; constructor; [|exact IH].
    destruct Ha as ((Hpos & _) & _).
    cbn [loadPercentage status_isAvailable formatAgentStatus].
    intros Hav. apply andb_true_iff in Hav. destruct Hav as [_ Hlt].
    apply AgentRegistryProps.Qltb_lt in Hlt.
    pose proof (load_ratio_bounds _ _ Hpos Hlt) as [Hlo Hhi].
    revert Hlo Hhi. generalize (inject_Z (currentTasks a) / maxConcurrentTasks a)%Q.
    intros r Hlo Hhi. split; lra.
  - intros m n Hne Hg. unfold getAgentStatus.
    destruct (String.eqb_spec n ""); [contradiction|]. now rewrite Hg.
  - intros m. split; [reflexivity|]. eexists. split; [reflexivity|].
    rewrite map_map. reflexivity.
Qed.

(** ** Bounds *)

Lemma agent_ok_rate_bounds (a : Agent) :
  agent_ok a -> (0 <= successRate (performance a) <= 1)%Q.
Proof.
  intros (_ & (Hc & Hf & Ht) & (Hpos & Hzero)).
  destruct (Z.eq_dec (totalTasks (performance a)) 0) as [E|E].
  - rewrite (Hzero E). split; lra.
  - rewrite Hpos by lia. apply ratio_bounds; lia.
Qed.

(** X10.  In every registry the manager can build, the success rate of
    every agent lies between 0 and 1. *)
Theorem successRate_between_0_and_1 :
  forall ops : list Op,
    Forall (fun a => (0 <= successRate (performance a) <= 1)%Q)
           (values (run ops newManager)).
Proof.
  intros ops. pose proof (AgentRegistryProps.reachable_ok ops) as H.
  induction H as [|a l Ha _ IH]; constructor; [|exact IH].
  now apply agent_ok_rate_bounds.
Qed.

(** ** What a selection reads *)

Lemma sort_insert_Forall2 {A : Type} (after : A -> A -> bool) (R : A -> A -> Prop) :
  (forall x x' y y', R x x' -> R y y' -> after x y = after x' y') ->
  forall l l' x x',
    R x x' -> Forall2 R l l' ->
    Forall2 R (JS.sort_insert after x l) (JS.sort_insert after x' l').
Proof.
  intros Hafter l l' x x' Hx Hl.
  induction Hl as [|y y' l l' Hy Hl IH]; cbn.
  - repeat constructor. exact Hx.
  - rewrite (Hafter x x' y y' Hx Hy).
    destruct (after x' y'); repeat constructor; assumption.
Qed.

Lemma sort_Forall2 {A : Type} (after : A -> A -> bool) (R : A -> A -> Prop) :
  (forall x x' y y', R x x' -> R y y' -> after x y = after x' y') ->
  forall l l', Forall2 R l l' -> Forall2 R (JS.sort after l) (JS.sort after l').
Proof.
  intros Hafter l l' Hl.
  induction Hl as [|y y' l l' Hy Hl IH]; cbn; [constructor|].
  now apply sort_insert_Forall2.
Qed.

Lemma filter_Forall2 {A : Type} (f : A -> bool) (R : A -> A -> Prop) :
  (forall x x', R x x' -> f x = f x') ->
  forall l l', Forall2 R l l' -> Forall2 R (List.filter f l) (List.filter f l').
Proof.
  intros Hf l l' Hl.
  induction Hl as [|y y' l l' Hy Hl IH]; cbn; [constructor|].
  rewrite (Hf y y' Hy). destruct (f y'); [constructor|]; assumption.
Qed.

Lemma same_for_selection_refl (a : Agent) : same_for_selection a a.
Proof. repeat split. Qed.

Lemma same_for_selection_available (a b : Agent) :
  same_for_selection a b -> isAvailable a = isAvailable b.
Proof.
  intros (_ & Hs & _ & _ & Hc & Hm & _). unfold isAvailable. now rewrite Hs, Hc, Hm.
Qed.

Lemma same_for_selection_score (task : string) (c : ProjectContext) (a b : Agent) :
  same_for_selection a b -> scoreAgent task c a = scoreAgent task c b.
Proof.
  intros (_ & _ & Hcap & Hcfg & Hc & Hm & Hp). unfold scoreAgent.
  now rewrite Hcap, Hcfg, Hc, Hm, Hp.
Qed.

Lemma select_respects (m m' : Registry) (task : string) (c : Passed ProjectContext) :
  Forall2 same_for_selection (values m) (values m') ->
  same_selection (selectBestAgent m task c) (selectBestAgent m' task c).
Proof.
  intros Hv. unfold selectBestAgent, getAvailableAgents.
  pose proof (filter_Forall2 isAvailable same_for_selection
                same_for_selection_available _ _ Hv) as Hav.
  destruct Hav as [|x x' l l' Hx Hl]; [reflexivity|].
  cbn [length Nat.eqb].
  destruct (defaulted c) as [ctx|]; [|reflexivity].
  set (R := fun p q : Agent * JS.number => same_for_selection (fst p) (fst q) /\ snd p = snd q).
  assert (Forall2 R (map (fun agent => (agent, scoreAgent task ctx agent)) (x :: l))
                    (map (fun agent => (agent, scoreAgent task ctx agent)) (x' :: l')))
    as Hscored.
  { assert (Forall2 same_for_selection (x :: l) (x' :: l')) as H by now constructor.
    clear -H. induction H as [|y y' k k' Hy Hk IH]; cbn; constructor; [|exact IH].
    split; [exact Hy | now apply same_for_selection_score]. }
  assert (forall p p' q q', R p p' -> R q q' -> score_after p q = score_after p' q')
    as Hafter.
  { intros p p' q q' [_ Hp] [_ Hq]. unfold score_after. now rewrite Hp, Hq. }
  pose proof (sort_Forall2 score_after R Hafter _ _ Hscored) as Hsorted.
  destruct Hsorted as [|p p' s s' [Hp _] _]; [reflexivity | exact Hp].
Qed.

Lemma set_values_Forall2 (R : Agent -> Agent -> Prop) (m : Registry) (n : string)
    (a a' : Agent) :
  (forall x, R x x) -> get m n = Some a -> R a a' ->
  Forall2 R (values m) (values (set m n a')).
Proof.
  intros Hrefl Hg Ha. induction m as [|[k b] m IH]; cbn in *; [discriminate|].
  destruct (String.eqb k n); cbn.
  - injection Hg as ->. constructor; [exact Ha|].
    clear -Hrefl. induction m as [|[k' b'] m IH]; cbn; constructor; auto.
  - constructor; auto.
Qed.

(** X12.  A selection reads of an agent only its status, load, capacity,
    statistics, capabilities and configuration: two registries whose
    agents agree on these, one by one, give the same outcome, the same
    error or agents that agree on these and on the name.  In particular
    a heartbeat never changes which agent is selected. *)
Theorem selection_ignores_heartbeats :
  (forall (m m' : Registry) (task : string) (c : Passed ProjectContext),
      Forall2 same_for_selection (values m) (values m') ->
      same_selection (selectBestAgent m task c) (selectBestAgent m' task c))
  /\ (forall (m : Registry) (n : string) (now : nat) (task : string)
             (c : Passed ProjectContext),
        same_selection (selectBestAgent m task c)
                       (selectBestAgent (updateAgentHeartbeat m n now) task c)).
Proof.
  split; [exact select_respects|].
  intros m n now task c. apply select_respects. unfold updateAgentHeartbeat.
  destruct (get m n) as [a|] eqn:Hg.
  - eapply set_values_Forall2; [exact same_for_selection_refl | exact Hg |].
    repeat split.
  - clear. induction (values m); constructor; auto using same_for_selection_refl.
Qed.

(** ** The task domain *)

(** X13.  [determineTaskType] of the agent manager returns the domain of
    the first row of the domain table, in the order web, api,
    microservices, mobile, data, one of whose triggers occurs in the
    lower-cased description, and [general_development] when no row
    matches; so it returns one of six domains, and a description in which
    a trigger of the first row occurs is a web task whatever else occurs
    in it. *)
Theorem determineTaskType_first_row_wins :
  forall task : string,
    determineTaskType task
    = match first_domain task domain_table with
      | Some domain => domain
      | None => "general_development"
      end
    /\ In (determineTaskType task)
          ["web_development"; "api_development"; "microservices";
           "mobile_development"; "data_science"; "general_development"]
    /\ (existsb (JS.includes (JS.toLowerCase task)) ["web"; "frontend"; "react"; "vue"] = true
        -> determineTaskType task = "web_development").
Proof.
  intros task.
  unfold determineTaskType, first_domain, domain_table. cbv zeta.
  cbn [existsb]. rewrite ?orb_false_r, ?orb_assoc.
  repeat match goal with
         | |- context [if ?b then _ else _] => destruct b
         end;
    (split; [reflexivity|]); (split; [cbn; tauto | intros H; try reflexivity; discriminate]).
Qed.

(** ** The theorems of this part, at [devin] *)

(** Registering [devin] again while its three slots are taken. *)
Lemma registerAgent_replaces_history_witness :
  currentTasks (fst (registerAgent devinFull "id-devin-2" 9%nat devin)) = 0
  /\ getAgentByName (snd (registerAgent devinFull "id-devin-2" 9%nat devin)) "cursor"
     = getAgentByName devinFull "cursor".
Proof.
  pose proof (registerAgent_replaces_history devinFull "id-devin-2" 9%nat devin) as H.
  cbv zeta in H. destruct H as (_ & H0 & _ & _ & _ & _ & _ & Hother).
  split; [exact H0 | apply Hother; cbn; discriminate].
Defined.

Lemma registry_keys_are_names_witness :
  In devinAgent (getAllAgents (run devinTwoTasksOps newManager))
  /\ getAgentByName (run devinTwoTasksOps newManager) (name devinAgent) = Some devinAgent.
Proof.
  assert (In devinAgent (getAllAgents (run devinTwoTasksOps newManager))) as Hin
    by (vm_compute; left; reflexivity).
  split; [exact Hin|].
  exact (proj2 (registry_keys_are_names devinTwoTasksOps) devinAgent Hin).
Defined.

Lemma selected_agent_can_be_reserved_witness :
  selectBestAgent (run devinOnlyOps newManager) "build the login page" Undefined = Ok devinIdle
  /\ exists a',
       fst (assignTaskToAgent (run devinOnlyOps newManager) (name devinIdle) "t1" 1%nat) = Ok a'
       /\ currentTasks a' = currentTasks devinIdle + 1
       /\ capacity_ok a'.
Proof.
  assert (selectBestAgent (run devinOnlyOps newManager) "build the login page" Undefined
          = Ok devinIdle) as Hsel by (vm_compute; reflexivity).
  split; [exact Hsel|].
  destruct (selected_agent_can_be_reserved devinOnlyOps "build the login page" "t1" Undefined
              1%nat devinIdle Hsel) as (a' & Ha & _ & Hcur & _ & Hcount).
  exists a'. split; [exact Ha|]. split; [exact Hcur|].
  apply Hcount. exists 3. split; [lia | reflexivity].
Defined.

(** Five reservations of [devin], which has three slots. *)
Lemma reservations_fill_the_capacity_witness :
  get devinOnly "devin" = Some devinIdle
  /\ free_slots devinIdle = 3
  /\ Z.of_nat (fst (reserve_n 5 devinOnly "devin" 1%nat)) = Z.min (Z.of_nat 5) (free_slots devinIdle).
Proof.
  assert (get devinOnly "devin" = Some devinIdle) as Hg by reflexivity.
  split; [exact Hg|]. split; [reflexivity|].
  exact (proj1 (reservations_fill_the_capacity 5 devinOnly "devin" 1%nat devinIdle Hg)).
Defined.

(** A release after a reservation of [devin] with two tasks, and a release
    of the idle [devin]. *)
Lemma release_gives_the_reservation_back_witness :
  (exists a',
     get (releaseTaskFromAgent (snd (assignTaskToAgent devinTwoTasks "devin" "t3" 2%nat))
            "devin" "t3" true 3%nat) "devin" = Some a'
     /\ currentTasks a' = currentTasks devinAgent
     /\ totalTasks (performance a') = totalTasks (performance devinAgent) + 1)
  /\ (exists a',
        get (releaseTaskFromAgent devinOnly "devin" "t0" false 3%nat) "devin" = Some a'
        /\ currentTasks a' = 0
        /\ totalTasks (performance a') = totalTasks (performance devinIdle) + 1).
Proof.
  split.
  - apply (proj1 (release_gives_the_reservation_back devinTwoTasks "devin" "t3" true
                    2%nat 3%nat devinAgent eq_refl)).
    split; [vm_compute; discriminate | vm_compute; reflexivity].
  - apply (proj2 (release_gives_the_reservation_back devinOnly "devin" "t0" false
                    2%nat 3%nat devinIdle eq_refl)).
    reflexivity.
Defined.

Lemma deactivated_agent_is_not_selected_witness :
  (exists a',
     get (snd (deactivateAgent devinOnly "devin" 5%nat)) "devin" = Some a'
     /\ status a' = inactive
     /\ selectBestAgent (snd (deactivateAgent devinOnly "devin" 5%nat))
          "build the login page" Undefined <> Ok a'
     /\ exists a'',
          fst (assignTaskToAgent (snd (deactivateAgent devinOnly "devin" 5%nat))
                 "devin" "t1" 6%nat) = Ok a''
          /\ status a'' = inactive)
  /\ deactivateAgent devinOnly "cursor" 5%nat = (Throw NotFound, devinOnly).
Proof.
  split.
  - destruct (proj1 (deactivated_agent_is_not_selected devinOnly "devin" 5%nat)
                devinIdle eq_refl)
      as (a' & _ & Hget & Hst & _ & _ & _ & _ & Hsel & Hres).
    exists a'. split; [exact Hget|]. split; [exact Hst|]. split; [apply Hsel|].
    destruct (Hres ltac:(vm_compute; reflexivity) "t1" 6%nat) as (a'' & H1 & H2 & _).
    exists a''. split; assumption.
  - apply (proj2 (deactivated_agent_is_not_selected devinOnly "cursor" 5%nat)).
    reflexivity.
Defined.

Lemma activate_after_deactivate_is_a_heartbeat_witness :
  snd (activateAgent (snd (deactivateAgent devinOnly "devin" 5%nat)) "devin" 6%nat)
  = updateAgentHeartbeat devinOnly "devin" 6%nat.
Proof.
  apply (activate_after_deactivate_is_a_heartbeat devinOnly "devin" 5%nat 6%nat devinIdle);
    reflexivity.
Defined.

(** Raising [max_concurrent_tasks] of [devin] from 3 to 10. *)
Lemma configuration_update_keeps_capacity_witness :
  (exists a',
     get (snd (updateAgentConfiguration devinOnly "devin" raiseCap 5%nat)) "devin" = Some a'
     /\ max_concurrent_tasks (configuration a') = Some 10%Q
     /\ maxConcurrentTasks a' = maxConcurrentTasks devinIdle)
  /\ updateAgentConfiguration devinOnly "cursor" raiseCap 5%nat = (Throw NotFound, devinOnly).
Proof.
  split.
  - destruct (proj1 (configuration_update_keeps_capacity devinOnly "devin" raiseCap 5%nat)
                devinIdle eq_refl)
      as (a' & _ & _ & Hget & Hcap & _ & _ & _ & Hnew & _).
    exists a'. split; [exact Hget|]. split; [apply Hnew; reflexivity | exact Hcap].
  - apply (proj2 (configuration_update_keeps_capacity devinOnly "cursor" raiseCap 5%nat)).
    reflexivity.
Defined.

Lemma agent_status_report_witness :
  (status_isAvailable (formatAgentStatus devinBusy) = true
   <-> In devinBusy (getAvailableAgents devinFull))
  /\ getAgentStatus devinOnly (Some "cursor") = OneStatus None.
Proof.
  destruct agent_status_report as (Havail & _ & Hnull & _).
  split.
  - apply Havail. vm_compute. left. reflexivity.
  - apply Hnull; [discriminate | reflexivity].
Defined.

Lemma selection_ignores_heartbeats_witness :
  same_selection
    (selectBestAgent devinOnly "build the login page" Undefined)
    (selectBestAgent (updateAgentHeartbeat devinOnly "devin" 7%nat) "build the login page" Undefined).
Proof.
  apply (proj1 selection_ignores_heartbeats).
  vm_compute. constructor; [|constructor]. repeat split.
Defined.

Lemma determineTaskType_first_row_wins_witness :
  determineTaskType "A React app with a data pipeline" = "web_development".
Proof.
  apply (proj2 (proj2 (determineTaskType_first_row_wins "A React app with a data pipeline"))).
  vm_compute. reflexivity.
Defined.

End RegistryMoreProps.

(** * More properties of the orchestration service *)

Module ServiceMoreProps.
Import AgentManager OrchestrationService Spec.

(** ** Task types and capabilities *)

Lemma push_if_keeps (b : bool) (items arr : list string) (x : string) :
  In x arr -> In x (push_if b items arr).
Proof. intros H. destruct b; cbn; [apply in_or_app; now left | assumption]. Qed.

Lemma push_if_adds (items arr : list string) (x : string) :
  In x items -> In x (push_if true items arr).
Proof. intros H. cbn. apply in_or_app. now right. Qed.

Lemma test_requires_testing (task : string) :
  JS.includes (JS.toLowerCase task) "test" = true ->
  In "testing" (extractRequiredCapabilities task).
Proof.
  intros H. unfold extractRequiredCapabilities. cbv zeta. rewrite H. cbn [orb].
  do 7 apply push_if_keeps. apply push_if_adds. now left.
Qed.

Lemma deploy_requires_deployment (task : string) :
  JS.includes (JS.toLowerCase task) "deploy" = true ->
  In "deployment" (extractRequiredCapabilities task).
Proof.
  intros H. unfold extractRequiredCapabilities. cbv zeta. rewrite H. cbn [orb].
  do 6 apply push_if_keeps. apply push_if_adds. now left.
Qed.

Lemma fix_requires_debugging (task : string) :
  JS.includes (JS.toLowerCase task) "fix" || JS.includes (JS.toLowerCase task) "debug" = true ->
  In "debugging" (extractRequiredCapabilities task).
Proof.
  intros H. rewrite orb_comm in H. unfold extractRequiredCapabilities. cbv zeta.
  rewrite H. do 5 apply push_if_keeps. apply push_if_adds. now left.
Qed.

Lemma refactor_requires_refactoring (task : string) :
  JS.includes (JS.toLowerCase task) "refactor" = true ->
  In "refactoring" (extractRequiredCapabilities task).
Proof.
  intros H. unfold extractRequiredCapabilities. cbv zeta. rewrite H. cbn [orb].
  do 4 apply push_if_keeps. apply push_if_adds. now left.
Qed.

(** X14.  The task type the service stores is one of [build], [test],
    [deploy], [fix], [refactor], [general], and for the types [test],
    [deploy], [fix] and [refactor] the capability of that kind ([testing],
    [deployment], [debugging], [refactoring]) is among the capabilities
    the selection requires for the same description.  For [build] there is
    no such link: "create tests" is a [build] task that requires [testing]
    only. *)
Theorem task_type_agrees_with_capabilities :
  (forall task : string,
      In (OrchestrationService.determineTaskType task)
         ["build"; "test"; "deploy"; "fix"; "refactor"; "general"]
      /\ (OrchestrationService.determineTaskType task = "test" ->
          In "testing" (extractRequiredCapabilities task))
      /\ (OrchestrationService.determineTaskType task = "deploy" ->
          In "deployment" (extractRequiredCapabilities task))
      /\ (OrchestrationService.determineTaskType task = "fix" ->
          In "debugging" (extractRequiredCapabilities task))
      /\ (OrchestrationService.determineTaskType task = "refactor" ->
          In "refactoring" (extractRequiredCapabilities task)))
  /\ OrchestrationService.determineTaskType "create tests" = "build"
  /\ extractRequiredCapabilities "create tests" = ["testing"].
Proof.
  split; [|split; vm_compute; reflexivity].
  intros task. unfold OrchestrationService.determineTaskType. cbv zeta.
  destruct (JS.includes (JS.toLowerCase task) "build"
            || JS.includes (JS.toLowerCase task) "create") eqn:Hbuild.
  { split; [cbn; tauto|]. repeat split; discriminate. }
  destruct (JS.includes (JS.toLowerCase task) "test") eqn:Htest.
  { split; [cbn; tauto|]. repeat split; try discriminate.
    intros _. now apply test_requires_testing. }
  destruct (JS.includes (JS.toLowerCase task) "deploy") eqn:Hdeploy.
  { split; [cbn; tauto|]. repeat split; try discriminate.
    intros _. now apply deploy_requires_deployment. }
  destruct (JS.includes (JS.toLowerCase task) "fix"
            || JS.includes (JS.toLowerCase task) "debug") eqn:Hfix.
  { split; [cbn; tauto|]. repeat split; try discriminate.
    intros _. now apply fix_requires_debugging. }
  destruct (JS.includes (JS.toLowerCase task) "refactor") eqn:Hrefactor.
  { split; [cbn; tauto|]. repeat split; try discriminate.
    intros _. now apply refactor_requires_refactoring. }
  split; [cbn; tauto|]. repeat split; discriminate.
Qed.

(** ** Chatbot messages *)

(** X15.  [extractTaskFromMessage] returns a task exactly for the
    messages whose task type is [build]; the task carries the id drawn,
    the message as its description and the priority [medium].  The message
    is the [message] field, or the [text] field when [message] is absent
    or empty. *)
Theorem chatbot_extracts_build_tasks_only :
  forall (md : MessageData) (uuid : string),
    (extractTaskFromMessage md uuid = None
     <-> OrchestrationService.determineTaskType (messageOf md) <> "build")
    /\ (forall t, extractTaskFromMessage md uuid = Some t ->
          extracted_id t = uuid
          /\ extracted_description t = messageOf md
          /\ priority (extracted_context t) = Some "medium"
          /\ OrchestrationService.determineTaskType (extracted_description t) = "build")
    /\ (message md = None \/ message md = Some "" ->
        messageOf md = or_string (text md) "").
Proof.
  intros md uuid. unfold extractTaskFromMessage, OrchestrationService.determineTaskType.
  cbv zeta.
  destruct (JS.includes (JS.toLowerCase (messageOf md)) "build"
            || JS.includes (JS.toLowerCase (messageOf md)) "create") eqn:Hb.
  - split; [split; [discriminate | congruence]|]. split.
    + intros t [= <-]. cbn. rewrite Hb. repeat split.
    + intros [H|H]; unfold messageOf; now rewrite H.
  - split; [split; [|reflexivity]|].
    + intros _.
      repeat match goal with |- context [if ?b then _ else _] => destruct b end;
        discriminate.
    + split; [discriminate|].
      intros [H|H]; unfold messageOf; now rewrite H.
Qed.

(** ** Delegation *)

(** With a store that resolves every call, an execution returns what the
    executor returned or throws what it threw, and releases the agent
    once. *)
Lemma execute_with_resolving_store
    (ex : Executors) (db : Database) (agent : Agent) (taskId : string)
    (taskArgs : TaskArgs) (now : nat) (s : State) :
  resolves db ->
  executeTaskWithAgent ex db agent taskId taskArgs now s
  = (dispatch ex agent taskArgs,
     {| registry := releaseTaskFromAgent (registry s) (name agent) taskId
                      (succeeded (dispatch ex agent taskArgs)) now;
        events := events s
                  ++ (if succeeded (dispatch ex agent taskArgs)
                      then [EvExecute (name agent);
                            EvUpdateTaskStatus taskId "completed" 100;
                            EvRelease (name agent) taskId true;
                            EvLogTaskExecution taskId "task_completed"]
                      else [EvExecute (name agent);
                            EvUpdateTaskStatus taskId "failed" 0;
                            EvRelease (name agent) taskId false;
                            EvLogTaskExecution taskId "task_failed"]) |}).
Proof.
  intros Hdb. unfold executeTaskWithAgent, try_catch, bind, db_updateTaskStatus,
    db_logTaskExecution, store_call, lift, emit, release, bind, ret, throw.
  cbn. destruct (dispatch ex agent taskArgs) as [r|e]; cbn.
  - destruct (Hdb taskId "completed") as [-> _].
    destruct (Hdb taskId "task_completed") as [_ ->]. cbn.
    now rewrite <- !app_assoc.
  - destruct (Hdb taskId "failed") as [-> _].
    destruct (Hdb taskId "task_failed") as [_ ->]. cbn.
    now rewrite <- !app_assoc.
Qed.

Lemma chosen_listed (args : DelegateArgs) (m : Registry) (t : string) (a : Agent) :
  chosen args m t = Ok a -> In a (values m).
Proof.
  unfold chosen. destruct (prefers (arg_preferred_agent args)) as [n|].
  - unfold getAgentByName. destruct (get m n) as [b|] eqn:Hg; [|discriminate].
    intros [= <-]. apply RegistryMoreProps.get_In in Hg.
    exact (in_map snd m (n, b) Hg).
  - intros H. apply RegistryMoreProps.selected_is_available in H.
    unfold getAvailableAgents in H. apply filter_In in H. tauto.
Qed.

(** The method up to the reservation: validation, choice of the agent and
    insertion of the row. *)
Lemma delegate_try_chosen
    (ex : Executors) (store : TaskStore) (uuid : string) (now : nat)
    (args : DelegateArgs) (m : Registry) (ev : list Event) (rows : list TaskRow)
    (t : string) :
  arg_task args = Some t -> t <> "" ->
  delegate_try ex store uuid now args (worldOf m ev rows)
  = match chosen args m t with
    | Throw e => (Failed (Thrown e), worldOf m ev rows)
    | Ok a =>
        match createTask store (rowOf uuid args t a) with
        | Some msg => (Failed (Thrown (StoreError msg)), worldOf m ev rows)
        | None =>
            match assignTaskToAgent m (name a) uuid now with
            | (Throw e, m') =>
                (Failed (Thrown e), worldOf m' ev (rows ++ [rowOf uuid args t a]))
            | (Ok a1, m') =>
                dbind (liftM (db_updateTaskStatus (database store) uuid "in_progress" 0))
                  (fun _ =>
                dbind (liftM (db_logTaskExecution (database store) uuid "task_assigned"))
                  (fun _ =>
                dbind (liftM (executeTaskWithAgent ex (database store) a1 uuid
                                (argsOf args t) now))
                  (fun _ =>
                dret (Delegated uuid (name a1) (type a1) t
                                (priorityOf (arg_project_context args))))))
                  (worldOf m' ev (rows ++ [rowOf uuid args t a]))
            end
        end
    end.
Proof.
  intros Ht Hne. unfold delegate_try. rewrite Ht.
  destruct (String.eqb_spec t ""); [contradiction|].
  unfold chosen.
  destruct (prefers (arg_preferred_agent args)) as [p|].
  - unfold dbind at 1 2. unfold dret at 1. unfold onRegistry, liftM at 1.
    cbn [service registry events worldOf taskTable].
    destruct (getAgentByName m p) as [a|]; [|reflexivity].
    unfold dbind at 1. unfold db_createTask. fold (rowOf uuid args t a).
    destruct (createTask store (rowOf uuid args t a)); [reflexivity|].
    unfold dbind at 1. unfold onRegistry, liftM at 1.
    cbn [service registry events worldOf taskTable].
    destruct (assignTaskToAgent m (name a) uuid now) as [[a1|e] m']; reflexivity.
  - unfold dbind at 1 2. unfold dret at 1. unfold onRegistry, liftM at 1.
    cbn [service registry events worldOf taskTable].
    destruct (selectBestAgent m t (arg_project_context args)) as [a|]; [|reflexivity].
    unfold dbind at 1. unfold db_createTask. fold (rowOf uuid args t a).
    destruct (createTask store (rowOf uuid args t a)); [reflexivity|].
    unfold dbind at 1. unfold onRegistry, liftM at 1.
    cbn [service registry events worldOf taskTable].
    destruct (assignTaskToAgent m (name a) uuid now) as [[a1|e] m']; reflexivity.
Qed.

(** X16.  A delegation that cannot start has no effect: without a task
    description (absent or empty), with a preferred agent that is not
    registered, or with no preferred agent and no available agent,
    [delegateToAIBuilder] returns the error report and the registry, the
    events and the task table are as they were. *)
Theorem delegation_rejected_without_effect :
  forall (ex : Executors) (store : TaskStore) (uuid : string) (now : nat)
         (args : DelegateArgs),
    (forall w, arg_task args = None \/ arg_task args = Some "" ->
       delegateToAIBuilder ex store uuid now args w
       = (DelegationError (ValidationError "Task description is required"), w))
    /\ (forall m ev rows t n,
          arg_task args = Some t -> t <> "" ->
          prefers (arg_preferred_agent args) = Some n ->
          getAgentByName m n = None ->
          delegateToAIBuilder ex store uuid now args (worldOf m ev rows)
          = (DelegationError (Thrown NotFound), worldOf m ev rows))
    /\ (forall m ev rows t,
          arg_task args = Some t -> t <> "" ->
          prefers (arg_preferred_agent args) = None ->
          getAvailableAgents m = [] ->
          delegateToAIBuilder ex store uuid now args (worldOf m ev rows)
          = (DelegationError (Thrown NoAvailableAgent), worldOf m ev rows)).
Proof.
  intros ex store uuid now args. split; [|split].
  - intros w [H|H]; unfold delegateToAIBuilder, delegate_try; rewrite H; reflexivity.
  - intros m ev rows t n Ht Hne Hp Hg. unfold delegateToAIBuilder.
    rewrite (delegate_try_chosen _ _ _ _ _ _ _ _ t Ht Hne).
    unfold chosen. now rewrite Hp, Hg.
  - intros m ev rows t Ht Hne Hp Hav. unfold delegateToAIBuilder.
    rewrite (delegate_try_chosen _ _ _ _ _ _ _ _ t Ht Hne).
    unfold chosen. rewrite Hp. unfold selectBestAgent. now rewrite Hav.
Qed.

Lemma chosen_reservable (ops : list Op) (args : DelegateArgs) (t uuid : string)
    (now : nat) (a : Agent) :
  chosen args (run ops newManager) t = Ok a ->
  (inject_Z (currentTasks a) < maxConcurrentTasks a)%Q ->
  assignTaskToAgent (run ops newManager) (name a) uuid now
  = (Ok (with_currentTasks a (currentTasks a + 1) now),
     set (run ops newManager) (name a) (with_currentTasks a (currentTasks a + 1) now)).
Proof.
  intros Hc Hlt. apply chosen_listed in Hc.
  pose proof (RegistryMoreProps.keyed_lookup _ _ (RegistryMoreProps.reachable_keyed ops) Hc)
    as Hg.
  unfold assignTaskToAgent. rewrite Hg.
  destruct (AgentRegistryProps.Qle_bool_cases (maxConcurrentTasks a)
              (inject_Z (currentTasks a))) as [[-> Hge]|[-> _]]; [|reflexivity].
  exfalso. eapply Qlt_irrefl, Qlt_le_trans; eassumption.
Qed.

(** The world after a delegation to an agent with capacity, with a store
    that resolves every call. *)
Lemma delegate_with_resolving_store
    (ex : Executors) (store : TaskStore) (uuid : string) (now : nat)
    (args : DelegateArgs) (ops : list Op) (ev : list Event) (rows : list TaskRow)
    (t : string) (a : Agent) :
  arg_task args = Some t -> t <> "" ->
  store_resolves store ->
  chosen args (run ops newManager) t = Ok a ->
  (inject_Z (currentTasks a) < maxConcurrentTasks a)%Q ->
  exists ev',
    delegateToAIBuilder ex store uuid now args (worldOf (run ops newManager) ev rows)
    = (match dispatch ex (with_currentTasks a (currentTasks a + 1) now) (argsOf args t) with
       | Ok _ => Delegated uuid (name a) (type a) t (priorityOf (arg_project_context args))
       | Throw e => DelegationError (Thrown e)
       end,
       worldOf (releaseTaskFromAgent
                  (set (run ops newManager) (name a)
                       (with_currentTasks a (currentTasks a + 1) now))
                  (name a) uuid
                  (succeeded (dispatch ex (with_currentTasks a (currentTasks a + 1) now)
                                       (argsOf args t))) now)
               ev' (rows ++ [rowOf uuid args t a])).
Proof.
  intros Ht Hne [Hcreate Hdb] Hc Hlt. unfold delegateToAIBuilder.
  rewrite (delegate_try_chosen _ _ _ _ _ _ _ _ t Ht Hne), Hc, Hcreate.
  rewrite (chosen_reservable ops args t uuid now a Hc Hlt).
  unfold dbind, liftM, dret, db_updateTaskStatus, db_logTaskExecution, bind, emit,
    store_call.
  cbn [service taskTable registry events worldOf fst snd].
  destruct (Hdb uuid "in_progress") as [-> _].
  destruct (Hdb uuid "task_assigned") as [_ ->].
  unfold ret. cbn [service taskTable registry events fst snd].
  rewrite (execute_with_resolving_store _ _ _ _ _ _ _ Hdb).
  cbn [registry events name with_currentTasks].
  destruct (dispatch ex (with_currentTasks a (currentTasks a + 1) now) (argsOf args t));
    eexists; reflexivity.
Qed.

(** X17.  With a store that resolves every call, in a registry the
    manager built, a delegation to an agent that has capacity (the
    selected agent always has; the status of a preferred agent is not
    looked at) inserts one row for the task, reserves the agent, runs the
    executor and releases the agent: the report names the agent when the
    executor returned and carries the executor's error when it threw; in
    both cases the agent's load is afterwards what it was before and its
    statistics count one task more, completed or failed. *)
Theorem delegation_reserves_and_releases :
  forall (ex : Executors) (store : TaskStore) (uuid : string) (now : nat)
         (args : DelegateArgs) (ops : list Op) (ev : list Event) (rows : list TaskRow)
         (t : string) (a : Agent),
    arg_task args = Some t -> t <> "" ->
    store_resolves store ->
    chosen args (run ops newManager) t = Ok a ->
    (prefers (arg_preferred_agent args) = None ->
     (inject_Z (currentTasks a) < maxConcurrentTasks a)%Q)
    /\ ((inject_Z (currentTasks a) < maxConcurrentTasks a)%Q ->
        let a1 := with_currentTasks a (currentTasks a + 1) now in
        let outcome := dispatch ex a1 (argsOf args t) in
        let result :=
          delegateToAIBuilder ex store uuid now args (worldOf (run ops newManager) ev rows) in
        fst result
        = match outcome with
          | Ok _ => Delegated uuid (name a) (type a) t (priorityOf (arg_project_context args))
          | Throw e => DelegationError (Thrown e)
          end
        /\ taskTable (snd result) = rows ++ [rowOf uuid args t a]
        /\ registry (service (snd result))
           = releaseTaskFromAgent (set (run ops newManager) (name a) a1) (name a) uuid
               (succeeded outcome) now
        /\ exists a',
             getAgentByName (registry (service (snd result))) (name a) = Some a'
             /\ currentTasks a' = currentTasks a
             /\ totalTasks (performance a') = totalTasks (performance a) + 1
             /\ completedTasks (performance a')
                = completedTasks (performance a) + (if succeeded outcome then 1 else 0)
             /\ failedTasks (performance a')
                = failedTasks (performance a) + (if succeeded outcome then 0 else 1)).
Proof.
  intros ex store uuid now args ops ev rows t a Ht Hne Hstore Hc. split.
  - intros Hp. unfold chosen in Hc. rewrite Hp in Hc.
    apply RegistryMoreProps.selected_is_available in Hc.
    unfold getAvailableAgents in Hc. apply filter_In in Hc. destruct Hc as [_ Hc].
    now apply AgentSelectorProps.isAvailable_spec in Hc.
  - intros Hlt a1 outcome result. subst result.
    destruct (delegate_with_resolving_store ex store uuid now args ops ev rows t a
                Ht Hne Hstore Hc Hlt) as [ev' ->].
    fold a1. fold outcome. cbn [fst snd service taskTable registry worldOf].
    split; [reflexivity|]. split; [reflexivity|]. split; [reflexivity|].
    assert (0 <= currentTasks a) as Hnonneg.
    { pose proof (AgentRegistryProps.reachable_ok ops) as Hok.
      rewrite List.Forall_forall in Hok.
      destruct (Hok a (chosen_listed _ _ _ _ Hc)) as [[H _] _]. exact H. }
    unfold getAgentByName, releaseTaskFromAgent.
    rewrite AgentRegistryProps.get_set_same.
    eexists. split; [apply AgentRegistryProps.get_set_same|]. cbn.
    destruct (succeeded outcome); repeat split; lia.
Qed.

(** X18.  A preferred agent that is at capacity is not replaced by
    another agent: the row of the task is inserted first, then the
    reservation throws and the method reports [CapacityExceeded]; the row
    stays in the task table and the registry is as it was. *)
Theorem delegation_at_capacity_leaves_a_row :
  forall (ex : Executors) (store : TaskStore) (uuid : string) (now : nat)
         (args : DelegateArgs) (ops : list Op) (ev : list Event) (rows : list TaskRow)
         (t : string) (a : Agent),
    arg_task args = Some t -> t <> "" ->
    (forall row, createTask store row = None) ->
    chosen args (run ops newManager) t = Ok a ->
    (maxConcurrentTasks a <= inject_Z (currentTasks a))%Q ->
    delegateToAIBuilder ex store uuid now args (worldOf (run ops newManager) ev rows)
    = (DelegationError (Thrown CapacityExceeded),
       worldOf (run ops newManager) ev (rows ++ [rowOf uuid args t a])).
Proof.
  intros ex store uuid now args ops ev rows t a Ht Hne Hcreate Hc Hge.
  unfold delegateToAIBuilder.
  rewrite (delegate_try_chosen _ _ _ _ _ _ _ _ t Ht Hne), Hc, Hcreate.
  pose proof (RegistryMoreProps.keyed_lookup _ _ (RegistryMoreProps.reachable_keyed ops)
                (chosen_listed _ _ _ _ Hc)) as Hg.
  unfold assignTaskToAgent. rewrite Hg.
  destruct (AgentRegistryProps.Qle_bool_cases (maxConcurrentTasks a)
              (inject_Z (currentTasks a))) as [[-> _]|[-> Hlt]]; [reflexivity|].
  exfalso. eapply Qlt_irrefl, Qlt_le_trans; eassumption.
Qed.

(** X19.  When the store rejects the [in_progress] update that follows
    the reservation, the method reports the store's error and stops: the
    executor is not run, and the reservation is not given back, the
    agent stays with one task more. *)
Theorem delegation_keeps_the_reservation_when_the_store_rejects :
  forall (ex : Executors) (store : TaskStore) (uuid : string) (now : nat)
         (args : DelegateArgs) (ops : list Op) (ev : list Event) (rows : list TaskRow)
         (t msg : string) (a : Agent),
    arg_task args = Some t -> t <> "" ->
    (forall row, createTask store row = None) ->
    updateTaskStatus (database store) uuid "in_progress" = Some msg ->
    chosen args (run ops newManager) t = Ok a ->
    (inject_Z (currentTasks a) < maxConcurrentTasks a)%Q ->
    let a1 := with_currentTasks a (currentTasks a + 1) now in
    delegateToAIBuilder ex store uuid now args (worldOf (run ops newManager) ev rows)
    = (DelegationError (Thrown (StoreError msg)),
       worldOf (set (run ops newManager) (name a) a1)
               (ev ++ [EvUpdateTaskStatus uuid "in_progress" 0])
               (rows ++ [rowOf uuid args t a]))
    /\ getAgentByName (set (run ops newManager) (name a) a1) (name a) = Some a1
    /\ currentTasks a1 = currentTasks a + 1.
Proof.
  intros ex store uuid now args ops ev rows t msg a Ht Hne Hcreate Hrej Hc Hlt a1.
  split; [|split; [apply AgentRegistryProps.get_set_same | reflexivity]].
  unfold delegateToAIBuilder.
  rewrite (delegate_try_chosen _ _ _ _ _ _ _ _ t Ht Hne), Hc, Hcreate.
  rewrite (chosen_reservable ops args t uuid now a Hc Hlt). fold a1.
  unfold dbind at 1. unfold liftM at 1. unfold db_updateTaskStatus, bind, emit, store_call.
  cbn [service taskTable registry events worldOf fst snd]. rewrite Hrej.
  reflexivity.
Qed.

(** ** Chatbot messages, delegated *)



(** ** The theorems of this part, at [devin] *)

Lemma task_type_agrees_with_capabilities_witness :
  OrchestrationService.determineTaskType "run the unit tests" = "test"
  /\ In "testing" (extractRequiredCapabilities "run the unit tests").
Proof.
  assert (OrchestrationService.determineTaskType "run the unit tests" = "test") as Htype
    by (vm_compute; reflexivity).
  split; [exact Htype|].
  destruct (proj1 task_type_agrees_with_capabilities "run the unit tests")
    as (_ & Htest & _).
  exact (Htest Htype).
Defined.

Lemma chatbot_extracts_build_tasks_only_witness :
  extractTaskFromMessage idleMessage "task-1" = None
  /\ messageOf idleMessage = or_string (text idleMessage) "".
Proof.
  destruct (chatbot_extracts_build_tasks_only idleMessage "task-1") as (Hnone & _ & Htext).
  split.
  - apply Hnone. vm_compute. discriminate.
  - apply Htext. left. reflexivity.
Defined.

(** [devin] is asked for by name, and any agent is asked for, while no
    agent is registered. *)
Lemma delegation_rejected_without_effect_witness :
  delegateToAIBuilder returning healthyTaskStore "task-1" 1%nat devinRequest
    (worldOf newManager [] [])
  = (DelegationError (Thrown NotFound), worldOf newManager [] [])
  /\ delegateToAIBuilder returning healthyTaskStore "task-1" 1%nat autoRequest
       (worldOf newManager [] [])
     = (DelegationError (Thrown NoAvailableAgent), worldOf newManager [] []).
Proof.
  split.
  - apply (proj1 (proj2 (delegation_rejected_without_effect returning healthyTaskStore
                           "task-1" 1%nat devinRequest))
             newManager [] [] "build the login page" "devin");
      [reflexivity | discriminate | reflexivity | reflexivity].
  - apply (proj2 (proj2 (delegation_rejected_without_effect returning healthyTaskStore
                           "task-1" 1%nat autoRequest))
             newManager [] [] "build the login page");
      [reflexivity | discriminate | reflexivity | reflexivity].
Defined.

Lemma delegation_reserves_and_releases_witness :
  (inject_Z (currentTasks devinIdle) < maxConcurrentTasks devinIdle)%Q
  /\ taskTable
       (snd (delegateToAIBuilder returning healthyTaskStore "task-1" 1%nat autoRequest
               (worldOf (run devinOnlyOps newManager) [] [])))
     = [] ++ [rowOf "task-1" autoRequest "build the login page" devinIdle].
Proof.
  destruct (delegation_reserves_and_releases returning healthyTaskStore "task-1" 1%nat
              autoRequest devinOnlyOps [] [] "build the login page" devinIdle)
    as [Hcap Hrun].
  - reflexivity.
  - discriminate.
  - split; [intros row; reflexivity | intros t s; split; reflexivity].
  - vm_compute. reflexivity.
  - split; [exact (Hcap eq_refl)|].
    pose proof (Hrun (Hcap eq_refl)) as H. cbv zeta in H.
    destruct H as (_ & Hrows & _). exact Hrows.
Defined.

Lemma delegation_at_capacity_leaves_a_row_witness :
  delegateToAIBuilder returning healthyTaskStore "task-4" 2%nat devinRequest
    (worldOf (run devinFullOps newManager) [] [])
  = (DelegationError (Thrown CapacityExceeded),
     worldOf (run devinFullOps newManager) []
       ([] ++ [rowOf "task-4" devinRequest "build the login page" devinBusy])).
Proof.
  apply (delegation_at_capacity_leaves_a_row returning healthyTaskStore "task-4" 2%nat
           devinRequest devinFullOps [] [] "build the login page" devinBusy).
  - reflexivity.
  - discriminate.
  - intros row. reflexivity.
  - vm_compute. reflexivity.
  - vm_compute. discriminate.
Defined.

Lemma delegation_keeps_the_reservation_when_the_store_rejects_witness :
  getAgentByName
    (registry (service
       (snd (delegateToAIBuilder returning inProgressRejectingStore "task-1" 1%nat autoRequest
               (worldOf (run devinOnlyOps newManager) [] [])))))
    "devin"
  = Some (with_currentTasks devinIdle (currentTasks devinIdle + 1) 1%nat).
Proof.
  pose proof (delegation_keeps_the_reservation_when_the_store_rejects returning
                inProgressRejectingStore "task-1" 1%nat autoRequest devinOnlyOps [] []
                "build the login page" "SQLITE_BUSY" devinIdle) as H.
  cbv zeta in H.
  destruct H as (Hrun & Hget & _).
  - reflexivity.
  - discriminate.
  - intros row. reflexivity.
  - reflexivity.
  - vm_compute. reflexivity.
  - vm_compute. reflexivity.
  - rewrite Hrun. exact Hget.
Defined.


End ServiceMoreProps.

(** * More properties of the task queue *)

Module QueueMoreProps.
Import TaskQueue Spec.

(** ** Looking a task up *)

Lemma find_none (i : string) (l : list Task) :
  ~ In i (map id l) -> List.find (fun task => String.eqb (id task) i) l = None.
Proof.
  induction l as [|t l IH]; cbn; [reflexivity|]. intros H.
  destruct (String.eqb_spec (id t) i) as [E|E]; [exfalso; auto|]. apply IH. tauto.
Qed.

Lemma find_first (i : string) (before after : list Task) (t : Task) :
  ~ In i (map id before) -> id t = i ->
  List.find (fun task => String.eqb (id task) i) (before ++ t :: after) = Some t.
Proof.
  intros Hb Ht. induction before as [|b before IH]; cbn.
  - now rewrite Ht, String.eqb_refl.
  - cbn in Hb. destruct (String.eqb_spec (id b) i) as [E|E]; [exfalso; auto|].
    apply IH. tauto.
Qed.

Lemma in_ids (t : Task) (l : list Task) : In t l -> In (id t) (map id l).
Proof. apply in_map. Qed.

Lemma ids_in (i : string) (l : list Task) :
  In i (map id l) -> exists t, In t l /\ id t = i.
Proof. intros H. apply in_map_iff in H. destruct H as (t & E & Hin). eauto. Qed.

(** ** Each task is in one place *)

Lemma delete_none {A : Type} (m : gmap string A) (i k : string) :
  m !! k = None -> delete i m !! k = None.
Proof.
  intros H. destruct (decide (i = k)) as [->|Hne].
  - apply lookup_delete_eq.
  - now rewrite lookup_delete_ne.
Qed.

Lemma step_tracked_once (q : Queue) (o : Op) :
  tracked_once q -> admissible q o -> tracked_once (step q o).
Proof.
  intros (Hnd & Hq & Hp & Hc & Hf) Hadm.
  destruct o as [| |uuid now d| |t res now|t msg now|i|i| |]; cbn [step].
  - (* start *) exact (conj Hnd (conj Hq (conj Hp (conj Hc Hf)))).
  - (* stop *) exact (conj Hnd (conj Hq (conj Hp (conj Hc Hf)))).
  - (* addTask *)
    unfold admissible in Hadm. unfold addTask in *. cbn [fst id] in Hadm.
    revert Hadm. generalize (match data_id d with Some i => i | None => uuid end).
    intros i Hadm. unfold tracked in Hadm. unfold tracked_once.
    cbn [snd with_queue queue processing completed failed].
    split; [|split; [|exact (conj Hp (conj Hc Hf))]].
    + rewrite map_app. cbn. apply NoDup_app. split; [assumption|].
      split; [|apply NoDup_singleton].
      intros x Hx Hin. apply list_elem_of_In in Hx, Hin. destruct Hin as [<-|[]].
      apply Hadm. now left.
    + intros t Hin. apply in_app_or in Hin. destruct Hin as [Hin|[<-|[]]]; [auto|].
      cbn [id]. split; [|split].
      * intros H. apply Hadm. right. now left.
      * destruct (completed q !! i) eqn:E; [|reflexivity].
        exfalso. apply Hadm. right. right. left. rewrite ?E. eexists; reflexivity.
      * destruct (failed q !! i) eqn:E; [|reflexivity].
        exfalso. apply Hadm. right. right. right. rewrite ?E. eexists; reflexivity.
  - (* one iteration of the loop *)
    unfold processQueue_iteration.
    destruct (SchedulerProps.queue_sort_spec (queue q)) as (Hperm & _ & _).
    assert (NoDup (map id (JS.sort priority_after (queue q)))) as Hnd'.
    { assert (map id (JS.sort priority_after (queue q)) ≡ₚ map id (queue q)) as Hpm
          by now apply Permutation_map.
      now rewrite Hpm. }
    assert (forall t, In t (JS.sort priority_after (queue q)) -> In t (queue q)) as Hin'.
    { intros t Ht. eapply Permutation_in; eassumption. }
    destruct (JS.sort priority_after (queue q)) as [|t0 rest] eqn:Hs.
    + unfold tracked_once. cbn.
      split; [constructor|]. split; [intros t []|]. exact (conj Hp (conj Hc Hf)).
    + destruct (Nat.ltb (size (processing q)) maxConcurrency);
        unfold tracked_once; cbn [snd with_queue queue processing completed failed].
      * cbn in Hnd'. apply NoDup_cons in Hnd'. destruct Hnd' as [Hnin Hnd'].
        split; [assumption|]. split; [|split; [|exact (conj Hc Hf)]].
        -- intros t Ht. destruct (Hq t (Hin' t (or_intror Ht))) as (H1 & H2 & H3).
           split; [|split; assumption].
           intros H. apply elem_of_union in H. destruct H as [H|H]; [|contradiction].
           apply elem_of_singleton in H. apply Hnin. rewrite <- H.
           apply list_elem_of_In. now apply in_ids.
        -- intros i Hi. apply elem_of_union in Hi. destruct Hi as [Hi|Hi]; [|auto].
           apply elem_of_singleton in Hi. subst i.
           destruct (Hq t0 (Hin' t0 (or_introl eq_refl))) as (_ & H2 & H3). now split.
      * split; [assumption|]. split; [|exact (conj Hp (conj Hc Hf))].
        intros t Ht. now apply Hq, Hin'.
  - (* a running task completes *)
    cbn in Hadm. unfold tracked_once, processTask_resolved.
    cbn [queue processing completed failed id update].
    split; [assumption|]. split; [|split; [|split; [|assumption]]].
    + intros t1 Ht1. destruct (Hq t1 Ht1) as (H1 & H2 & H3).
      split; [|split; [|assumption]].
      * intros H. apply elem_of_difference in H. tauto.
      * rewrite lookup_insert_ne; [assumption|]. intros E. apply H1. now rewrite <- E.
    + intros i Hi. apply elem_of_difference in Hi. destruct Hi as [Hi Hne].
      rewrite elem_of_singleton in Hne.
      destruct (Hp i Hi) as [H2 H3]. split; [|assumption].
      rewrite lookup_insert_ne; [assumption | congruence].
    + intros i Hi. destruct (decide (id t = i)) as [<-|Hne].
      * now apply Hp.
      * rewrite lookup_insert_ne in Hi by assumption. now apply Hc.
  - (* a running task fails *)
    cbn in Hadm. unfold tracked_once, processTask_rejected.
    cbn [queue processing completed failed id update entry_task].
    split; [assumption|]. split; [|split; [|split]].
    + intros t1 Ht1. destruct (Hq t1 Ht1) as (H1 & H2 & H3).
      assert (id t <> id t1) as Hne by (intros E; apply H1; now rewrite <- E).
      split; [|split; [assumption|]].
      * intros H. apply elem_of_difference in H. destruct H as [H _].
        apply elem_of_difference in H. tauto.
      * now rewrite !lookup_insert_ne.
    + intros i Hi. apply elem_of_difference in Hi. destruct Hi as [Hi Hne].
      apply elem_of_difference in Hi. destruct Hi as [Hi _].
      rewrite elem_of_singleton in Hne.
      destruct (Hp i Hi) as [H2 H3]. split; [assumption|].
      rewrite !lookup_insert_ne; [assumption | congruence | congruence].
    + intros i Hi. destruct (decide (id t = i)) as [<-|Hne].
      * destruct (Hp _ Hadm) as [H2 _]. rewrite H2 in Hi. now destruct Hi.
      * rewrite !lookup_insert_ne by assumption. now apply Hc.
    + intros i e He. destruct (decide (id t = i)) as [<-|Hne].
      * rewrite lookup_insert_eq in He. injection He as <-. reflexivity.
      * rewrite !lookup_insert_ne in He by assumption. now apply Hf.
  - (* cancelTask *)
    unfold cancelTask. destruct (findIndex i (queue q)) as [idx|] eqn:Hfi.
    + destruct (SchedulerProps.findIndex_Some _ _ _ Hfi)
        as (before & task & after & Hl & Hlen & Hid & Hb).
      assert (queue q !! idx = Some task) as Hlook
          by (rewrite Hl; now apply list_lookup_middle).
      rewrite Hlook. unfold tracked_once.
      cbn [snd with_queue queue processing completed failed].
      assert (delete idx (queue q) = before ++ after) as Hdel
          by (rewrite Hl; subst idx; apply delete_middle).
      rewrite Hdel.
      assert (forall t, In t (before ++ after) -> In t (queue q)) as Hsub.
      { intros t Ht. rewrite Hl. apply in_app_or in Ht. apply in_or_app.
        destruct Ht; [now left | right; now right]. }
      split; [|split; [|exact (conj Hp (conj Hc Hf))]].
      * rewrite Hl in Hnd. rewrite map_app in *. cbn in Hnd.
        apply NoDup_ListNoDup. eapply List.NoDup_remove_1.
        apply NoDup_ListNoDup. exact Hnd.
      * intros t Ht. now apply Hq, Hsub.
    + destruct (decide (i ∈ processing q)); exact (conj Hnd (conj Hq (conj Hp (conj Hc Hf)))).
  - (* retryTask *)
    unfold retryTask. destruct (failed q !! i) as [e|] eqn:He;
      [|exact (conj Hnd (conj Hq (conj Hp (conj Hc Hf))))].
    unfold tracked_once. cbn [snd queue processing completed failed].
    pose proof (Hf i e He) as Hid.
    assert (~ In i (map id (queue q))) as Hfresh.
    { intros Hin. apply ids_in in Hin. destruct Hin as (t1 & Ht1 & E).
      destruct (Hq t1 Ht1) as (_ & _ & H3). rewrite E in H3. congruence. }
    split; [|split; [|split; [|split]]].
    + rewrite map_app. cbn. rewrite Hid. apply NoDup_app. split; [assumption|].
      split; [|apply NoDup_singleton].
      intros x Hx Hin. apply list_elem_of_In in Hx, Hin. destruct Hin as [<-|[]].
      contradiction.
    + intros t1 Ht1. apply in_app_or in Ht1. destruct Ht1 as [Ht1|[<-|[]]].
      * destruct (Hq t1 Ht1) as (H1 & H2 & H3). split; [|split]; try assumption.
        now apply delete_none.
      * cbn [id update]. rewrite Hid. split; [|split].
        -- intros H. destruct (Hp i H) as [_ H3]. congruence.
        -- destruct (completed q !! i) eqn:E; [|reflexivity].
           assert (is_Some (completed q !! i)) as Hs by (rewrite ?E; eexists; reflexivity).
           apply Hc in Hs. congruence.
        -- apply lookup_delete_eq.
    + intros k Hk. destruct (Hp k Hk) as [H2 H3]. split; [assumption|].
      now apply delete_none.
    + intros k Hk. apply delete_none. now apply Hc.
    + intros k e' Hk. apply lookup_delete_Some in Hk. destruct Hk as [_ Hk].
      now apply Hf.
  - (* clearCompleted *)
    unfold tracked_once. cbn [clearCompleted snd queue processing completed failed].
    split; [assumption|]. split; [|split; [|split; [|assumption]]].
    + intros t Ht. destruct (Hq t Ht) as (H1 & _ & H3).
      split; [|split]; [assumption | apply lookup_empty | assumption].
    + intros k Hk. destruct (Hp k Hk) as [_ H3]. split; [apply lookup_empty | assumption].
    + intros k Hk. rewrite lookup_empty in Hk. now destruct Hk.
  - (* clearFailed *)
    unfold tracked_once. cbn [clearFailed snd queue processing completed failed].
    split; [assumption|]. split; [|split; [|split]].
    + intros t Ht. destruct (Hq t Ht) as (H1 & H2 & _).
      split; [|split]; [assumption | assumption | apply lookup_empty].
    + intros k Hk. destruct (Hp k Hk) as [H2 _]. split; [assumption | apply lookup_empty].
    + intros k _. apply lookup_empty.
    + intros k e Hk. rewrite lookup_empty in Hk. discriminate.
Qed.

Lemma newQueue_tracked_once : tracked_once newQueue.
Proof.
  split; [constructor|]. split; [intros t []|]. split; [|split].
  - intros i Hi. cbn in Hi. apply not_elem_of_empty in Hi. destruct Hi.
  - intros i Hi. cbn in Hi. rewrite lookup_empty in Hi. now destruct Hi.
  - intros i e Hi. cbn in Hi. rewrite lookup_empty in Hi. discriminate.
Qed.

Lemma run_tracked_once (ops : list Op) (q : Queue) :
  tracked_once q -> admissible_run ops q -> tracked_once (run ops q).
Proof.
  revert q. induction ops as [|o ops IH]; intros q Hq Hadm; cbn; [assumption|].
  destruct Hadm as [Ho Hrest]. apply IH; [now apply step_tracked_once | assumption].
Qed.

(** Decides [~ tracked q i] and [admissible_run ops q] for a queue object
    and transitions that are given in full. *)
Ltac untracked :=
  let H := fresh "H" in
  intros [H|[H|[H|H]]];
  [ vm_compute in H; intuition discriminate
  | revert H; apply (bool_decide_unpack _); vm_compute; exact I
  | vm_compute in H; destruct H as [? H]; discriminate H
  | vm_compute in H; destruct H as [? H]; discriminate H ].

Ltac admissible_steps :=
  repeat lazymatch goal with
    | |- admissible_run [] _ => exact I
    | |- admissible_run (_ :: _) _ => split
    | |- admissible _ (OpAddTask _ _ _) => unfold admissible; untracked
    | |- admissible _ (OpResolved _ _ _) =>
        unfold admissible; apply (bool_decide_unpack _); vm_compute; exact I
    | |- admissible _ (OpRejected _ _ _) =>
        unfold admissible; apply (bool_decide_unpack _); vm_compute; exact I
    | |- admissible _ _ => exact I
    end.

(** X21.  As long as every new task gets an id that is not in use, the
    id its [taskData] carries or else the id drawn, and only running tasks
    settle, after any sequence of calls, iterations of the loop and
    settlements from a new queue object each task is in one place: the ids
    in the queue are distinct, no id is at once in two of the queue, the
    running set, the completed map and the failed map, and the failed map
    is keyed by the ids of its tasks. *)
Theorem every_task_is_in_one_place :
  forall ops : list Op,
    admissible_run ops newQueue -> tracked_once (run ops newQueue).
Proof.
  intros ops. apply run_tracked_once, newQueue_tracked_once.
Qed.

Lemma every_task_is_in_one_place_witness : tracked_once (run oneCompletedOps newQueue).
Proof.
  apply every_task_is_in_one_place. unfold oneCompletedOps, oneRunningOps. cbn [app].
  admissible_steps.
Defined.

(** ** Adding and finding a task *)

Lemma examples_tracked_once :
  tracked_once oneRunning /\ tracked_once (run oneCompletedOps newQueue).
Proof.
  split; (apply run_tracked_once; [apply newQueue_tracked_once|]).
  - cbn [app]. admissible_steps.
  - unfold oneCompletedOps, oneRunningOps. cbn [app]. admissible_steps.
Qed.

(** X22.  [addTask] puts the new task at the tail of the queue.  The id
    of the task is the one its [taskData] carries, or else the id drawn;
    its status is [queued], its creation time the time of the call, its
    priority the one given or [medium]; its retry count, like its other
    fields, is the one of the [taskData].  The queue is one longer and
    nothing else changes.  When the id of the task is not the id of a task
    already queued, [getTaskStatus] finds the new task under it. *)
Theorem addTask_appends_a_queued_task :
  forall (q : Queue) (uuid : string) (now : nat) (d : TaskData),
    let t := fst (addTask q uuid now d) in
    let q' := snd (addTask q uuid now d) in
    queue q' = queue q ++ [t]
    /\ (forall i, data_id d = Some i -> id t = i)
    /\ (data_id d = None -> id t = uuid)
    /\ status t = queued /\ createdAt t = now
    /\ priority t = match data_priority d with Some p => p | None => medium end
    /\ retryCount t = data_retryCount d
    /\ same_but_queue q q'
    /\ queueLength (getQueueStats q') = S (queueLength (getQueueStats q))
    /\ (~ In (id t) (map id (queue q)) -> getTaskStatus q' (id t) = Some (FullView t)).
Proof.
  intros q uuid now d t q'. subst t q'. cbn [addTask fst snd with_queue queue].
  split; [reflexivity|]. cbn [id status createdAt priority retryCount].
  split; [intros i ->; reflexivity|]. split; [intros ->; reflexivity|].
  split; [reflexivity|]. split; [reflexivity|]. split; [reflexivity|].
  split; [reflexivity|]. split; [repeat split|].
  split.
  - cbn. rewrite length_app. cbn. lia.
  - intros Hfresh. unfold getTaskStatus. cbn [queue with_queue].
    erewrite find_first; [reflexivity | exact Hfresh | reflexivity].
Qed.

(** A task that brings its own id and retry count. *)
Lemma addTask_appends_a_queued_task_witness :
  id (fst (addTask oneRunning "x" 5%nat ownTask)) = "mine"
  /\ retryCount (fst (addTask oneRunning "x" 5%nat ownTask)) = Some 7
  /\ getTaskStatus (snd (addTask oneRunning "x" 5%nat ownTask)) "mine"
     = Some (FullView (fst (addTask oneRunning "x" 5%nat ownTask))).
Proof.
  pose proof (addTask_appends_a_queued_task oneRunning "x" 5%nat ownTask) as H.
  cbv zeta in H. destruct H as (_ & Hid & _ & _ & _ & _ & Hrc & _ & _ & H).
  split; [apply Hid; reflexivity|]. split; [exact Hrc|].
  apply H. vm_compute. intuition discriminate.
Defined.

(** ** Cancellation, seen from outside *)

(** X23.  When each task is in one place, a task that [cancelTask]
    returns is gone from the queue object: its id is in none of the four
    collections, [getTaskStatus] answers [null] for it, and the queue is
    one shorter.  The status [cancelled] exists on the returned task
    only. *)
Theorem cancelled_task_is_forgotten :
  forall (q q' : Queue) (i : string) (t : Task),
    tracked_once q ->
    cancelTask q i = (Ok t, q') ->
    status t = cancelled
    /\ ~ tracked q' i
    /\ getTaskStatus q' i = None
    /\ S (queueLength (getQueueStats q')) = queueLength (getQueueStats q).
Proof.
  intros q q' i t (Hnd & Hq & Hp & Hc & Hf) Hcancel. unfold cancelTask in Hcancel.
  destruct (findIndex i (queue q)) as [idx|] eqn:Hfi.
  - destruct (SchedulerProps.findIndex_Some _ _ _ Hfi)
      as (before & task & after & Hl & Hlen & Hid & Hb).
    assert (queue q !! idx = Some task) as Hlook
        by (rewrite Hl; now apply list_lookup_middle).
    rewrite Hlook in Hcancel. injection Hcancel as <- <-.
    assert (delete idx (queue q) = before ++ after) as Hdel
        by (rewrite Hl; subst idx; apply delete_middle).
    assert (In task (queue q)) as Hin
        by (rewrite Hl; apply in_or_app; right; now left).
    destruct (Hq task Hin) as (H1 & H2 & H3). rewrite Hid in H1, H2, H3.
    assert (~ In i (map id (before ++ after))) as Hgone.
    { rewrite Hl, map_app in Hnd. cbn in Hnd. rewrite Hid in Hnd.
      apply NoDup_ListNoDup, List.NoDup_remove_2 in Hnd. now rewrite map_app. }
    split; [reflexivity|]. split; [|split].
    + unfold tracked. cbn [with_queue queue processing completed failed]. rewrite Hdel.
      intros [H|[H|[H|H]]]; try contradiction.
      * rewrite H2 in H. now destruct H.
      * rewrite H3 in H. now destruct H.
    + unfold getTaskStatus. cbn [with_queue queue processing completed failed].
      rewrite Hdel, (find_none i _ Hgone).
      destruct (decide (i ∈ processing q)); [contradiction|]. now rewrite H2, H3.
    + cbn. rewrite Hdel, Hl, !length_app. cbn. lia.
  - destruct (decide (i ∈ processing q)); discriminate.
Qed.

(** ["u"] is queued in [oneRunning]. *)
Lemma cancelled_task_is_forgotten_witness :
  getTaskStatus (snd (cancelTask oneRunning "u")) "u" = None
  /\ ~ tracked (snd (cancelTask oneRunning "u")) "u".
Proof.
  destruct (cancelTask oneRunning "u") as [[t|e] q'] eqn:E;
    [|vm_compute in E; discriminate].
  destruct (cancelled_task_is_forgotten oneRunning q' "u" t (proj1 examples_tracked_once) E)
    as (_ & Hgone & Hnull & _).
  split; assumption.
Defined.

(** ** The status of a task along its life *)

(** X24.  When each task is in one place, [getTaskStatus] follows a task
    through its life: a task the loop has started is reported as
    [processing]; once it has completed it is reported as [completed] with
    its result; once it has failed it is reported as [failed] with the
    error, [retryTask] then returns it, and it is reported as [queued]
    again. *)
Theorem getTaskStatus_follows_the_task :
  forall q : Queue,
    tracked_once q ->
    (forall t q', processQueue_iteration q = (Some t, q') ->
       getTaskStatus q' (id t) = Some (RunningView (id t)))
    /\ (forall t res now,
          id t ∈ processing q ->
          exists t',
            getTaskStatus (processTask_resolved q t res now) (id t) = Some (FullView t')
            /\ id t' = id t /\ status t' = completed_ /\ result t' = Some res)
    /\ (forall t msg now,
          id t ∈ processing q ->
          exists t',
            getTaskStatus (processTask_rejected q t msg now) (id t) = Some (FullView t')
            /\ id t' = id t /\ status t' = failed_ /\ error t' = Some msg
            /\ exists t'' q'',
                 retryTask (processTask_rejected q t msg now) (id t) = (Ok t'', q'')
                 /\ getTaskStatus q'' (id t) = Some (FullView t'')
                 /\ status t'' = queued /\ error t'' = None).
Proof.
  intros q (Hnd & Hq & Hp & Hc & Hf). split; [|split].
  - intros t q' Hit. unfold processQueue_iteration in Hit.
    destruct (SchedulerProps.queue_sort_spec (queue q)) as (Hperm & _ & _).
    assert (NoDup (map id (JS.sort priority_after (queue q)))) as Hnd'.
    { assert (map id (JS.sort priority_after (queue q)) ≡ₚ map id (queue q)) as Hpm
          by now apply Permutation_map.
      now rewrite Hpm. }
    destruct (JS.sort priority_after (queue q)) as [|t0 rest]; [discriminate|].
    destruct (Nat.ltb (size (processing q)) maxConcurrency); [|discriminate].
    injection Hit as <- <-. cbn in Hnd'. apply NoDup_cons in Hnd'.
    destruct Hnd' as [Hnin _]. rewrite list_elem_of_In in Hnin.
    unfold getTaskStatus. cbn [queue processing]. rewrite (find_none _ _ Hnin).
    destruct (decide (id t0 ∈ {[id t0]} ∪ processing q)) as [_|Hn]; [reflexivity|].
    exfalso. apply Hn. apply elem_of_union. left. now apply elem_of_singleton.
  - intros t res now Hrun.
    assert (~ In (id t) (map id (queue q))) as Hnq.
    { intros Hin. apply ids_in in Hin. destruct Hin as (t1 & Ht1 & E).
      destruct (Hq t1 Ht1) as (H1 & _). rewrite E in H1. contradiction. }
    unfold getTaskStatus, processTask_resolved. cbn [queue processing completed failed id update].
    rewrite (find_none _ _ Hnq).
    destruct (decide (id t ∈ processing q ∖ {[id t]})) as [Hin|_].
    { apply elem_of_difference in Hin. destruct Hin as [_ Hin]. exfalso. apply Hin.
      now apply elem_of_singleton. }
    rewrite lookup_insert_eq. eexists. split; [reflexivity|]. repeat split.
  - intros t msg now Hrun.
    assert (~ In (id t) (map id (queue q))) as Hnq.
    { intros Hin. apply ids_in in Hin. destruct Hin as (t1 & Ht1 & E).
      destruct (Hq t1 Ht1) as (H1 & _). rewrite E in H1. contradiction. }
    destruct (Hp _ Hrun) as [Hcomp _].
    unfold getTaskStatus, retryTask, processTask_rejected.
    cbn [queue processing completed failed id update entry_task].
    rewrite (find_none _ _ Hnq).
    destruct (decide (id t ∈ (processing q ∖ {[id t]}) ∖ {[id t]})) as [Hin|_].
    { apply elem_of_difference in Hin. destruct Hin as [_ Hin]. exfalso. apply Hin.
      now apply elem_of_singleton. }
    rewrite Hcomp, lookup_insert_eq. eexists. split; [reflexivity|].
    split; [reflexivity|]. split; [reflexivity|]. split; [reflexivity|].
    eexists _, _. split; [reflexivity|]. cbn [queue processing completed failed].
    split; [|split; reflexivity].
    erewrite find_first; [reflexivity | exact Hnq | reflexivity].
Qed.

(** ["m"] is running in [oneRunning]. *)
Lemma getTaskStatus_follows_the_task_witness :
  (exists t',
     getTaskStatus (processTask_resolved oneRunning runningM "done" 3%nat) (id runningM)
     = Some (FullView t')
     /\ id t' = id runningM /\ status t' = completed_ /\ result t' = Some "done")
  /\ (exists t',
        getTaskStatus (processTask_rejected oneRunning runningM "boom" 3%nat) (id runningM)
        = Some (FullView t')
        /\ id t' = id runningM /\ status t' = failed_ /\ error t' = Some "boom").
Proof.
  destruct (getTaskStatus_follows_the_task oneRunning (proj1 examples_tracked_once))
    as (_ & Hdone & Hfail).
  assert (id runningM ∈ processing oneRunning) as Hrun
    by (apply (bool_decide_unpack _); vm_compute; exact I).
  split.
  - exact (Hdone runningM "done" 3%nat Hrun).
  - destruct (Hfail runningM "boom" 3%nat Hrun) as (t' & H1 & H2 & H3 & H4 & _).
    exists t'. repeat split; assumption.
Defined.

(** ** Successive iterations *)

Lemma sort_of_sorted {A : Type} (after : A -> A -> bool) (l : list A) :
  StronglySorted (fun a b => after a b = false) l -> JS.sort after l = l.
Proof.
  induction 1 as [|x l Hs IH Hx]; [reflexivity|]. cbn. rewrite IH.
  destruct l as [|y l]; [reflexivity|]. cbn.
  inversion Hx as [|? ? Hxy _]; subst. now rewrite Hxy.
Qed.

Lemma queue_sort_twice (l : list Task) :
  JS.sort priority_after (JS.sort priority_after l) = JS.sort priority_after l.
Proof.
  apply sort_of_sorted.
  apply SortProps.sort_sorted;
    [exact SchedulerProps.priority_after_irrefl
    | exact SchedulerProps.priority_after_trans
    | exact SchedulerProps.priority_after_cotrans].
Qed.

Lemma queue_sort_tail (l : list Task) (t : Task) (rest : list Task) :
  JS.sort priority_after l = t :: rest -> JS.sort priority_after rest = rest.
Proof.
  intros Hs. apply sort_of_sorted.
  pose proof (SortProps.sort_sorted priority_after SchedulerProps.priority_after_irrefl
                SchedulerProps.priority_after_trans SchedulerProps.priority_after_cotrans l)
    as H.
  rewrite Hs in H. now inversion H.
Qed.

Lemma iteration_with_capacity (q : Queue) :
  (size (processing q) < maxConcurrency)%nat ->
  queue q <> [] ->
  exists t rest,
    JS.sort priority_after (queue q) = t :: rest
    /\ processQueue_iteration q
       = (Some t,
          {| queue := rest; processing := {[ id t ]} ∪ processing q;
             completed := completed q; failed := failed q; isRunning := isRunning q |})
    /\ (size ({[ id t ]} ∪ processing q) <= S (size (processing q)))%nat.
Proof.
  intros Hcap Hne. unfold processQueue_iteration.
  destruct (SchedulerProps.queue_sort_head (queue q) Hne)
    as (before & t & after & rest & _ & Hs & _).
  exists t, rest. rewrite Hs.
  destruct (Nat.ltb_spec (size (processing q)) maxConcurrency); [|lia].
  split; [reflexivity|]. split; [reflexivity|].
  rewrite size_union_alt, size_singleton.
  pose proof (subseteq_size (processing q ∖ {[id t]}) (processing q)
                (subseteq_difference_l _ _ _ (reflexivity _))). lia.
Qed.

Lemma dispatch_n_sorted (k : nat) (q : Queue) :
  (size (processing q) + k <= maxConcurrency)%nat ->
  (k <= length (queue q))%nat ->
  fst (dispatch_n k q) = firstn k (JS.sort priority_after (queue q))
  /\ JS.sort priority_after (queue (snd (dispatch_n k q)))
     = skipn k (JS.sort priority_after (queue q))
  /\ (0 < k -> queue (snd (dispatch_n k q)) = skipn k (JS.sort priority_after (queue q)))%nat.
Proof.
  revert q. induction k as [|k IH]; intros q Hcap Hlen.
  - cbn [dispatch_n fst snd firstn skipn]. repeat split. lia.
  - assert (queue q <> []) as Hne by (destruct (queue q); [cbn in Hlen; lia | discriminate]).
    destruct (iteration_with_capacity q ltac:(lia) Hne) as (t & rest & Hs & Hit & Hsize).
    cbn [dispatch_n]. rewrite Hit, Hs.
    pose proof (queue_sort_tail _ _ _ Hs) as Hrest.
    set (q' := {| queue := rest; processing := {[ id t ]} ∪ processing q;
                  completed := completed q; failed := failed q;
                  isRunning := isRunning q |}) in *.
    assert (length rest = length (queue q) - 1)%nat as Hlen'.
    { destruct (SchedulerProps.queue_sort_spec (queue q)) as (Hperm & _).
      apply Permutation_length in Hperm. rewrite Hs in Hperm. cbn in Hperm. lia. }
    destruct (IH q') as (Hf & Hsq & Hq); [cbn; lia | cbn; lia |].
    cbn [queue q'] in Hf, Hsq, Hq. rewrite Hrest in Hf, Hsq, Hq.
    destruct (dispatch_n k q') as [ts q''] eqn:E. cbn [fst snd] in *.
    split; [now rewrite Hf|]. split; [exact Hsq|]. intros _.
    destruct k as [|k]; [|apply Hq; lia].
    cbn in E. injection E as <- <-. reflexivity.
Qed.

(** X25.  While there is capacity for them, [k] successive iterations of
    the loop, with nothing added in between, start the first [k] tasks of
    the queue in priority order, most urgent first and first come first
    served within a priority, and leave the others queued in that
    order. *)
Theorem iterations_start_tasks_in_priority_order :
  forall (k : nat) (q : Queue),
    (size (processing q) + k <= maxConcurrency)%nat ->
    (0 < k <= length (queue q))%nat ->
    fst (dispatch_n k q) = firstn k (JS.sort priority_after (queue q))
    /\ queue (snd (dispatch_n k q)) = skipn k (JS.sort priority_after (queue q))
    /\ length (fst (dispatch_n k q)) = k.
Proof.
  intros k q Hcap [Hpos Hlen].
  destruct (dispatch_n_sorted k q Hcap Hlen) as (Hf & _ & Hq).
  split; [exact Hf|]. split; [exact (Hq Hpos)|].
  rewrite Hf, length_firstn.
  destruct (SchedulerProps.queue_sort_spec (queue q)) as (Hperm & _).
  apply Permutation_length in Hperm. lia.
Qed.

(** Three iterations on [fourQueued] start the two urgent tasks, the
    earlier first, then the medium one; the low one stays queued. *)
Lemma iterations_start_tasks_in_priority_order_witness :
  map id (fst (dispatch_n 3 fourQueued)) = ["u1"; "u2"; "m"]
  /\ map id (queue (snd (dispatch_n 3 fourQueued))) = ["l"].
Proof.
  destruct (iterations_start_tasks_in_priority_order 3 fourQueued) as (Hstarted & Hleft & _).
  - vm_compute. lia.
  - vm_compute. lia.
  - rewrite Hstarted, Hleft. vm_compute. split; reflexivity.
Defined.

(** X26.  An iteration that finds the running set full starts nothing: it
    only puts the queue in priority order, and a second such iteration
    changes nothing any more. *)
Theorem full_queue_is_only_reordered :
  forall q : Queue,
    (maxConcurrency <= size (processing q))%nat ->
    fst (processQueue_iteration q) = None
    /\ queue (snd (processQueue_iteration q)) = JS.sort priority_after (queue q)
    /\ same_but_queue q (snd (processQueue_iteration q))
    /\ processQueue_iteration (snd (processQueue_iteration q))
       = (None, snd (processQueue_iteration q)).
Proof.
  intros q Hfull.
  assert (forall l, processQueue_iteration (with_queue q l)
                    = (None, with_queue q (JS.sort priority_after l))) as Hstep.
  { intros l. unfold processQueue_iteration. cbn [with_queue queue processing].
    destruct (JS.sort priority_after l) as [|t rest]; [reflexivity|].
    destruct (Nat.ltb_spec (size (processing q)) maxConcurrency); [lia | reflexivity]. }
  assert (processQueue_iteration q = (None, with_queue q (JS.sort priority_after (queue q))))
    as Hq.
  { unfold processQueue_iteration.
    destruct (JS.sort priority_after (queue q)) as [|t rest]; [reflexivity|].
    destruct (Nat.ltb_spec (size (processing q)) maxConcurrency); [lia | reflexivity]. }
  rewrite Hq. cbn [fst snd with_queue queue].
  split; [reflexivity|]. split; [reflexivity|]. split; [repeat split|].
  rewrite Hstep, queue_sort_twice. reflexivity.
Qed.

(** Ten tasks are running; the low task was added before the urgent one. *)
Lemma full_queue_is_only_reordered_witness :
  fst (processQueue_iteration (run tenRunningOps newQueue)) = None
  /\ map id (queue (snd (processQueue_iteration (run tenRunningOps newQueue)))) = ["u"; "l"].
Proof.
  destruct (full_queue_is_only_reordered (run tenRunningOps newQueue)) as (Hnone & Hsort & _).
  - vm_compute. lia.
  - split; [exact Hnone|]. rewrite Hsort. vm_compute. reflexivity.
Defined.

(** ** Clearing *)

(** X27.  [clearCompleted] returns the number of completed tasks and
    empties the completed map, leaving the rest; when each task is in one
    place, a task that was completed is then unknown to [getTaskStatus].
    [clearFailed] does the same for the failed map, and after it no task
    can be retried: [retryTask] throws [NotFound] for every id. *)
Theorem clearing_forgets_tasks :
  forall q : Queue,
    (fst (clearCompleted q) = completedCount (getQueueStats q)
     /\ completedCount (getQueueStats (snd (clearCompleted q))) = 0%nat
     /\ queue (snd (clearCompleted q)) = queue q
     /\ processing (snd (clearCompleted q)) = processing q
     /\ failed (snd (clearCompleted q)) = failed q
     /\ (tracked_once q ->
         forall i, is_Some (completed q !! i) ->
                   getTaskStatus (snd (clearCompleted q)) i = None))
    /\ (fst (clearFailed q) = failedCount (getQueueStats q)
        /\ failedCount (getQueueStats (snd (clearFailed q))) = 0%nat
        /\ forall i, retryTask (snd (clearFailed q)) i
                     = (Throw NotFound, snd (clearFailed q))).
Proof.
  intros q. split.
  - cbn [clearCompleted fst snd getQueueStats completedCount queue processing
         completed failed].
    split; [reflexivity|]. split; [apply map_size_empty|].
    split; [reflexivity|]. split; [reflexivity|]. split; [reflexivity|].
    intros (Hnd & Hq & Hp & Hc & Hf) i Hi.
    assert (~ In i (map id (queue q))) as Hnq.
    { intros Hin. apply ids_in in Hin. destruct Hin as (t1 & Ht1 & E).
      destruct (Hq t1 Ht1) as (_ & H2 & _). rewrite E in H2. rewrite H2 in Hi.
      now destruct Hi. }
    unfold getTaskStatus. cbn [queue processing completed failed].
    rewrite (find_none _ _ Hnq).
    destruct (decide (i ∈ processing q)) as [Hin|_].
    { destruct (Hp i Hin) as [H2 _]. rewrite H2 in Hi. now destruct Hi. }
    now rewrite lookup_empty, (Hc i Hi).
  - cbn [clearFailed fst snd getQueueStats failedCount queue processing completed failed].
    split; [reflexivity|]. split; [apply map_size_empty|].
    intros i. unfold retryTask. cbn [failed]. now rewrite lookup_empty.
Qed.

(** ["m"] has completed. *)
Lemma clearing_forgets_tasks_witness :
  getTaskStatus (snd (clearCompleted (run oneCompletedOps newQueue))) "m" = None.
Proof.
  destruct (proj1 (clearing_forgets_tasks (run oneCompletedOps newQueue)))
    as (_ & _ & _ & _ & _ & Hgone).
  apply Hgone; [exact (proj2 examples_tracked_once)|].
  vm_compute. eexists. reflexivity.
Defined.

End QueueMoreProps.
